(** * Archive handling and sample dispatch: [lib/common/zip_utils.py]

    A shallow embedding of the analyzer's archive utilities
    (analyzer/windows/lib/common/zip_utils.py) together with the properties
    stated about them.

    Conventions of the embedding.
    - Python [bytes] values are Rocq [string]s (sequences of 8-bit
      characters).  A Python [str] is held as the bytes of its UTF-8
      encoding, so an ASCII character is one byte below 128 and any other
      character is two to four bytes, all of them 128 or above.  With
      that, [str.encode()] is the identity and [bytes.decode()] is the
      identity on well-formed UTF-8 and raises [UnicodeDecodeError] on
      anything else.  The literals and patterns of the module are ASCII.
      (A [str] with a lone surrogate has no such encoding and is not
      represented.)
    - [str.lower()] and the two regular expressions follow Python on the
      characters outside ASCII as well, wherever the answer to a question
      the module asks depends on them (see [Str.lower] and [Regex]).
    - Everything the module imports from elsewhere (the zipfile library,
      subprocess, shutil, os.path, pathlib, the Package base class, the PE
      helpers) is a field of an interface record over an abstract world.
    - Effects are threaded through a state-and-exception monad whose state
      is the world plus the trace of observable calls. *)

From Stdlib Require Import String Ascii List ZArith Lia Bool Arith.
Import ListNotations.

Local Open Scope string_scope.
Local Open Scope list_scope.
Local Open Scope nat_scope.

(** String concatenation, kept apart from list append. *)
Notation "a +++ b" := (String.append a b) (at level 60, right associativity).

Set Implicit Arguments.

(* ================================================================= *)
(** ** Strings *)

Module Str.

(** Character code of a byte. *)
Definition code (c : ascii) : nat := nat_of_ascii c.

Definition is_upper (c : ascii) : bool :=
  (65 <=? code c) && (code c <=? 90).

(** [str.lower] on one ASCII character. *)
Definition lower_ascii (c : ascii) : ascii :=
  if is_upper c then ascii_of_nat (code c + 32) else c.

(** [s.lower()] on a [str] held as its UTF-8 bytes, as far as a
    comparison with ASCII text can tell.  The ASCII capitals become small
    letters; U+212A (Kelvin sign, bytes 226 132 170) becomes k; U+0130
    (capital I with dot, bytes 196 176) becomes i followed by U+0307
    (bytes 204 135).  These two are the only characters outside ASCII
    whose lower-case form has an ASCII character in it.  Any other
    character outside ASCII is left as it is: its lower-case form is
    outside ASCII as well, and the module only ever asks whether the
    result ends in, or contains, an ASCII text. *)
Fixpoint lower (s : string) : string :=
  match s with
  | EmptyString => EmptyString
  | String c s1 =>
      match s1 with
      | EmptyString => String (lower_ascii c) EmptyString
      | String c1 s2 =>
          if Ascii.eqb c (ascii_of_nat 196) && Ascii.eqb c1 (ascii_of_nat 176)
          then String "i" (String (ascii_of_nat 204)
                             (String (ascii_of_nat 135) (lower s2)))
          else
            match s2 with
            | EmptyString => String (lower_ascii c) (lower s1)
            | String c2 s3 =>
                if Ascii.eqb c (ascii_of_nat 226)
                   && Ascii.eqb c1 (ascii_of_nat 132)
                   && Ascii.eqb c2 (ascii_of_nat 170)
                then String "k" (lower s3)
                else String (lower_ascii c) (lower s1)
            end
      end
  end.

(** An ASCII character that is not a capital letter. *)
Definition is_plain (c : ascii) : bool :=
  negb (is_upper c) && (code c <? 128).

(** [s.startswith(p)] *)
Fixpoint startswith (s p : string) {struct p} : bool :=
  match p, s with
  | EmptyString, _ => true
  | String _ _, EmptyString => false
  | String a p', String b s' => Ascii.eqb a b && startswith s' p'
  end.

(** [needle in hay] for [str] / [bytes]. *)
Fixpoint contains (needle hay : string) : bool :=
  startswith hay needle
  || match hay with
     | EmptyString => false
     | String _ hay' => contains needle hay'
     end.

(** [s.endswith(suf)] *)
Fixpoint endswith (s suf : string) : bool :=
  String.eqb s suf
  || match s with
     | EmptyString => false
     | String _ s' => endswith s' suf
     end.

(** [s.endswith((suf1, suf2, ...))] with a tuple of suffixes. *)
Definition endswith_any (s : string) (sufs : list string) : bool :=
  existsb (endswith s) sufs.

Definition LF : ascii := ascii_of_nat 10.
Definition CR : ascii := ascii_of_nat 13.

(** [s.split("\n")]: the pieces between line feeds; always at least one
    piece. *)
Fixpoint split_lines (s : string) : list string :=
  match s with
  | EmptyString => [EmptyString]
  | String c s' =>
      if Ascii.eqb c LF then EmptyString :: split_lines s'
      else match split_lines s' with
           | [] => [String c EmptyString]
           | l :: ls => String c l :: ls
           end
  end.

(** Lines joined by line feeds (inverse of [split_lines] on LF-free
    lines). *)
Fixpoint join_lines (ls : list string) : string :=
  match ls with
  | [] => EmptyString
  | [l] => l
  | l :: ls' => l +++ String LF (join_lines ls')
  end.

(** No character of [s] satisfies [p]. *)
Fixpoint none_of (p : ascii -> bool) (s : string) : bool :=
  match s with
  | EmptyString => true
  | String c s' => negb (p c) && none_of p s'
  end.

(** The string of the bytes with the given codes. *)
Definition bytes (codes : list nat) : string :=
  fold_right (fun n s => String (ascii_of_nat n) s) EmptyString codes.

Definition in_range (lo hi : nat) (c : ascii) : bool :=
  (lo <=? code c) && (code c <=? hi).

(** Well-formed UTF-8: one byte below 128; a lead byte C2-DF and one
    continuation byte 80-BF; E0-EF and two; F0-F4 and three; the first
    continuation byte being A0-BF after E0, 80-9F after ED, 90-BF after
    F0 and 80-8F after F4. *)
Fixpoint utf8 (s : string) : bool :=
  match s with
  | EmptyString => true
  | String b0 s1 =>
      if code b0 <? 128 then utf8 s1
      else
        match s1 with
        | EmptyString => false
        | String b1 s2 =>
            if in_range 194 223 b0 then in_range 128 191 b1 && utf8 s2
            else
              match s2 with
              | EmptyString => false
              | String b2 s3 =>
                  if in_range 224 239 b0 then
                    (if code b0 =? 224 then in_range 160 191 b1
                     else if code b0 =? 237 then in_range 128 159 b1
                     else in_range 128 191 b1)
                    && in_range 128 191 b2 && utf8 s3
                  else
                    match s3 with
                    | EmptyString => false
                    | String b3 s4 =>
                        in_range 240 244 b0
                        && (if code b0 =? 240 then in_range 144 191 b1
                            else if code b0 =? 244 then in_range 128 143 b1
                            else in_range 128 191 b1)
                        && in_range 128 191 b2 && in_range 128 191 b3
                        && utf8 s4
                    end
              end
        end
  end.

(** What follows the prefix [p] in [s], if [s] starts with [p]. *)
Fixpoint strip (p s : string) {struct p} : option string :=
  match p, s with
  | EmptyString, _ => Some s
  | String _ _, EmptyString => None
  | String a p', String b s' => if Ascii.eqb a b then strip p' s' else None
  end.

End Str.

(* ================================================================= *)
(** ** Regular expressions

    The two patterns of the module are written as syntax trees and run by
    a backtracking matcher with the search discipline of Python's [re]:
    leftmost start, alternatives left to right, greedy repetition.

    The subject of a match is a [str]; it is held as its UTF-8 bytes, so a
    character outside ASCII is a sequence of two to four bytes, none of
    them an ASCII byte.  The patterns are ASCII.  A pattern element that
    stands for one character consumes all the bytes of that character.

    The module imports [re2] when it is installed and [re] otherwise; the
    two differ on [$] (in [re] it also matches just before a final line
    feed), on the characters [\s] accepts and on the characters that
    [IGNORECASE] takes for the letter i. *)

Module Regex.

Inductive re_module := Re | Re2.

(** [\s]: the white-space characters, each as its UTF-8 bytes.  For [re]
    on a [str] these are the characters of [str.isspace()]: the ASCII
    controls 9-13 and 28-31, the space, U+0085, U+00A0, U+1680, U+2000 to
    U+200A, U+2028, U+2029, U+202F, U+205F and U+3000.  For [re2] they
    are tab, line feed, form feed, carriage return and space. *)
Definition white_space (md : re_module) : list string :=
  map Str.bytes
    match md with
    | Re =>
        [[9]; [10]; [11]; [12]; [13]; [28]; [29]; [30]; [31]; [32];
         [194; 133]; [194; 160]; [225; 154; 128];
         [226; 128; 128]; [226; 128; 129]; [226; 128; 130];
         [226; 128; 131]; [226; 128; 132]; [226; 128; 133];
         [226; 128; 134]; [226; 128; 135]; [226; 128; 136];
         [226; 128; 137]; [226; 128; 138];
         [226; 128; 168]; [226; 128; 169]; [226; 128; 175];
         [226; 129; 159]; [227; 128; 128]]
    | Re2 => [[9]; [10]; [12]; [13]; [32]]
    end.

(** [$] with the rest of the subject being [rest]. *)
Definition at_end (md : re_module) (rest : string) : bool :=
  match rest with
  | EmptyString => true
  | String c EmptyString =>
      match md with Re => Ascii.eqb c Str.LF | Re2 => false end
  | _ => false
  end.

Inductive regex :=
| Eps
| Lit (c : ascii)                 (* a literal character *)
| Cls (p : ascii -> bool)         (* a bracket expression of ASCII *)
| Space                           (* \s *)
| Seq (r1 r2 : regex)
| Alt (r1 r2 : regex)
| Opt (r : regex)                 (* r? *)
| Plus (r : regex)                (* r+ *)
| Cap (r : regex)                 (* the group read back with group(1) *)
| Eos.                            (* $ *)

(** A literal string. *)
Fixpoint lits (s : string) : regex :=
  match s with
  | EmptyString => Eps
  | String c s' => Seq (Lit c) (lits s')
  end.

(** [r1|r2|...]; the empty alternation accepts nothing. *)
Fixpoint alts (rs : list regex) : regex :=
  match rs with
  | [] => Cls (fun _ => false)
  | [r] => r
  | r :: rs' => Alt r (alts rs')
  end.

Definition is_lower (c : ascii) : bool :=
  (97 <=? Str.code c) && (Str.code c <=? 122).

Definition upper_ascii (c : ascii) : ascii :=
  if is_lower c then ascii_of_nat (Str.code c - 32) else c.

(** The characters outside ASCII that [IGNORECASE] takes for an ASCII
    letter: U+212A (Kelvin sign) for k and U+017F (long s) for s under
    both modules; under [re] also U+0130 (capital I with dot) and U+0131
    (dotless i) for i. *)
Definition KELVIN_SIGN : string := Str.bytes [226; 132; 170].
Definition LONG_S : string := Str.bytes [197; 191].
Definition CAPITAL_I_WITH_DOT : string := Str.bytes [196; 176].
Definition DOTLESS_I : string := Str.bytes [196; 177].

Definition folded_forms (md : re_module) (l : ascii) : list string :=
  if Ascii.eqb l "k" then [KELVIN_SIGN]
  else if Ascii.eqb l "s" then [LONG_S]
  else if Ascii.eqb l "i" then
    match md with
    | Re => [CAPITAL_I_WITH_DOT; DOTLESS_I]
    | Re2 => []
    end
  else [].

(** The characters a literal [c] of a pattern matches, each as its
    bytes; [icase] is [re.IGNORECASE]. *)
Definition variants (md : re_module) (icase : bool) (c : ascii)
  : list string :=
  if icase then
    let l := Str.lower_ascii c in
    if is_lower l
    then String l EmptyString :: String (upper_ascii l) EmptyString
         :: folded_forms md l
    else [String c EmptyString]
  else [String c EmptyString].

(** The part of [s] consumed when [rest] is what remains of it. *)
Definition consumed (s rest : string) : string :=
  substring 0 (String.length s - String.length rest) s.

Definition orelse {A} (x y : option A) : option A :=
  match x with Some _ => x | None => y end.

Section Matcher.
Variable md : re_module.
Variable icase : bool.
Variable R : Type.

(** A continuation receives the rest of the subject and the current
    content of group 1. *)
Definition cont := string -> option string -> option R.

(** [r+]: one match of the body, then greedily more of them as long as
    each consumes something. *)
Fixpoint plus_loop (body : string -> option string -> cont -> option R)
         (fuel : nat) (s : string) (g : option string) (k : cont)
  : option R :=
  match fuel with
  | O => None
  | S fuel' =>
      body s g (fun s' g' =>
        orelse
          (if String.length s' <? String.length s
           then plus_loop body fuel' s' g' k else None)
          (k s' g'))
  end.

(** One character out of [vs] at the head of [s].  No two characters
    start with the same bytes, so at most one of them is there. *)
Fixpoint one_of (vs : list string) (s : string) (k : string -> option R)
  : option R :=
  match vs with
  | [] => None
  | v :: vs' =>
      orelse (match Str.strip v s with
              | Some s' => k s'
              | None => None
              end)
             (one_of vs' s k)
  end.

Fixpoint run (r : regex) (s : string) (g : option string) (k : cont)
  : option R :=
  match r with
  | Eps => k s g
  | Lit c => one_of (variants md icase c) s (fun s' => k s' g)
  | Cls p =>
      match s with
      | String x s' => if p x then k s' g else None
      | EmptyString => None
      end
  | Space => one_of (white_space md) s (fun s' => k s' g)
  | Seq r1 r2 => run r1 s g (fun s' g' => run r2 s' g' k)
  | Alt r1 r2 => orelse (run r1 s g k) (run r2 s g k)
  | Opt r1 => orelse (run r1 s g k) (k s g)
  | Plus r1 => plus_loop (run r1) (S (String.length s)) s g k
  | Cap r1 => run r1 s g (fun s' _ => k s' (Some (consumed s s')))
  | Eos => if at_end md s then k s g else None
  end.
End Matcher.

(** [re.search(pattern, s)]: the first start position with a match;
    the result is the content of group 1 of that match.  The positions
    tried are those of the bytes; one in the middle of a character is a
    byte from 128 to 191, at which neither pattern of the module can
    start. *)
Fixpoint search (md : re_module) (icase : bool) (r : regex) (s : string)
  : option (option string) :=
  match run md icase r s None (fun _ g => Some g) with
  | Some g => Some g
  | None =>
      match s with
      | EmptyString => None
      | String _ s' => search md icase r s'
      end
  end.

(** What a pattern accepts: [lang r a b] says that [r] can consume [a]
    when [b] follows. *)
Inductive lang (md : re_module) (icase : bool)
  : regex -> string -> string -> Prop :=
| L_Eps b : lang md icase Eps EmptyString b
| L_Lit c v b :
    In v (variants md icase c) -> lang md icase (Lit c) v b
| L_Cls (p : ascii -> bool) x b :
    p x = true -> lang md icase (Cls p) (String x EmptyString) b
| L_Space v b :
    In v (white_space md) -> lang md icase Space v b
| L_Seq r1 r2 a1 a2 b :
    lang md icase r1 a1 (a2 +++ b) -> lang md icase r2 a2 b ->
    lang md icase (Seq r1 r2) (a1 +++ a2) b
| L_AltL r1 r2 a b : lang md icase r1 a b -> lang md icase (Alt r1 r2) a b
| L_AltR r1 r2 a b : lang md icase r2 a b -> lang md icase (Alt r1 r2) a b
| L_OptNone r b : lang md icase (Opt r) EmptyString b
| L_OptSome r a b : lang md icase r a b -> lang md icase (Opt r) a b
| L_PlusOne r a b : lang md icase r a b -> lang md icase (Plus r) a b
| L_PlusMore r a1 a2 b :
    lang md icase r a1 (a2 +++ b) -> lang md icase (Plus r) a2 b ->
    lang md icase (Plus r) (a1 +++ a2) b
| L_Cap r a b : lang md icase r a b -> lang md icase (Cap r) a b
| L_Eos b : at_end md b = true -> lang md icase Eos EmptyString b.

End Regex.

(* ================================================================= *)
(** ** Module constants (lines 23-28) *)

(** The bracket expression [[a-zA-Z0-9\.\-,_\\]] of [FILE_NAME_REGEX]. *)
Definition name_char (c : ascii) : bool :=
  let n := Str.code c in
  ((97 <=? n) && (n <=? 122)) || ((65 <=? n) && (n <=? 90))
  || ((48 <=? n) && (n <=? 57))
  || (n =? 46) || (n =? 45) || (n =? 44) || (n =? 95) || (n =? 92).

(** The name sub-pattern, [(?:[...]+( [...]+)?)+]. *)
Definition NAME_PATTERN : Regex.regex :=
  Regex.Plus
    (Regex.Seq (Regex.Plus (Regex.Cls name_char))
               (Regex.Opt (Regex.Seq (Regex.Lit " ")
                                     (Regex.Plus (Regex.Cls name_char))))).

(** [FILE_NAME_REGEX]: two white-space characters, the name as group 1, a
    carriage return.  The inner group is never read back and is not
    recorded. *)
Definition FILE_NAME_REGEX : Regex.regex :=
  Regex.Seq Regex.Space
    (Regex.Seq Regex.Space
       (Regex.Seq (Regex.Cap NAME_PATTERN) (Regex.Lit Str.CR))).

Definition EXTENSIONS : list string :=
  [".exe"; ".dll"; ".scr"; ".msi"; ".bat"; ".lnk"; ".js"; ".jse"; ".vbs"; ".vbe";
   ".wsf"; ".ps1"; ".db"; ".cmd"; ".dat"; ".tmp"; ".temp"; ".doc"; ".xls"].

(** [EXE_REGEX]: [(\.exe|\.dll|...|\.xls)$], compiled with
    [re.IGNORECASE]. *)
Definition EXE_REGEX : Regex.regex :=
  Regex.Seq
    (Regex.Cap (Regex.alts (map Regex.lits EXTENSIONS)))
    Regex.Eos.

Definition PE_INDICATORS : list string :=
  ["MZ"; "This program cannot be run in DOS mode"].

(* ================================================================= *)
(** ** Exceptions *)

(** The exception classes the module raises, catches or lets through:
    Python's own, the zipfile library's [BadZipfile] and the analyzer's
    [CuckooPackageError]. *)
Inductive exn_class :=
| Exception
| TypeError
| ValueError
| UnicodeError
| UnicodeDecodeError
| RuntimeError
| NotImplementedError
| OSError
| FileNotFoundError
| UnboundLocalError
| BadZipfile
| CuckooPackageError.

Definition exn_class_eqb (a b : exn_class) : bool :=
  match a, b with
  | Exception, Exception | TypeError, TypeError
  | ValueError, ValueError | UnicodeError, UnicodeError
  | UnicodeDecodeError, UnicodeDecodeError
  | RuntimeError, RuntimeError | NotImplementedError, NotImplementedError
  | OSError, OSError | FileNotFoundError, FileNotFoundError
  | UnboundLocalError, UnboundLocalError | BadZipfile, BadZipfile
  | CuckooPackageError, CuckooPackageError => true
  | _, _ => false
  end.

(** Modelled from the spec: [lib.common.exceptions], which declares
    [CuckooPackageError], is not among the sources.  The spec lists its
    error kinds side by side, none a special case of a library error, so
    [CuckooPackageError] derives from [Exception] and neither from
    [RuntimeError] nor from [BadZipfile].  The other entries are Python's
    class hierarchy.

    The direct base class, [None] for [Exception] itself. *)
Definition base_class (c : exn_class) : option exn_class :=
  match c with
  | Exception => None
  | UnicodeDecodeError => Some UnicodeError
  | UnicodeError => Some ValueError
  | NotImplementedError => Some RuntimeError
  | FileNotFoundError => Some OSError
  | _ => Some Exception
  end.

(** [issubclass(c, handler)]: what an [except handler:] clause catches. *)
Definition is_instance (c handler : exn_class) : bool :=
  exn_class_eqb c handler
  || match base_class c with
     | Some b =>
         exn_class_eqb b handler
         || match base_class b with
            | Some b' =>
                exn_class_eqb b' handler
                || match base_class b' with
                   | Some b'' => exn_class_eqb b'' handler
                   | None => false
                   end
            | None => false
            end
     | None => false
     end.

Record exn := mkExn { exn_cls : exn_class; exn_msg : string }.

(* ================================================================= *)
(** ** Observable calls and the monad *)

Inductive log_level := Debug | Info | Warning | Error.

Record ZipInfo := { filename : string; flag_bits : Z }.

Section Effects.
(** The world outside the module, the handle of an opened ZIP file and
    the result of [Package.execute]. *)
Variables World Archive Proc : Type.

Inductive event :=
| EvLog (level : log_level) (msg : string) (args : list string)
| EvRun (argv : list string)                       (* subprocess.run *)
| EvRmtree (path : string)                         (* shutil.rmtree *)
| EvMove (src dst : string)                        (* shutil.move *)
| EvCopy (src dst : string)                        (* shutil.copy *)
| EvExecute (path : string) (args : option string) (target : string)
| EvEnter (zip_path : string) (recursion_depth : Z) (* extract_zip entered *)
| EvExtractAll (recursion_depth : Z) (archive : Archive)
               (path pwd : string).                (* archive.extractall *)

Record state := mkState { world : World; trace : list event }.

Inductive outcome (T : Type) :=
| Return (v : T)
| Raise (e : exn)
| OutOfFuel.
Arguments Return {T} v.
Arguments Raise {T} e.
Arguments OutOfFuel {T}.

Definition M (T : Type) := state -> state * outcome T.

Definition ret {T} (v : T) : M T := fun st => (st, Return v).

Definition bind {T U} (m : M T) (f : T -> M U) : M U :=
  fun st =>
    match m st with
    | (st', Return v) => f v st'
    | (st', Raise e) => (st', Raise e)
    | (st', OutOfFuel) => (st', OutOfFuel)
    end.

Definition raise {T} (c : exn_class) (msg : string) : M T :=
  fun st => (st, Raise (mkExn c msg)).

Definition out_of_fuel {T} : M T := fun st => (st, OutOfFuel).

Definition emit (ev : event) : M unit :=
  fun st => (mkState (world st) (trace st ++ [ev]), Return tt).

(** A call that reads the world. *)
Definition query {T} (f : World -> exn + T) : M T :=
  fun st =>
    match f (world st) with
    | inr v => (st, Return v)
    | inl e => (st, Raise e)
    end.

(** A call that changes the world. *)
Definition call {T} (f : World -> World * (exn + T)) : M T :=
  fun st =>
    match f (world st) with
    | (w, inr v) => (mkState w (trace st), Return v)
    | (w, inl e) => (mkState w (trace st), Raise e)
    end.

(** The first [except] clause whose class the exception is an instance
    of. *)
Fixpoint find_handler {T} (e : exn)
         (handlers : list (exn_class * (exn -> M T))) : option (M T) :=
  match handlers with
  | [] => None
  | (cls, h) :: rest =>
      if is_instance (exn_cls e) cls then Some (h e)
      else find_handler e rest
  end.

(** [try: body / except C1 as e: h1 e / except C2 as e: h2 e ...].  What a
    handler raises is not offered to the other clauses. *)
Definition try_except {T} (body : M T)
           (handlers : list (exn_class * (exn -> M T))) : M T :=
  fun st =>
    match body st with
    | (st', Raise e) =>
        match find_handler e handlers with
        | Some h => h st'
        | None => (st', Raise e)
        end
    | r => r
    end.

(** [try: body / finally: cleanup].  An exception of the clean-up
    replaces whatever the body left pending. *)
Definition try_finally {T} (body : M T) (cleanup : M unit) : M T :=
  fun st =>
    match body st with
    | (st', OutOfFuel) => (st', OutOfFuel)
    | (st', r) =>
        match cleanup st' with
        | (st'', Return _) => (st'', r)
        | (st'', Raise e) => (st'', Raise e)
        | (st'', OutOfFuel) => (st'', OutOfFuel)
        end
    end.

Definition log (level : log_level) (msg : string) (args : list string)
  : M unit := emit (EvLog level msg args).

End Effects.

Arguments Return {T} v.
Arguments Raise {T} e.
Arguments OutOfFuel {T}.
Arguments EvLog {Archive}.
Arguments EvRun {Archive}.
Arguments EvRmtree {Archive}.
Arguments EvMove {Archive}.
Arguments EvCopy {Archive}.
Arguments EvExecute {Archive}.
Arguments EvEnter {Archive}.
Arguments ret {World Archive T}.
Arguments raise {World Archive T}.
Arguments out_of_fuel {World Archive T}.
Arguments emit {World Archive}.
Arguments log {World Archive}.
Arguments query {World Archive T}.
Arguments call {World Archive T}.

Declare Scope monad_scope.
Delimit Scope monad_scope with monad.
Notation "x <- m ;; f" := (bind m (fun x => f))
  (at level 61, m at next level, right associativity) : monad_scope.
Notation "' pat <- m ;; f" := (bind m (fun x => match x with pat => f end))
  (at level 61, pat pattern, m at next level, right associativity)
  : monad_scope.
Notation "m ;; f" := (bind m (fun _ => f))
  (at level 61, right associativity) : monad_scope.
Local Open Scope monad_scope.

(* ================================================================= *)
(** ** What the module imports *)

(** The collaborators of the module over a world [World]: the zipfile
    library, shutil, os.path, pathlib, subprocess, the file system, the
    [Package] base class and the PE helpers.  A call that can raise returns
    [inl] of the exception. *)
Record Env (World Archive Proc : Type) := {
  (* zipfile *)
  ZipFile_open : string -> World -> exn + Archive;    (* ZipFile(path, "r") *)
  infolist : Archive -> list ZipInfo;
  zip_extractall : Archive -> string -> string -> World -> World * (exn + unit);
  (* shutil, os.path, pathlib *)
  shutil_move : string -> string -> World -> World * (exn + unit);
  shutil_copy : string -> string -> World -> World * (exn + unit);
  shutil_rmtree : string -> World -> World;           (* ignore_errors=True *)
  path_join : string -> string -> string;
  path_basename : string -> string;
  path_dirname : string -> string;
  Path_match : string -> string -> bool;              (* Path(p).match(pat) *)
  (* subprocess.run(...): (stdout, stderr) *)
  subprocess_run : list string -> World -> World * (exn + (string * string));
  (* bytes.decode(): the text of well-formed UTF-8, UnicodeDecodeError
     for any other bytes *)
  bytes_decode : string -> exn + string;
  (* open(path, "rb") followed by a first read() *)
  read_file : string -> World -> exn + string;
  (* Package *)
  get_path : string -> World -> exn + string;
  get_path_app_in_path : string -> World -> exn + string;
  get_path_glob : string -> World -> exn + string;
  options : string -> option string;                  (* self.options.get *)
  (* self.execute(path, args, target); the value it returns may be None *)
  execute : string -> option string -> string -> World
            -> World * (exn + option Proc);
  (* parse_pe, common *)
  choose_dll_export : string -> World -> exn + string;
  is_pe_image : string -> World -> exn + bool;
  check_file_extension : string -> string -> World -> World * (exn + string)
}.

(** [archive.namelist()] is the list of the members' file names. *)
Definition namelist {World Archive Proc} (E : Env World Archive Proc)
           (a : Archive) : list string :=
  map filename (infolist E a).

(* ================================================================= *)
(** ** The module's functions *)

Section ZipUtils.
Variables World Archive Proc : Type.
Variable E : Env World Archive Proc.
(** Which regular-expression module the import at lines 9-12 found. *)
Variable md : Regex.re_module.

Local Abbreviation M := (M World Archive).

(** [subprocess.run(argv, stdin=DEVNULL, stderr=PIPE, stdout=PIPE)] *)
Definition run_tool (argv : list string) : M (string * string) :=
  emit (EvRun argv);; call (subprocess_run E argv).

(** Lines 112-143. *)
Definition extract_archive (seven_zip_path archive_path extract_path
                            password : string) : M unit :=
  let first_argv :=
    [seven_zip_path; "x"; "-p"; "-y"; "-o" +++ extract_path; archive_path] in
  log Debug "" first_argv;;
  '(stdoutput, stderr) <- run_tool first_argv;;
  log Debug "%s %s" [stdoutput; stderr];;
  if Str.contains "Wrong password" stderr then
    (if negb (Path_match E extract_path "local\temp")
     then emit (EvRmtree extract_path);;
          call (fun w => (shutil_rmtree E extract_path w, inr tt))
     else ret tt);;
    let retry_argv :=
      [seven_zip_path; "x"; "-p" +++ password; "-y"; "-o" +++ extract_path;
       archive_path] in
    log Debug "" retry_argv;;
    '(stdoutput, stderr) <- run_tool retry_argv;;
    log Debug "%s %s" [stdoutput; stderr];;
    if Str.contains "Wrong password" stderr
    then raise Exception "Wrong password provided"
    else ret tt
  else if Str.contains "Can not open the file as archive" stdoutput
  then raise TypeError "Unable to open the file as archive"
  else ret tt.

(** The three loop variables of [get_file_names].  A collected name is
    what [group(1)] returned, [None] for a group that took no part in
    the match. *)
Record listing_state := {
  in_table : bool;
  items_under_header : bool;
  file_names : list (option string)
}.

Definition HEADER_WORDS : list string :=
  ["Date"; "Time"; "Attr"; "Size"; "Compressed"; "Name"].

(** One iteration of the loop at lines 162-184. *)
Definition listing_step (st : listing_state) (line : string)
  : listing_state :=
  if in_table st then
    if Str.contains "-----" line then
      {| in_table := true;
         items_under_header := negb (items_under_header st);
         file_names := file_names st |}
    else if items_under_header st then
      match Regex.search md false FILE_NAME_REGEX line with
      | Some g =>
          {| in_table := true;
             items_under_header := true;
             file_names := file_names st ++ [g] |}
      | None => st
      end
    else st
  else
    if forallb (fun item => Str.contains (Str.lower item) (Str.lower line))
               HEADER_WORDS
    then {| in_table := true;
            items_under_header := items_under_header st;
            file_names := file_names st |}
    else st.

(** Lines 156-186: the report is split at line feeds and scanned. *)
Definition parse_listing (stdoutput : string) : list (option string) :=
  file_names
    (fold_left listing_step (Str.split_lines stdoutput)
       {| in_table := false; items_under_header := false;
          file_names := [] |}).

(** Lines 146-186. *)
Definition get_file_names (seven_zip_path archive_path : string)
  : M (list (option string)) :=
  let argv := [seven_zip_path; "l"; archive_path] in
  log Debug "" argv;;
  '(stdout, _) <- run_tool argv;;
  stdoutput <- query (fun _ => bytes_decode E stdout);;
  ret (parse_listing stdoutput).

(** Lines 289-299. *)
Definition get_interesting_files (file_names : list string) : list string :=
  fold_left
    (fun interesting_files f =>
       match Regex.search md true EXE_REGEX f with
       | Some _ => interesting_files ++ [f]
       | None => interesting_files
       end)
    file_names [].


(** The double-quote character, for the command lines below. *)
Definition DQ : string := String (ascii_of_nat 34) EmptyString.

(** [return self.execute(path, args, target)]: the value of the call is
    handed on as it is. *)
Definition launch (path : string) (args : option string) (target : string)
  : M (option Proc) :=
  emit (EvExecute path args target);;
  call (execute E path args target).

(** Reading a local variable; [None] is a name that no assignment has
    reached. *)
Definition read_local {T} (name : string) (v : option T) : M T :=
  match v with
  | Some x => ret x
  | None => raise UnboundLocalError name
  end.

(** Truth value of [self.options.get(key)]: set and not empty. *)
Definition truthy (v : option string) : bool :=
  match v with
  | Some s => negb (String.eqb s "")
  | None => false
  end.

(** [any(PE_indicator in f.read() for PE_indicator in PE_INDICATORS)] on a
    file just opened: every evaluation of [f.read()] returns what is left
    of the file, all of it the first time and nothing afterwards. *)
Fixpoint any_indicator (indicators : list string) (unread : string) : bool :=
  match indicators with
  | [] => false
  | ind :: rest => Str.contains ind unread || any_indicator rest ""
  end.

(** The command line of lines 47 and 108: change to [root], then start
    [file_path] and wait for it; [DQ] stands for each double quote of the
    f-string. *)
Definition start_args (root file_path : string) : string :=
  "/c " +++ DQ +++ "cd ^" +++ DQ +++ root +++ "^" +++ DQ
  +++ " && start /wait ^" +++ DQ +++ "^" +++ DQ +++ " ^" +++ DQ
  +++ file_path +++ "^" +++ DQ.

(** The format string of line 43, with its double quotes. *)
Definition INTERESTING_FORMAT : string :=
  "Interesting file_name: " +++ DQ +++ "%s" +++ DQ.

(** Lines 39-109. *)
Definition execute_interesting_file (root file_name file_path : string)
  : M (option Proc) :=
  log Debug INTERESTING_FORMAT [file_name];;
  let lname := Str.lower file_name in
  if Str.endswith_any lname [".lnk"; ".bat"; ".cmd"] then
    cmd_path <- query (get_path E "cmd.exe");;
    launch cmd_path (Some (start_args root file_path)) file_path
  else if Str.endswith lname ".msi" then
    msi_path <- query (get_path E "msiexec.exe");;
    launch msi_path (Some ("/I " +++ DQ +++ file_path +++ DQ)) file_path
  else if Str.endswith_any lname [".js"; ".jse"; ".vbs"; ".vbe"; ".wsf"] then
    cmd_path <- query (get_path E "cmd.exe");;
    wscript <- query (get_path_app_in_path E "wscript.exe");;
    launch cmd_path
      (Some ("/c " +++ DQ +++ "cd ^" +++ DQ +++ root +++ "^" +++ DQ +++ " && "
             +++ wscript +++ " ^" +++ DQ +++ file_path +++ "^" +++ DQ))
      file_path
  else if Str.endswith_any lname [".dll"; ".db"; ".dat"; ".tmp"; ".temp"] then
    is_code <-
      (if negb (Str.endswith lname ".dll") then
         content <- query (read_file E file_path);;
         ret (any_indicator PE_INDICATORS content)
       else ret true);;
    if negb is_code then ret None
    else
      dll_export <- query (choose_dll_export E file_path);;
      '(rundll32, function) <-
        (if String.eqb dll_export "DllRegisterServer" then
           p <- query (get_path E "regsvr32.exe");;
           ret (p, None)
         else
           p <- query (get_path_app_in_path E "rundll32.exe");;
           ret (p, Some (match options E "function" with
                         | Some f => f
                         | None => "#1"
                         end)));;
      let arguments := options E "arguments" in
      let dllloader := options E "dllloader" in
      function <- read_local "function" function;;
      let dll_args := DQ +++ file_path +++ DQ +++ "," +++ function in
      let dll_args :=
        match arguments with
        | Some a => if truthy arguments then dll_args +++ " " +++ a else dll_args
        | None => dll_args
        end in
      rundll32 <-
        (match dllloader with
         | Some d =>
             if truthy dllloader then
               let newname := path_join E (path_dirname E rundll32) d in
               emit (EvCopy rundll32 newname);;
               call (shutil_copy E rundll32 newname);;
               ret newname
             else ret rundll32
         | None => ret rundll32
         end);;
      launch rundll32 (Some dll_args) file_path
  else if Str.endswith lname ".ps1" then
    powershell <- query (get_path_app_in_path E "powershell.exe");;
    launch powershell
      (Some ("-NoProfile -ExecutionPolicy bypass -File " +++ DQ +++ file_path
             +++ DQ))
      file_path
  else if Str.endswith lname ".doc" then
    word <- try_except (query (get_path_glob E "WINWORD.EXE"))
              [(CuckooPackageError,
                fun _ => query (get_path_glob E "WORDVIEW.EXE"))];;
    launch word (Some (DQ +++ file_path +++ DQ +++ " /q")) file_path
  else if Str.endswith lname ".xls" then
    excel <- query (get_path_glob E "EXCEL.EXE");;
    launch excel (Some (DQ +++ file_path +++ DQ +++ " /q")) file_path
  else
    pe <- query (is_pe_image E file_path);;
    if pe then
      file_path <- call (check_file_extension E file_path ".exe");;
      launch file_path (options E "arguments") file_path
    else
      cmd_path <- query (get_path E "cmd.exe");;
      launch cmd_path (Some (start_args root file_path)) file_path.

(** Lines 250-260.  The archive is opened before the [try] starts. *)
Definition is_overwritten (zip_path : string) : M bool :=
  archive <- query (ZipFile_open E zip_path);;
  try_except
    (ret (existsb (fun name => String.eqb name (path_basename E zip_path))
                  (namelist E archive)))
    [(BadZipfile, fun _ => raise CuckooPackageError "Invalid Zip file")].

(** Lines 263-272.  Here the [try] encloses the opening. *)
Definition get_infos (zip_path : string) : M (list ZipInfo) :=
  try_except
    (archive <- query (ZipFile_open E zip_path);;
     ret (infolist E archive))
    [(BadZipfile, fun _ => raise CuckooPackageError "Invalid Zip file")].

(** The [password] argument of [extract_zip] is a [str] or a [bytes]. *)
Inductive password_arg :=
| PwStr (s : string)
| PwBytes (b : string).

(** Lines 205-206. *)
Definition to_bytes (password : password_arg) : string :=
  match password with
  | PwStr s => s          (* password.encode() *)
  | PwBytes b => b
  end.

(** Lines 211-219: the loop over [archive.infolist()]. *)
Fixpoint check_encrypted (infos : list ZipInfo) (password : string)
  : M string :=
  match infos with
  | [] => ret password
  | zip_info :: rest =>
      let is_encrypted := Z.land (flag_bits zip_info) 1 in
      if negb (Z.eqb is_encrypted 0)
         && (String.eqb password "" || String.eqb password "infected")
      then
        log Debug
          "Archive is encrypted, using default password value: infected" [];;
        check_encrypted rest
          (if String.eqb password "" then "infected" else password)
      else check_encrypted rest password
  end.

(** [archive.extractall(path=extract_path, pwd=password)] *)
Definition extractall (recursion_depth : Z) (archive : Archive)
           (extract_path password : string) : M unit :=
  emit (EvExtractAll recursion_depth archive extract_path password);;
  call (zip_extractall E archive extract_path password).

(** Lines 221-230: the [try] with its two [except] clauses. *)
Definition extract_members (recursion_depth : Z) (archive : Archive)
           (extract_path password : string) : M unit :=
  try_except
    (extractall recursion_depth archive extract_path password)
    [(BadZipfile, fun _ => raise CuckooPackageError "Invalid Zip file");
     (RuntimeError,
      fun _ =>
        try_except
          (extractall recursion_depth archive extract_path password)
          [(RuntimeError,
            fun e => raise CuckooPackageError
                       ("Unable to extract Zip file: " +++ exn_msg e))])].

(** Lines 237-247: the recursive call on member [name], written
    [recurse name], inside its [try]. *)
Definition try_nested (recurse : string -> M unit) (name : string) : M unit :=
  try_except (recurse name)
    [(BadZipfile,
      fun _ =>
        log Warning
          "Nested file '%s' name ends with .zip extension is not a valid Zip. Skip extraction"
          [name]);
     (RuntimeError,
      fun run_err =>
        log Error "Error extracting nested Zip file %s with details: %s"
          [name; exn_msg run_err])].

(** Lines 234-247: the loop over [archive.namelist()]. *)
Fixpoint extract_nested (recurse : string -> M unit) (names : list string)
  : M unit :=
  match names with
  | [] => ret tt
  | name :: rest =>
      (if Str.endswith name ".zip" then try_nested recurse name else ret tt);;
      extract_nested recurse rest
  end.

(** Lines 189-247.  [fuel] bounds the nesting of recursive calls. *)
Fixpoint extract_zip_fuel (fuel : nat) (zip_path extract_path : string)
         (password : password_arg) (recursion_depth : Z) : M unit :=
  emit (EvEnter zip_path recursion_depth);;
  overwritten <- is_overwritten zip_path;;
  zip_path <-
    (if overwritten then
       log Debug
         "ZIP file contains a file with the same name, original will be overwritten"
         [];;
       let new_zip_path := zip_path +++ ".old" in
       emit (EvMove zip_path new_zip_path);;
       call (shutil_move E zip_path new_zip_path);;
       ret new_zip_path
     else ret zip_path);;
  let password := to_bytes password in
  archive <- query (ZipFile_open E zip_path);;
  password <- check_encrypted (infolist E archive) password;;
  try_finally
    (extract_members recursion_depth archive extract_path password)
    (if (recursion_depth <? 4)%Z then
       match fuel with
       | O => out_of_fuel
       | S fuel' =>
           extract_nested
             (fun name =>
                extract_zip_fuel fuel' (path_join E extract_path name)
                  extract_path (PwBytes password) (recursion_depth + 1))
             (namelist E archive)
       end
     else ret tt).

(** [extract_zip]: the recursion nests at most [4 - recursion_depth]
    deep. *)
Definition extract_zip (zip_path extract_path : string)
           (password : password_arg) (recursion_depth : Z) : M unit :=
  extract_zip_fuel (Z.to_nat (4 - recursion_depth)) zip_path extract_path
    password recursion_depth.

End ZipUtils.

Arguments EvExtractAll {Archive}.

(** Outcome and trace of a computation started in world [w] with an empty
    trace. *)
Definition run_in {World Archive T} (m : M World Archive T) (w : World)
  : state World Archive * outcome T :=
  m (mkState w []).

Definition result_of {World Archive T} (r : state World Archive * outcome T)
  : outcome T := snd r.

Definition trace_of {World Archive T} (r : state World Archive * outcome T)
  : list (event Archive) := trace (fst r).

Definition world_of {World Archive T} (r : state World Archive * outcome T)
  : World := world (fst r).

(* ================================================================= *)
(** ** A small concrete world

    Files are blobs or ZIP containers held in an association list from
    paths to contents; the external tool answers from a script of
    (stdout, stderr) pairs.  It serves to run the functions above on
    concrete archives. *)

Module Sim.

(** A member has its header, the password it was encrypted with and its
    body. *)
Inductive node :=
| Blob (content : string)
| Zip (members : list member)
with member :=
| Member (info : ZipInfo) (pwd : string) (body : node).

Definition archive := list member.

Definition member_info (m : member) : ZipInfo :=
  match m with Member i _ _ => i end.

Record world := {
  files : list (string * node);
  tool_script : list (string * string)
}.

Fixpoint lookup (p : string) (fs : list (string * node)) : option node :=
  match fs with
  | [] => None
  | (q, n) :: fs' => if String.eqb p q then Some n else lookup p fs'
  end.

Definition remove (p : string) (fs : list (string * node))
  : list (string * node) :=
  filter (fun e => negb (String.eqb p (fst e))) fs.

Definition write (p : string) (n : node) (fs : list (string * node))
  : list (string * node) :=
  remove p fs ++ [(p, n)].

Definition SEP : ascii := ascii_of_nat 92.

Definition has_sep (s : string) : bool :=
  negb (Str.none_of (Ascii.eqb SEP) s).

Definition join (a b : string) : string := a +++ String SEP b.

Fixpoint basename (s : string) : string :=
  match s with
  | EmptyString => EmptyString
  | String c s' =>
      if has_sep s' then basename s'
      else if Ascii.eqb c SEP then s' else s
  end.

Fixpoint dirname (s : string) : string :=
  match s with
  | EmptyString => EmptyString
  | String c s' => if has_sep s' then String c (dirname s') else EmptyString
  end.

Definition zip_open (p : string) (w : world) : exn + archive :=
  match lookup p (files w) with
  | None => inl (mkExn FileNotFoundError p)
  | Some (Blob _) => inl (mkExn BadZipfile "File is not a zip file")
  | Some (Zip ms) => inr ms
  end.

Definition is_encrypted (i : ZipInfo) : bool :=
  negb (Z.eqb (Z.land (flag_bits i) 1) 0).

(** Members are written out in order; an encrypted member stops the
    extraction unless the password is the one it was encrypted with. *)
Fixpoint extract_all (ms : archive) (path pwd : string)
         (fs : list (string * node)) : list (string * node) * (exn + unit) :=
  match ms with
  | [] => (fs, inr tt)
  | Member i mpwd body :: ms' =>
      if is_encrypted i && negb (String.eqb pwd mpwd)
      then (fs, inl (mkExn RuntimeError "Bad password for file"))
      else extract_all ms' path pwd (write (join path (filename i)) body fs)
  end.

Definition set_files (w : world) (fs : list (string * node)) : world :=
  {| files := fs; tool_script := tool_script w |}.

Definition move (src dst : string) (w : world) : world * (exn + unit) :=
  match lookup src (files w) with
  | None => (w, inl (mkExn FileNotFoundError src))
  | Some n => (set_files w (write dst n (remove src (files w))), inr tt)
  end.

Definition copy (src dst : string) (w : world) : world * (exn + unit) :=
  match lookup src (files w) with
  | None => (w, inl (mkExn FileNotFoundError src))
  | Some n => (set_files w (write dst n (files w)), inr tt)
  end.

Definition rmtree (p : string) (w : world) : world :=
  set_files w
    (filter (fun e => negb (Str.startswith (fst e) (p +++ String SEP "")))
            (files w)).

Definition run_tool (argv : list string) (w : world)
  : world * (exn + (string * string)) :=
  match tool_script w with
  | [] => (w, inr ("", ""))
  | out :: rest => ({| files := files w; tool_script := rest |}, inr out)
  end.

(** The text of well-formed UTF-8 is held as these very bytes.  The
    message of the error, which names the offending byte and its
    position, is not reproduced. *)
Definition decode (b : string) : exn + string :=
  if Str.utf8 b then inr b
  else inl (mkExn UnicodeDecodeError "'utf-8' codec can't decode byte").

Definition read (p : string) (w : world) : exn + string :=
  match lookup p (files w) with
  | None => inl (mkExn FileNotFoundError p)
  | Some (Blob c) => inr c
  | Some (Zip _) => inr "PK"
  end.

(** [Path(p).match(pattern)] for a relative pattern on Windows: the
    components of the pattern are, whatever the case of their letters,
    the last components of the path.  A component is what stands between
    separators (backslash or slash); a drive letter is no part of the
    first one, and empty components and single dots do not count. *)
Definition is_sep (c : ascii) : bool := Ascii.eqb c SEP || Ascii.eqb c "/".

Definition component (cur : string) : list string :=
  if String.eqb cur "" || String.eqb cur "." then [] else [cur].

Fixpoint components (cur s : string) : list string :=
  match s with
  | EmptyString => component cur
  | String c s' =>
      if is_sep c then component cur ++ components EmptyString s'
      else components (cur +++ String c EmptyString) s'
  end.

Definition without_drive (s : string) : string :=
  match s with
  | String d (String c s') =>
      if Ascii.eqb c ":" && (Str.is_upper d || Regex.is_lower d) then s'
      else s
  | _ => s
  end.

Fixpoint starts_with (l p : list string) : bool :=
  match p, l with
  | [], _ => true
  | _ :: _, [] => false
  | x :: p', y :: l' => String.eqb x y && starts_with l' p'
  end.

Definition path_match (p pattern : string) : bool :=
  let want := rev (components EmptyString (Str.lower pattern)) in
  let have := rev (components EmptyString (without_drive (Str.lower p))) in
  match want with
  | [] => false
  | _ :: _ => starts_with have want
  end.

Definition system32 (app : string) (w : world) : exn + string :=
  inr ("C:\Windows\System32\" +++ app).

(** The collaborators over this world; [opts] is the package's option
    dictionary and [export] what the export chooser answers. *)
Definition env (opts : string -> option string) (export : string)
  : Env world archive nat :=
  {| ZipFile_open := zip_open;
     infolist := map member_info;
     zip_extractall := fun a path pwd w =>
       let (fs, r) := extract_all a path pwd (files w) in (set_files w fs, r);
     shutil_move := move;
     shutil_copy := copy;
     shutil_rmtree := rmtree;
     path_join := join;
     path_basename := basename;
     path_dirname := dirname;
     Path_match := path_match;
     subprocess_run := run_tool;
     bytes_decode := decode;
     read_file := read;
     get_path := system32;
     get_path_app_in_path := system32;
     get_path_glob := system32;
     options := opts;
     execute := fun _ _ _ w => (w, inr (Some 1));
     choose_dll_export := fun _ _ => inr export;
     is_pe_image := fun p w =>
       match read p w with
       | inr c => inr (Str.startswith c "MZ")
       | inl e => inl e
       end;
     check_file_extension := fun p ext w =>
       (w, inr (if Str.endswith (Str.lower p) ext then p else p +++ ext)) |}.

Definition no_options (key : string) : option string := None.

Definition plain (name : string) : ZipInfo :=
  {| filename := name; flag_bits := 0 |}.

Definition encrypted (name : string) : ZipInfo :=
  {| filename := name; flag_bits := 1 |}.

(** A chain of five archives, each holding the next one, with a payload in
    the innermost. *)
Definition level5 : node := Zip [Member (plain "payload.exe") "" (Blob "MZ")].
Definition level4 : node := Zip [Member (plain "l5.zip") "" level5].
Definition level3 : node := Zip [Member (plain "l4.zip") "" level4].
Definition level2 : node := Zip [Member (plain "l3.zip") "" level3].
Definition level1 : node := Zip [Member (plain "l2.zip") "" level2].

Definition chain_world : world :=
  {| files := [("C:\in\l1.zip", level1)]; tool_script := [] |}.

(** An archive whose first nested member needs a password nobody has and
    whose second nested member is sound. *)
Definition locked : node :=
  Zip [Member (encrypted "secret.txt") "hunter2" (Blob "x")].
Definition sound : node := Zip [Member (plain "b.exe") "" (Blob "MZ")].
Definition outer : node :=
  Zip [Member (plain "first.zip") "" locked;
       Member (plain "second.zip") "" sound].

Definition outer_world : world :=
  {| files := [("C:\in\outer.zip", outer)]; tool_script := [] |}.

End Sim.

(** A listing in the layout of the external tool. *)
Module ListingExample.

Definition header : string :=
  "   Date      Time    Attr         Size   Compressed  Name"
  +++ String Str.CR "".

Definition separator : string :=
  "------------------- ----- ------------ ------------  ------------------------"
  +++ String Str.CR "".

Definition columns : string :=
  "2021-01-01 12:00:00 ....A         1234          567".

Definition summary : string :=
  "2021-01-01 12:00:00               2468         1134  2 files"
  +++ String Str.CR "".

(** A line of the listing for a member called [name]. *)
Definition line_of (name : string) : string :=
  columns +++ "  " +++ name +++ String Str.CR "".

(** The tool's answer for an archive of two members with plain names. *)
Definition plain_world : Sim.world :=
  {| Sim.files := [];
     Sim.tool_script :=
       [(Str.join_lines
           (["Listing archive: sample.7z"; ""]
              ++ [header; separator; line_of "dropper.exe";
                  line_of "docs\read me.txt"; separator]
              ++ [summary; ""]),
         "")] |}.

(** The same with a parenthesis in the first name. *)
Definition parenthesis_world : Sim.world :=
  {| Sim.files := [];
     Sim.tool_script :=
       [(Str.join_lines
           [header; separator; line_of "report(1).exe"; line_of "lib.dll";
            separator],
         "")] |}.

End ListingExample.

(** An archive with one encrypted member. *)
Module PasswordExample.

Definition protected : Sim.node :=
  Sim.Zip [Sim.Member (Sim.encrypted "sample.exe") "infected" (Sim.Blob "MZ")].

Definition w : Sim.world :=
  {| Sim.files := [("C:\in\sample.zip", protected)]; Sim.tool_script := [] |}.

Definition members : Sim.archive :=
  [Sim.Member (Sim.encrypted "sample.exe") "infected" (Sim.Blob "MZ")].


End PasswordExample.

(** A file that is not an archive under a [.zip] name. *)
Module OpenFailureExample.

Definition w : Sim.world :=
  {| Sim.files := [("C:\in\notes.zip", Sim.Blob "plain text")];
     Sim.tool_script := [] |}.

End OpenFailureExample.

(** Nested members that fail to open. *)
Module NestedExample.

(** An archive holding something that is not an archive under a [.zip]
    name, followed by a sound archive. *)
Definition mixed : Sim.node :=
  Sim.Zip [Sim.Member (Sim.plain "junk.zip") "" (Sim.Blob "junk");
           Sim.Member (Sim.plain "second.zip") "" Sim.sound].

Definition mixed_world : Sim.world :=
  {| Sim.files := [("C:\in\mixed.zip", mixed)]; Sim.tool_script := [] |}.

(** The run of [extract_zip] on it ... *)
Definition mixed_run : state Sim.world Sim.archive * outcome unit :=
  run_in (extract_zip (Sim.env Sim.no_options "")
            "C:\in\mixed.zip" "C:\out" (PwBytes "infected") 1)
         mixed_world.

(** ... and on the archive whose first nested member is locked. *)
Definition outer_run : state Sim.world Sim.archive * outcome unit :=
  run_in (extract_zip (Sim.env Sim.no_options "")
            "C:\in\outer.zip" "C:\out" (PwBytes "infected") 1)
         Sim.outer_world.

(** The members of that archive and of its locked member, and the world
    once the two nested archives have been written out. *)
Definition outer_members : Sim.archive :=
  [Sim.Member (Sim.plain "first.zip") "" Sim.locked;
   Sim.Member (Sim.plain "second.zip") "" Sim.sound].

Definition locked_members : Sim.archive :=
  [Sim.Member (Sim.encrypted "secret.txt") "hunter2" (Sim.Blob "x")].

Definition outer_unpacked : Sim.world :=
  {| Sim.files := [("C:\in\outer.zip", Sim.outer);
                   ("C:\out\first.zip", Sim.locked);
                   ("C:\out\second.zip", Sim.sound)];
     Sim.tool_script := [] |}.

End NestedExample.

(** Files for the dispatcher. *)
Module DispatchExample.

Definition gif_world : Sim.world :=
  {| Sim.files := [("C:\out\lib.dat", Sim.Blob "GIF89a")];
     Sim.tool_script := [] |}.

Definition dll_world : Sim.world :=
  {| Sim.files := [("C:\out\plugin.dll", Sim.Blob "MZ")];
     Sim.tool_script := [] |}.

(** An image file that happens to hold the two letters MZ far from its
    beginning. *)
Definition late_mz : string :=
  "GIF89a"
  +++ "................................................................"
  +++ "................................................................"
  +++ " comment: converted with MZ tools".

Definition late_mz_world : Sim.world :=
  {| Sim.files := [("C:\out\lib.dat", Sim.Blob late_mz)];
     Sim.tool_script := [] |}.

End DispatchExample.

(** Scripts of tool output. *)
Module ToolExample.

(** The pattern of line 129 against some destinations. *)
Definition temp_paths : list (string * bool) :=
  map (fun p => (p, Sim.path_match p "local\temp"))
      ["C:\Users\me\AppData\Local\Temp";
       "C:\Users\me\AppData\Local\Temp\";
       "local\temp"; "C:local/TEMP";
       "C:\Users\me\AppData\xlocal\temp";
       "C:\Users\me\AppData\Local\Temp\out"; "C:\temp"].

(** A wrong-password report, then a clean run. *)
Definition retry_world : Sim.world :=
  {| Sim.files := [];
     Sim.tool_script := [("", "ERROR: Wrong password : a.bin");
                         ("Everything is Ok", "")] |}.

(** Both texts at once on the first run, the not-an-archive text again on
    the second. *)
Definition both_world : Sim.world :=
  {| Sim.files := [];
     Sim.tool_script :=
       [("Can not open the file as archive", "Wrong password");
        ("Can not open the file as archive", "")] |}.

End ToolExample.

(* ================================================================= *)
(** ** Vocabulary of the statements *)

(** The name ends, whatever the case of its letters, in one of the
    extensions. *)
Definition has_interesting_suffix (name : string) : bool :=
  Str.endswith_any (Str.lower name) EXTENSIONS.

Definition ends_with_newline (name : string) : bool :=
  Str.endswith name (String Str.LF EmptyString).

(** The ways of writing the character [c] of an extension that count as
    that character when case is ignored: the character itself, its
    capital, and the characters outside ASCII whose lower-case or
    upper-case form it is, namely U+212A for k, U+017F for s and, under
    [re] only, U+0130 and U+0131 for i. *)
Definition letter_forms (md : Regex.re_module) (c : ascii) : list string :=
  [String c EmptyString; String (Regex.upper_ascii c) EmptyString]
  ++ (if Ascii.eqb c "k" then [Regex.KELVIN_SIGN] else [])
  ++ (if Ascii.eqb c "s" then [Regex.LONG_S] else [])
  ++ match md with
     | Regex.Re =>
         if Ascii.eqb c "i"
         then [Regex.CAPITAL_I_WITH_DOT; Regex.DOTLESS_I] else []
     | Regex.Re2 => []
     end.

(** The ways of writing an extension, character by character. *)
Fixpoint spellings (md : Regex.re_module) (ext : string) : list string :=
  match ext with
  | EmptyString => [EmptyString]
  | String c ext' =>
      flat_map (fun v => map (String.append v) (spellings md ext'))
               (letter_forms md c)
  end.

(** The name ends in one of the extensions, written in one of these
    ways. *)
Definition ends_in_extension (md : Regex.re_module) (name : string) : bool :=
  existsb (fun ext => existsb (Str.endswith name) (spellings md ext))
          EXTENSIONS.

(** Some member of the archive has the encrypted flag set. *)
Definition any_encrypted (infos : list ZipInfo) : bool :=
  existsb (fun i => negb (Z.eqb (Z.land (flag_bits i) 1) 0)) infos.

(** The password the extraction is to use: the default when the archive has
    an encrypted member and the password given is empty, the password
    given otherwise. *)
Definition effective_password (infos : list ZipInfo) (given : string)
  : string :=
  if any_encrypted infos && String.eqb given "" then "infected" else given.

(** A line of the listing is a header line when it has all the column
    words, whatever their case. *)
Definition is_header (line : string) : bool :=
  forallb (fun item => Str.contains (Str.lower item) (Str.lower line))
          HEADER_WORDS.

Definition is_separator (line : string) : bool := Str.contains "-----" line.

(** A member line: the columns, two spaces, the name, a carriage return. *)
Definition member_line (columns name : string) : string :=
  columns +++ "  " +++ name +++ String Str.CR EmptyString.

(** The name sub-pattern of [FILE_NAME_REGEX] accepts the whole of
    [name]. *)
Definition name_ok (name : string) : bool :=
  match Regex.run Regex.Re false NAME_PATTERN name None
          (fun rest _ => if String.eqb rest "" then Some tt else None) with
  | Some _ => true
  | None => false
  end.

Definition no_LF (s : string) : bool := Str.none_of (Ascii.eqb Str.LF) s.
Definition no_CR (s : string) : bool := Str.none_of (Ascii.eqb Str.CR) s.

(** The command lines handed to [subprocess.run], in order. *)
Fixpoint runs_of {Archive} (tr : list (event Archive)) : list (list string) :=
  match tr with
  | [] => []
  | EvRun argv :: tr' => argv :: runs_of tr'
  | _ :: tr' => runs_of tr'
  end.

(** The directory trees removed, in order. *)
Fixpoint rmtrees_of {Archive} (tr : list (event Archive)) : list string :=
  match tr with
  | [] => []
  | EvRmtree p :: tr' => p :: rmtrees_of tr'
  | _ :: tr' => rmtrees_of tr'
  end.

(** The launches made through [Package.execute], in order. *)
Fixpoint launches_of {Archive} (tr : list (event Archive))
  : list (string * option string * string) :=
  match tr with
  | [] => []
  | EvExecute p a t :: tr' => (p, a, t) :: launches_of tr'
  | _ :: tr' => launches_of tr'
  end.

(** The invocations of [extract_zip], in order: path and depth. *)
Fixpoint entries_of {Archive} (tr : list (event Archive))
  : list (string * Z) :=
  match tr with
  | [] => []
  | EvEnter p d :: tr' => (p, d) :: entries_of tr'
  | _ :: tr' => entries_of tr'
  end.

(** A computation [m] only adds events satisfying [P] to the trace, never
    runs out of fuel, and returns values satisfying [Q]. *)
Definition hoare {World Archive T} (m : M World Archive T)
           (P : event Archive -> Prop) (Q : T -> Prop) : Prop :=
  forall st,
    (exists evs, trace (fst (m st)) = trace st ++ evs /\ Forall P evs)
    /\ match snd (m st) with
       | Return v => Q v
       | Raise _ => True
       | OutOfFuel => False
       end.

(** What the events of an [extract_zip] call at depth [d] look like:
    every invocation is at depth [d] or deeper and, unless it is the call
    itself, at depth 4 at most. *)
Definition depth_ok {Archive} (d : Z) (ev : event Archive) : Prop :=
  match ev with
  | EvEnter _ d' => (d <= d')%Z /\ (d' = d \/ (d' <= 4)%Z)
  | EvExtractAll d' _ _ _ => (d <= d')%Z
  | _ => True
  end.

(** The postcondition that asks nothing of the value returned. *)
Definition any_result {T} (_ : T) : Prop := True.

(** What the continuation of the matcher is finally applied to is what a
    word of the language leaves over. *)
Definition sound_at (md : Regex.re_module) (icase : bool) (R : Type)
           (r : Regex.regex)
           (body : string -> option string -> Regex.cont R -> option R)
  : Prop :=
  forall s g (k : Regex.cont R) x,
    body s g k = Some x ->
    exists a b g',
      s = a +++ b /\ Regex.lang md icase r a b /\ k b g' = Some x.

(** The matcher finds a word of the language whenever the continuation
    accepts what the word leaves over. *)
Definition complete_at (md : Regex.re_module) (icase : bool) (R : Type)
           (r : Regex.regex) : Prop :=
  forall a b, Regex.lang md icase r a b ->
  forall g (k : Regex.cont R), (forall g', k b g' <> None) ->
  Regex.run md icase r (a +++ b) g k <> None.

Arguments sound_at md icase R r body : clear implicits.
Arguments complete_at md icase R r : clear implicits.

(** The command line of the external tool for an extraction with the
    password flag [flag]. *)
Definition tool_argv (seven_zip_path flag extract_path archive_path : string)
  : list string :=
  [seven_zip_path; "x"; flag; "-y"; "-o" +++ extract_path; archive_path].

Definition WRONG_PASSWORD : string := "Wrong password".
Definition NOT_AN_ARCHIVE : string := "Can not open the file as archive".

(** No suffix of the first list is a suffix of, or has as a suffix, one of
    the second list: a name cannot end in one of each. *)
Definition disjoint_suffixes (xs ys : list string) : bool :=
  forallb (fun x =>
             forallb (fun y => negb (Str.endswith x y)
                               && negb (Str.endswith y x)) ys) xs.

(** The shape of what [NAME_PATTERN] accepts: the first character is a
    name character ... *)
Definition starts_name (s : string) : bool :=
  match s with
  | String c _ => name_char c
  | EmptyString => false
  end.

(** ... and every character is a name character or a space that a name
    character follows. *)
Fixpoint spaced (s : string) : bool :=
  match s with
  | EmptyString => true
  | String c s' =>
      (name_char c || (Ascii.eqb c " " && starts_name s')) && spaced s'
  end.

(** A pattern without [\s] and [$] accepts the same words under both
    modules, whatever follows. *)
Fixpoint plain (r : Regex.regex) : bool :=
  match r with
  | Regex.Space | Regex.Eos => false
  | Regex.Seq r1 r2 | Regex.Alt r1 r2 => plain r1 && plain r2
  | Regex.Opt r1 | Regex.Plus r1 | Regex.Cap r1 => plain r1
  | _ => true
  end.

(** A name without spaces: one or more name characters. *)
Definition is_word (name : string) : bool :=
  negb (String.eqb name "")
  && Str.none_of (fun c => negb (name_char c)) name.

(** A member line the parser reads the name from: the columns have no
    carriage return and no line feed, the name is accepted by the name
    sub-pattern, and the line has no run of five dashes. *)
Definition member_ok (columns name : string) : bool :=
  no_CR columns && no_LF columns && name_ok name
  && negb (is_separator (member_line columns name)).

(* ================================================================= *)
(** ** Uploading what was extracted *)

(** What [upload_extracted_files] imports beyond [Env]: [hash_file] with
    SHA-256, [upload_to_host] (its [duplicated] flag is always [False])
    and [Path(entry).name]. *)
Record Uplink (World : Type) := {
  hash_file : string -> World -> exn + string;
  upload_to_host : string -> string -> string -> World -> World * (exn + unit);
  Path_name : string -> string
}.

(** Lines 307-313: one entry inside its [try]. *)
Definition upload_entry {World Archive Proc} (E : Env World Archive Proc)
           (U : Uplink World) (root entry : string) : M World Archive unit :=
  try_except
    (let file_path := path_join E root entry in
     log Info "Uploading {0} to host" [file_path];;
     digest <- query (hash_file U file_path);;
     let filename := "files/" +++ digest in
     call (upload_to_host U file_path filename (Path_name U entry)))
    [(Exception,
      fun e =>
        log Warning "Couldn't upload file {} to host {}"
          [Path_name U entry; exn_msg e])].

(** Lines 302-313. *)
Fixpoint upload_extracted_files {World Archive Proc}
         (E : Env World Archive Proc) (U : Uplink World)
         (root : string) (files_at_root : list string)
  : M World Archive unit :=
  match files_at_root with
  | [] => ret tt
  | entry :: rest =>
      upload_entry E U root entry;;
      upload_extracted_files E U root rest
  end.

(* ================================================================= *)
(** ** [extract_zip] taken apart

    The body of [extract_zip] after the entry event, with the [finally]
    block as a parameter, and the [finally] block itself; lemma
    [extract_zip_fuel_eq] below puts them back together. *)

(** Lines 196-230, followed by [finally_block archive password]. *)
Definition extract_zip_rest {World Archive Proc} (E : Env World Archive Proc)
           (finally_block : Archive -> string -> M World Archive unit)
           (zip_path extract_path : string) (password : password_arg)
           (recursion_depth : Z) : M World Archive unit :=
  overwritten <- is_overwritten E zip_path;;
  zip_path <-
    (if overwritten then
       log Debug
         "ZIP file contains a file with the same name, original will be overwritten"
         [];;
       let new_zip_path := zip_path +++ ".old" in
       emit (EvMove zip_path new_zip_path);;
       call (shutil_move E zip_path new_zip_path);;
       ret new_zip_path
     else ret zip_path);;
  let password := to_bytes password in
  archive <- query (ZipFile_open E zip_path);;
  password <- check_encrypted (infolist E archive) password;;
  try_finally
    (extract_members E recursion_depth archive extract_path password)
    (finally_block archive password).

(** Lines 232-247. *)
Definition nested_calls {World Archive Proc} (E : Env World Archive Proc)
           (fuel : nat) (extract_path : string) (recursion_depth : Z)
           (archive : Archive) (password : string) : M World Archive unit :=
  if (recursion_depth <? 4)%Z then
    match fuel with
    | O => out_of_fuel
    | S fuel' =>
        extract_nested
          (fun name =>
             extract_zip_fuel E fuel' (path_join E extract_path name)
               extract_path (PwBytes password) (recursion_depth + 1))
          (namelist E archive)
    end
  else ret tt.

(* ================================================================= *)
(** ** Vocabulary of the further properties *)

(** The member lines of a listing, from (columns, name) pairs. *)
Definition member_lines (members : list (string * string)) : list string :=
  map (fun m => member_line (fst m) (snd m)) members.

(** What a parsed name looks like: it starts with a name character and is
    made of name characters and of spaces that a name character
    follows. *)
Definition well_formed_name (g : option string) : Prop :=
  exists n, g = Some n /\ starts_name n = true /\ spaced n = true.

(** The string without its last character. *)
Fixpoint chop_last (s : string) : string :=
  match s with
  | EmptyString => EmptyString
  | String c EmptyString => EmptyString
  | String c s' => String c (chop_last s')
  end.

(** The names the standard [re] module keeps: an extension at the end, or
    an extension and then one line feed. *)
Definition kept_by_re (name : string) : bool :=
  ends_in_extension Regex.Re name
  || (ends_with_newline name
      && ends_in_extension Regex.Re (chop_last name)).

Definition is_log {Archive} (ev : event Archive) : Prop :=
  match ev with EvLog _ _ _ => True | _ => False end.

Definition no_enter {Archive} (ev : event Archive) : Prop :=
  match ev with EvEnter _ _ => False | _ => True end.

Definition no_launch {Archive} (ev : event Archive) : Prop :=
  match ev with EvExecute _ _ _ => False | _ => True end.

(** An extraction, at any depth, uses the password [pwd]. *)
Definition uses_password {Archive} (pwd : string) (ev : event Archive)
  : Prop :=
  match ev with EvExtractAll _ _ _ p => p = pwd | _ => True end.

(** A move renames a file to its own name followed by [.old]. *)
Definition moves_to_old {Archive} (ev : event Archive) : Prop :=
  match ev with EvMove src dst => dst = src +++ ".old" | _ => True end.

(** The passwords of the extractions made, in order. *)
Fixpoint extractions_of {Archive} (tr : list (event Archive)) : list string :=
  match tr with
  | [] => []
  | EvExtractAll _ _ _ p :: tr' => p :: extractions_of tr'
  | _ :: tr' => extractions_of tr'
  end.

(** The arguments of the records logged at level [Info], in order. *)
Fixpoint info_logs_of {Archive} (tr : list (event Archive))
  : list (list string) :=
  match tr with
  | [] => []
  | EvLog Info _ args :: tr' => args :: info_logs_of tr'
  | _ :: tr' => info_logs_of tr'
  end.

(** The number of records logged at level [Warning]. *)
Fixpoint warnings_of {Archive} (tr : list (event Archive)) : nat :=
  match tr with
  | [] => 0
  | EvLog Warning _ _ :: tr' => S (warnings_of tr')
  | _ :: tr' => warnings_of tr'
  end.

(** A dispatch launches at most once.  Without a launch it returns [None]
    or raises; a launch is the last thing it does, so that the value
    returned or the exception raised, and the world left behind, are those
    of the call of [execute], made in some world [w0]. *)
Definition launches_once {World Archive Proc} (E : Env World Archive Proc)
           (m : M World Archive (option Proc)) : Prop :=
  forall st,
    exists evs,
      trace (fst (m st)) = trace st ++ evs
      /\ ((launches_of evs = []
           /\ (snd (m st) = Return None \/ exists e, snd (m st) = Raise e))
          \/ exists path args target w0,
               launches_of evs = [(path, args, target)]
               /\ world (fst (m st)) = fst (execute E path args target w0)
               /\ snd (m st)
                  = match snd (execute E path args target w0) with
                    | inr r => Return r
                    | inl e => Raise e
                    end).

(** The command line of line 58: change to [root], then run the script
    host on [file_path]. *)
Definition script_args (root wscript file_path : string) : string :=
  "/c " +++ DQ +++ "cd ^" +++ DQ +++ root +++ "^" +++ DQ +++ " && "
  +++ wscript +++ " ^" +++ DQ +++ file_path +++ "^" +++ DQ.

(** The argument string of lines 75-77. *)
Definition dll_arguments (file_path function : string)
           (arguments : option string) : string :=
  let dll_args := DQ +++ file_path +++ DQ +++ "," +++ function in
  match arguments with
  | Some a => if String.eqb a "" then dll_args else dll_args +++ " " +++ a
  | None => dll_args
  end.

(** Worlds and options for the examples. *)
Module MoreExamples.

(** An archive that holds a member named like itself. *)
Definition selfish : Sim.node :=
  Sim.Zip [Sim.Member (Sim.plain "selfish.zip") "" (Sim.Blob "payload")].

Definition selfish_world : Sim.world :=
  {| Sim.files := [("C:\in\selfish.zip", selfish)]; Sim.tool_script := [] |}.

(** A library that is not a COM server, with a loader name given. *)
Definition loader_options (key : string) : option string :=
  if String.eqb key "dllloader" then Some "svchost.exe"
  else if String.eqb key "arguments" then Some "/s"
  else None.

Definition loader_world : Sim.world :=
  {| Sim.files := [("C:\out\plugin.dll", Sim.Blob "MZ");
                   ("C:\Windows\System32\rundll32.exe", Sim.Blob "MZ")];
     Sim.tool_script := [] |}.

(** The same after the loader has been copied. *)
Definition loader_copied : Sim.world :=
  fst (Sim.copy "C:\Windows\System32\rundll32.exe"
                "C:\Windows\System32\svchost.exe" loader_world).

(** An archive with a nested archive ahead of a member that needs a
    password nobody has: its own extraction fails after the nested archive
    has been written out. *)
Definition locked_parent_members : Sim.archive :=
  [Sim.Member (Sim.plain "readme.txt") "" (Sim.Blob "hello");
   Sim.Member (Sim.plain "inner.zip") "" Sim.sound;
   Sim.Member (Sim.encrypted "secret.bin") "hunter2" (Sim.Blob "x")].

Definition locked_parent_world : Sim.world :=
  {| Sim.files := [("C:\in\mixed.zip", Sim.Zip locked_parent_members)];
     Sim.tool_script := [] |}.

(** A data file carrying the DOS-mode text without the MZ signature. *)
Definition dos_text_world : Sim.world :=
  {| Sim.files :=
       [("C:\out\cache.tmp",
         Sim.Blob "This program cannot be run in DOS mode")];
     Sim.tool_script := [] |}.

Definition script_world : Sim.world :=
  {| Sim.files := [("C:\out\payload.JS", Sim.Blob "WScript.Echo(1)")];
     Sim.tool_script := [] |}.

(** A host without the word processor but with its viewer. *)
Definition viewer_only (app : string) (w : Sim.world) : exn + string :=
  if String.eqb app "WINWORD.EXE"
  then inl (mkExn CuckooPackageError "Unable to find any WINWORD.EXE")
  else inr ("C:\Program Files\Office\" +++ app).

Definition viewer_env : Env Sim.world Sim.archive nat :=
  {| ZipFile_open := Sim.zip_open;
     infolist := map Sim.member_info;
     zip_extractall := zip_extractall (Sim.env Sim.no_options "");
     shutil_move := Sim.move;
     shutil_copy := Sim.copy;
     shutil_rmtree := Sim.rmtree;
     path_join := Sim.join;
     path_basename := Sim.basename;
     path_dirname := Sim.dirname;
     Path_match := Path_match (Sim.env Sim.no_options "");
     subprocess_run := Sim.run_tool;
     bytes_decode := Sim.decode;
     read_file := Sim.read;
     get_path := Sim.system32;
     get_path_app_in_path := Sim.system32;
     get_path_glob := viewer_only;
     options := Sim.no_options;
     execute := fun _ _ _ w => (w, inr (Some 1));
     choose_dll_export := fun _ _ => inr "";
     is_pe_image := is_pe_image (Sim.env Sim.no_options "");
     check_file_extension := check_file_extension (Sim.env Sim.no_options "")
  |}.

Definition doc_world : Sim.world :=
  {| Sim.files := [("C:\out\invoice.doc", Sim.Blob "doc")];
     Sim.tool_script := [] |}.

(** A listing with no table in it. *)
(** A report in the Latin-1 encoding: the byte 233 is no UTF-8. *)
Definition latin1_report : string :=
  "Listing archive: r" +++ Str.bytes [233] +++ "sum" +++ Str.bytes [233]
  +++ ".7z" +++ String Str.CR "".

Definition latin1_world : Sim.world :=
  {| Sim.files := []; Sim.tool_script := [(latin1_report, "")] |}.

Definition no_table_world : Sim.world :=
  {| Sim.files := [];
     Sim.tool_script := [("ERROR: C:\in\a.7z" +++ String Str.CR "", "")] |}.

(** A listing of three members. *)
Definition three_members : list (string * string) :=
  [(ListingExample.columns, "a.exe");
   (ListingExample.columns, "sub\b.dll");
   (ListingExample.columns, "read me.txt")].

Definition three_world : Sim.world :=
  {| Sim.files := [];
     Sim.tool_script :=
       [(Str.join_lines
           ([""] ++ [ListingExample.header; ListingExample.separator]
                 ++ member_lines three_members
                 ++ [ListingExample.separator]
                 ++ [ListingExample.summary]),
         "")] |}.

(** An uplink that cannot hash one of the files. *)
Definition uplink : Uplink Sim.world :=
  {| hash_file := fun p w =>
       match Sim.read p w with
       | inr c => inr ("sha256-of-" +++ c)
       | inl e => inl e
       end;
     upload_to_host := fun p dest meta w => (w, inr tt);
     Path_name := Sim.basename |}.

End MoreExamples.

(* ================================================================= *)
(** ** Strings: lemmas *)

Module StrFacts.
Import Str.

Lemma append_nil_r (s : string) : s +++ "" = s.
Proof. induction s; simpl; congruence. Qed.

Lemma append_assoc (a b c : string) : (a +++ b) +++ c = a +++ b +++ c.
Proof. induction a; simpl; congruence. Qed.

Lemma length_append (a b : string) :
  String.length (a +++ b) = String.length a + String.length b.
Proof. induction a; simpl; congruence. Qed.

Lemma append_inv_head (p a b : string) : p +++ a = p +++ b -> a = b.
Proof. induction p; simpl; intros H; [assumption | inversion H; auto]. Qed.

Lemma append_same_length (a b c d : string) :
  a +++ b = c +++ d -> String.length a = String.length c -> a = c /\ b = d.
Proof.
  revert c. induction a as [|x a IH]; intros [|y c]; simpl; intros H L;
    try discriminate.
  - auto.
  - inversion H; subst. inversion L as [L']. destruct (IH _ H2 L'); subst; auto.
Qed.

Lemma startswith_spec (s p : string) :
  startswith s p = true <-> exists r, s = p +++ r.
Proof.
  revert s. induction p as [|a p IH]; intros s; simpl.
  - split; [exists s; reflexivity | reflexivity].
  - destruct s as [|b s].
    + split; [discriminate | intros [r H]; discriminate].
    + rewrite andb_true_iff, Ascii.eqb_eq, IH. split.
      * intros [-> [r ->]]. exists r. reflexivity.
      * intros [r H]. inversion H; subst. split; [reflexivity | eauto].
Qed.

Lemma endswith_spec (s suf : string) :
  endswith s suf = true <-> exists p, s = p +++ suf.
Proof.
  induction s as [|c s IH]; cbn [endswith].
  - rewrite orb_false_r, String.eqb_eq. split.
    + intros <-. exists "". reflexivity.
    + intros [[|x p] H]; simpl in H; [auto | discriminate].
  - rewrite orb_true_iff, String.eqb_eq, IH. split.
    + intros [<- | [p ->]]; [exists "" | exists (String c p)]; reflexivity.
    + intros [[|x p] H]; simpl in H.
      * left. auto.
      * inversion H; subst. right. eauto.
Qed.

Lemma contains_spec (needle hay : string) :
  contains needle hay = true <-> exists p r, hay = p +++ needle +++ r.
Proof.
  induction hay as [|c hay IH]; cbn [contains].
  - rewrite orb_false_r, startswith_spec. split.
    + intros [r H]. exists "", r. assumption.
    + intros [[|x p] [r H]]; simpl in H; [eauto | discriminate].
  - rewrite orb_true_iff, startswith_spec, IH. split.
    + intros [[r H] | [p [r ->]]].
      * exists "", r. assumption.
      * exists (String c p), r. reflexivity.
    + intros [[|x p] [r H]]; simpl in H.
      * left. eauto.
      * inversion H; subst. right. eauto.
Qed.

Lemma strip_spec (p s r : string) : strip p s = Some r <-> s = p +++ r.
Proof.
  revert s. induction p as [|a p IH]; intros s; cbn [strip append].
  - split; [intros H; inversion H; reflexivity | intros ->; reflexivity].
  - destruct s as [|b s]; [split; discriminate|].
    destruct (Ascii.eqb a b) eqn:E.
    + apply Ascii.eqb_eq in E. subst b. rewrite IH. split.
      * intros ->. reflexivity.
      * intros H. inversion H. reflexivity.
    + split; [discriminate|]. intros H. inversion H; subst.
      rewrite Ascii.eqb_refl in E. discriminate.
Qed.

Lemma strip_append (p r : string) : strip p (p +++ r) = Some r.
Proof. apply strip_spec. reflexivity. Qed.

(** Two ways of cutting one string: one of the tails is a tail of the
    other. *)
Lemma two_suffixes (p q a b : string) :
  p +++ a = q +++ b -> (exists r, a = r +++ b) \/ (exists r, b = r +++ a).
Proof.
  revert q. induction p as [|c p IH]; intros [|d q]; cbn [append]; intros H.
  - left. exists "". assumption.
  - left. exists (String d q). assumption.
  - right. exists (String c p). symmetry. assumption.
  - inversion H. eauto.
Qed.

Lemma append_inv_tail (a b t : string) : a +++ t = b +++ t -> a = b.
Proof.
  revert b. induction a as [|x a IH]; intros [|y b]; cbn [append]; intros H.
  - reflexivity.
  - exfalso. assert (L := f_equal String.length H).
    cbn [String.length] in L. rewrite length_append in L. lia.
  - exfalso. assert (L := f_equal String.length H).
    cbn [String.length] in L. rewrite length_append in L. lia.
  - inversion H; subst. f_equal. apply IH. assumption.
Qed.

(** The four ways [lower] goes on. *)
Lemma lower_cases (s : string) :
  s = ""
  \/ (exists s2,
        s = String (ascii_of_nat 196) (String (ascii_of_nat 176) s2)
        /\ lower s = String "i" (String (ascii_of_nat 204)
                                   (String (ascii_of_nat 135) (lower s2))))
  \/ (exists s3,
        s = String (ascii_of_nat 226)
              (String (ascii_of_nat 132) (String (ascii_of_nat 170) s3))
        /\ lower s = String "k" (lower s3))
  \/ (exists c s1, s = String c s1
                   /\ lower s = String (lower_ascii c) (lower s1)).
Proof.
  destruct s as [|c [|c1 s2]]; [left; reflexivity | |].
  - right. right. right. exists c, "". split; reflexivity.
  - cbn [lower].
    destruct (Ascii.eqb c (ascii_of_nat 196) && Ascii.eqb c1 (ascii_of_nat 176))
      eqn:E1.
    + apply andb_true_iff in E1 as [Ea Eb].
      apply Ascii.eqb_eq in Ea. apply Ascii.eqb_eq in Eb. subst.
      right. left. exists s2. split; reflexivity.
    + destruct s2 as [|c2 s3].
      * right. right. right. exists c, (String c1 ""). split; reflexivity.
      * destruct (Ascii.eqb c (ascii_of_nat 226)
                  && Ascii.eqb c1 (ascii_of_nat 132)
                  && Ascii.eqb c2 (ascii_of_nat 170)) eqn:E2.
        -- apply andb_true_iff in E2 as [E2 Ec].
           apply andb_true_iff in E2 as [Ea Eb].
           apply Ascii.eqb_eq in Ea. apply Ascii.eqb_eq in Eb.
           apply Ascii.eqb_eq in Ec. subst.
           right. right. left. exists s3. split; reflexivity.
        -- right. right. right. exists c, (String c1 (String c2 s3)).
           split; reflexivity.
Qed.

(** An ASCII text at the end of the lowered string is the lowering of
    what ends the string. *)
Lemma lower_tail (f x e : string) :
  none_of (fun c => negb (is_plain c)) e = true ->
  lower f = x +++ e -> exists p q, f = p +++ q /\ lower q = e.
Proof.
  intros He. remember (String.length f) as n eqn:En. revert f x En.
  induction n as [n IH] using lt_wf_ind. intros f x En H.
  destruct e as [|e0 e'].
  { exists f, "". rewrite append_nil_r. auto. }
  cbn [none_of] in He. apply andb_true_iff in He as [He0 He'].
  apply negb_true_iff, negb_false_iff in He0.
  destruct (lower_cases f)
    as [-> | [[s2 [-> Hl]] | [[s3 [-> Hl]] | [c [s1 [-> Hl]]]]]].
  - destruct x; discriminate.
  - rewrite Hl in H.
    destruct x as [|a [|b [|d x']]]; cbn [append] in H; inversion H; subst;
      try (vm_compute in He0; discriminate).
    destruct (IH (String.length s2) ltac:(cbn [String.length]; lia)
                  s2 x' eq_refl H4) as [p [q [-> Hq]]].
    exists (String (ascii_of_nat 196) (String (ascii_of_nat 176) p)), q.
    split; [reflexivity | exact Hq].
  - rewrite Hl in H. destruct x as [|a x']; cbn [append] in H.
    + eexists "", _. split; [reflexivity|]. rewrite Hl. exact H.
    + inversion H; subst.
      destruct (IH (String.length s3) ltac:(cbn [String.length]; lia)
                  s3 x' eq_refl H2) as [p [q [-> Hq]]].
      exists (String (ascii_of_nat 226)
                (String (ascii_of_nat 132) (String (ascii_of_nat 170) p))), q.
      split; [reflexivity | exact Hq].
  - rewrite Hl in H. destruct x as [|a x']; cbn [append] in H.
    + eexists "", _. split; [reflexivity|]. rewrite Hl. exact H.
    + inversion H; subst.
      destruct (IH (String.length s1) ltac:(cbn [String.length]; lia)
                  s1 x' eq_refl H2) as [p [q [-> Hq]]].
      exists (String c p), q. split; [reflexivity | exact Hq].
Qed.

Lemma none_of_append (f : ascii -> bool) (a b : string) :
  none_of f (a +++ b) = none_of f a && none_of f b.
Proof.
  induction a as [|c a IH]; simpl; [reflexivity|].
  rewrite IH, andb_assoc. reflexivity.
Qed.

(** Two ways of cutting a string at a character that neither head
    contains agree. *)
Lemma cut_unique (c : ascii) (u u' v v' : string) :
  none_of (Ascii.eqb c) u = true -> none_of (Ascii.eqb c) u' = true ->
  u +++ String c v = u' +++ String c v' -> u = u' /\ v = v'.
Proof.
  revert u'. induction u as [|x u IH]; intros [|y u'];
    cbn [none_of append]; intros Hu Hu' H.
  - inversion H. auto.
  - inversion H; subst. rewrite Ascii.eqb_refl in Hu'. discriminate.
  - inversion H; subst. rewrite Ascii.eqb_refl in Hu. discriminate.
  - inversion H; subst.
    apply andb_true_iff in Hu as [_ Hu]. apply andb_true_iff in Hu' as [_ Hu'].
    destruct (IH _ Hu Hu' H2); subst; auto.
Qed.

Lemma split_lines_line (l rest : string) :
  none_of (Ascii.eqb LF) l = true ->
  split_lines (l +++ String LF rest) = l :: split_lines rest.
Proof.
  induction l as [|c l IH]; cbn [none_of split_lines append]; intros H.
  - rewrite Ascii.eqb_refl. reflexivity.
  - apply andb_true_iff in H as [Hc Hl].
    rewrite Ascii.eqb_sym in Hc. apply negb_true_iff in Hc. rewrite Hc.
    rewrite (IH Hl). reflexivity.
Qed.

Lemma split_lines_last (l : string) :
  none_of (Ascii.eqb LF) l = true -> split_lines l = [l].
Proof.
  induction l as [|c l IH]; cbn [none_of split_lines]; intros H;
    [reflexivity|].
  apply andb_true_iff in H as [Hc Hl].
  rewrite Ascii.eqb_sym in Hc. apply negb_true_iff in Hc. rewrite Hc.
  rewrite (IH Hl). reflexivity.
Qed.

(** Splitting undoes joining when no line has a line feed. *)
Lemma split_join_lines (ls : list string) :
  ls <> [] -> forallb (none_of (Ascii.eqb LF)) ls = true ->
  split_lines (join_lines ls) = ls.
Proof.
  induction ls as [|l ls IH]; intros Hne H; [congruence|].
  simpl in H. apply andb_true_iff in H as [Hl Hls].
  destruct ls as [|l' ls].
  - simpl. apply split_lines_last. assumption.
  - change (join_lines (l :: l' :: ls))
      with (l +++ String LF (join_lines (l' :: ls))).
    rewrite split_lines_line by assumption.
    rewrite IH; [reflexivity | discriminate | assumption].
Qed.

End StrFacts.

(* ================================================================= *)
(** ** The matcher against the language of a pattern *)

Module RegexFacts.
Import Regex StrFacts.

Lemma orelse_some {A} (x y : option A) (v : A) :
  orelse x y = Some v -> x = Some v \/ y = Some v.
Proof. destruct x; simpl; auto. Qed.

Lemma orelse_left {A} (x y : option A) : x <> None -> orelse x y <> None.
Proof. destruct x; simpl; congruence. Qed.

Lemma orelse_right {A} (x y : option A) : y <> None -> orelse x y <> None.
Proof. destruct x; simpl; congruence. Qed.

Lemma consumed_append (a b : string) : consumed (a +++ b) b = a.
Proof.
  unfold consumed. rewrite length_append.
  replace (String.length a + String.length b - String.length b)
    with (String.length a) by lia.
  induction a as [|c a IH]; simpl.
  - destruct b; reflexivity.
  - rewrite IH. reflexivity.
Qed.

Lemma one_of_sound {R} (vs : list string) (s : string)
      (k : string -> option R) (x : R) :
  one_of vs s k = Some x ->
  exists v s', In v vs /\ s = v +++ s' /\ k s' = Some x.
Proof.
  induction vs as [|v vs IH]; cbn [one_of]; intros H; [discriminate|].
  apply orelse_some in H as [H | H].
  - destruct (Str.strip v s) as [s'|] eqn:E; [|discriminate].
    apply strip_spec in E. exists v, s'. split; [left; reflexivity | auto].
  - apply IH in H as [v' [s' [Hin H]]]. exists v', s'.
    split; [right; assumption | assumption].
Qed.

Lemma one_of_complete {R} (vs : list string) (v b : string)
      (k : string -> option R) :
  In v vs -> k b <> None -> one_of vs (v +++ b) k <> None.
Proof.
  induction vs as [|v' vs IH]; intros Hin Hk; [destruct Hin|].
  cbn [one_of]. destruct Hin as [-> | Hin].
  - apply orelse_left. rewrite strip_append. assumption.
  - apply orelse_right. apply IH; assumption.
Qed.

Section Soundness.
Variable md : re_module.
Variable icase : bool.
Variable R : Type.


Lemma plus_loop_sound (r : regex) :
  sound_at md icase R r (run md icase r) ->
  forall fuel,
    sound_at md icase R (Plus r) (plus_loop (run md icase r) fuel).
Proof.
  intros Hr fuel. induction fuel as [|fuel IH]; intros s g k x H;
    simpl in H; [discriminate|].
  apply Hr in H as [a1 [b1 [g1 [-> [La H]]]]].
  apply orelse_some in H as [H | H].
  - destruct (String.length b1 <? String.length (a1 +++ b1));
      [|discriminate].
    apply IH in H as [a2 [b [g' [-> [Lb H]]]]].
    exists (a1 +++ a2), b, g'. rewrite append_assoc.
    split; [reflexivity|]. split; [|assumption].
    apply L_PlusMore; assumption.
  - exists a1, b1, g1. split; [reflexivity|]. split; [|assumption].
    apply L_PlusOne. assumption.
Qed.

Lemma run_sound (r : regex) : sound_at md icase R r (run md icase r).
Proof.
  induction r as [ |c|p| |r1 IH1 r2 IH2|r1 IH1 r2 IH2|r IH|r IH|r IH| ];
    intros s g k x H; cbn [run] in H.
  - exists "", s, g. repeat split; [constructor | assumption].
  - apply one_of_sound in H as [v [s' [Hin [-> H]]]].
    exists v, s', g. repeat split; [constructor|]; assumption.
  - destruct s as [|y s]; [discriminate|].
    destruct (p y) eqn:Hc; [|discriminate].
    exists (String y ""), s, g. repeat split; [constructor|]; assumption.
  - apply one_of_sound in H as [v [s' [Hin [-> H]]]].
    exists v, s', g. repeat split; [constructor|]; assumption.
  - apply IH1 in H as [a1 [b1 [g1 [-> [L1 H]]]]].
    apply IH2 in H as [a2 [b [g' [-> [L2 H]]]]].
    exists (a1 +++ a2), b, g'. rewrite append_assoc.
    repeat split; [constructor|]; assumption.
  - apply orelse_some in H as [H | H].
    + apply IH1 in H as [a [b [g' [-> [L H]]]]].
      exists a, b, g'. repeat split; [apply L_AltL|]; assumption.
    + apply IH2 in H as [a [b [g' [-> [L H]]]]].
      exists a, b, g'. repeat split; [apply L_AltR|]; assumption.
  - apply orelse_some in H as [H | H].
    + apply IH in H as [a [b [g' [-> [L H]]]]].
      exists a, b, g'. repeat split; [apply L_OptSome|]; assumption.
    + exists "", s, g. repeat split; [apply L_OptNone | assumption].
  - eapply plus_loop_sound; eassumption.
  - apply IH in H as [a [b [g' [-> [L H]]]]].
    exists a, b, (Some (consumed (a +++ b) b)).
    repeat split; [apply L_Cap|]; assumption.
  - destruct (at_end md s) eqn:He; [|discriminate].
    exists "", s, g. repeat split; [constructor|]; assumption.
Qed.


Lemma plus_loop_complete (r : regex) :
  complete_at md icase R r ->
  forall a b, lang md icase (Plus r) a b ->
  forall fuel g (k : cont R),
    String.length (a +++ b) < fuel -> (forall g', k b g' <> None) ->
    plus_loop (run md icase r) fuel (a +++ b) g k <> None.
Proof.
  intros Hr a b L. remember (Plus r) as pr eqn:Epr.
  induction L; try discriminate; inversion Epr; subst;
    intros fuel g k Hf Hk.
  - destruct fuel as [|fuel]; [lia|]. cbn [plus_loop].
    apply Hr; [assumption|]. intros g'. apply orelse_right, Hk.
  - destruct a1 as [|c a1].
    + simpl. apply IHL2; auto.
    + destruct fuel as [|fuel]; [lia|]. cbn [plus_loop].
      rewrite append_assoc. apply Hr; [assumption|]. intros g'.
      apply orelse_left.
      rewrite append_assoc in Hf. cbn [append String.length] in *.
      rewrite length_append in Hf.
      replace (String.length (a2 +++ b)
               <? S (String.length (a1 +++ a2 +++ b))) with true.
      * apply IHL2; [reflexivity | | assumption]. lia.
      * symmetry. apply Nat.ltb_lt.
        rewrite (length_append a1 (a2 +++ b)). lia.
Qed.

Lemma run_complete (r : regex) : complete_at md icase R r.
Proof.
  induction r as [ |c|p| |r1 IH1 r2 IH2|r1 IH1 r2 IH2|r IH|r IH|r IH| ];
    intros a b L g k Hk; inversion L; subst; cbn [run append];
    try match goal with H : _ = true |- _ => rewrite H end.
  - apply Hk.
  - apply one_of_complete; [assumption | apply Hk].
  - apply Hk.
  - apply one_of_complete; [assumption | apply Hk].
  - rewrite append_assoc. apply IH1; [assumption|].
    intros g'. apply IH2; assumption.
  - apply orelse_left. apply IH1; assumption.
  - apply orelse_right. apply IH2; assumption.
  - apply orelse_right. apply Hk.
  - apply orelse_left. apply IH; assumption.
  - apply plus_loop_complete; auto.
  - apply plus_loop_complete; auto.
  - apply IH; [assumption|]. intros g'. apply Hk.
  - apply Hk.
Qed.

End Soundness.

Lemma lang_seq_inv md icase r1 r2 a b :
  lang md icase (Seq r1 r2) a b ->
  exists a1 a2, a = a1 +++ a2 /\ lang md icase r1 a1 (a2 +++ b)
                /\ lang md icase r2 a2 b.
Proof. intros L. inversion L; subst. eauto. Qed.

Lemma lang_cap_inv md icase r a b :
  lang md icase (Cap r) a b -> lang md icase r a b.
Proof. intros L. inversion L; subst. assumption. Qed.

Lemma lang_eos_inv md icase a b :
  lang md icase Eos a b -> a = "" /\ at_end md b = true.
Proof. intros L. inversion L; subst. auto. Qed.

Lemma lang_opt_inv md icase r a b :
  lang md icase (Opt r) a b -> a = "" \/ lang md icase r a b.
Proof. intros L. inversion L; subst; auto. Qed.

Lemma lang_char_inv md icase r a b :
  lang md icase r a b ->
  match r with
  | Lit c => In a (variants md icase c)
  | Cls p => exists x, a = String x "" /\ p x = true
  | Space => In a (white_space md)
  | _ => True
  end.
Proof. intros L. destruct L; eauto. Qed.

(** A property of the words of the body that concatenation preserves holds
    of the words of [r+]. *)
Lemma lang_plus_ind md icase r (P : string -> Prop) :
  (forall a b, lang md icase r a b -> P a) ->
  (forall x y, P x -> P y -> P (x +++ y)) ->
  forall a b, lang md icase (Plus r) a b -> P a.
Proof.
  intros Hbody Hcat a b L. remember (Plus r) as pr eqn:E.
  induction L; try discriminate; inversion E; subst; eauto.
Qed.

(** [search] succeeds exactly when the matcher succeeds at some start. *)
Lemma search_some md icase r s g :
  search md icase r s = Some g ->
  exists p s', s = p +++ s'
               /\ run md icase r s' None (fun _ g => Some g) = Some g.
Proof.
  induction s as [|c s IH]; cbn [search]; intros H.
  - destruct (run md icase r "" None _) eqn:E; [|discriminate].
    exists "", "". inversion H; subst. auto.
  - destruct (run md icase r (String c s) None _) eqn:E.
    + inversion H; subst. exists "", (String c s). auto.
    + apply IH in H as [p [s' [-> H]]]. exists (String c p), s'. auto.
Qed.

Lemma search_here md icase r s :
  run md icase r s None (fun _ g => Some g) <> None ->
  search md icase r s <> None.
Proof.
  intros H. destruct s; cbn [search];
    destruct (run md icase r _ None (fun _ g => Some g)) eqn:E;
    solve [discriminate | exfalso; apply H; reflexivity].
Qed.

Lemma search_complete md icase r p s :
  run md icase r s None (fun _ g => Some g) <> None ->
  search md icase r (p +++ s) <> None.
Proof.
  intros H. induction p as [|c p IH]; cbn [append].
  - apply search_here. assumption.
  - cbn [search].
    destruct (run md icase r (String c (p +++ s)) None (fun _ g => Some g));
      [discriminate | assumption].
Qed.

(** Start positions at which the matcher fails are passed over. *)
Lemma search_skip md icase r p s :
  (forall p1 p2, p = p1 +++ p2 -> p2 <> "" ->
     run md icase r (p2 +++ s) None (fun _ g => Some g) = None) ->
  search md icase r (p +++ s) = search md icase r s.
Proof.
  induction p as [|c p IH]; intros H; [reflexivity|].
  assert (H0 := H "" (String c p) eq_refl).
  cbn [append] in H0. cbn [append search].
  rewrite H0 by discriminate.
  apply IH. intros p1 p2 -> Hne. apply (H (String c p1) p2); auto.
Qed.

End RegexFacts.

(* ================================================================= *)
(** ** File classifier *)

Module Classifier.
Import Regex Str StrFacts RegexFacts.

Lemma lower_not_upper (c : ascii) : is_upper c = false -> lower_ascii c = c.
Proof. unfold lower_ascii. intros ->. reflexivity. Qed.

Lemma not_lower_letter (c x : ascii) :
  is_lower c = false -> is_lower x = true -> Ascii.eqb c x = false.
Proof.
  intros Hc Hx. destruct (Ascii.eqb c x) eqn:E; [|reflexivity].
  apply Ascii.eqb_eq in E. subst. congruence.
Qed.

(** The matcher's characters for a literal of an extension are the forms
    of that letter. *)
Lemma variants_forms md (c : ascii) (v : string) :
  is_upper c = false ->
  In v (variants md true c) <-> In v (letter_forms md c).
Proof.
  intros Hu. unfold variants, letter_forms, folded_forms.
  rewrite (lower_not_upper _ Hu).
  destruct (is_lower c) eqn:Hl.
  - destruct (Ascii.eqb c "k") eqn:Ek.
    + apply Ascii.eqb_eq in Ek. subst c. destruct md; cbn; tauto.
    + destruct (Ascii.eqb c "s") eqn:Es.
      * apply Ascii.eqb_eq in Es. subst c. destruct md; cbn; tauto.
      * destruct (Ascii.eqb c "i") eqn:Ei; destruct md; cbn; tauto.
  - rewrite !(not_lower_letter _ _ Hl) by reflexivity.
    unfold upper_ascii. rewrite Hl. destruct md; cbn; tauto.
Qed.

(** What a literal extension accepts when case is ignored. *)
Lemma lang_lits md (e a b : string) :
  none_of is_upper e = true ->
  lang md true (lits e) a b <-> In a (spellings md e).
Proof.
  intros He. split.
  - revert a b. induction e as [|c e IH]; intros a b L; cbn [lits] in L.
    + inversion L. left. reflexivity.
    + cbn [none_of] in He. apply andb_true_iff in He as [Hc He].
      apply negb_true_iff in Hc.
      apply lang_seq_inv in L as [a1 [a2 [-> [L1 L2]]]].
      apply lang_char_inv in L1. cbn [spellings].
      apply in_flat_map. exists a1. split.
      * apply variants_forms; assumption.
      * apply in_map. apply (IH He _ _ L2).
  - revert a b. induction e as [|c e IH]; intros a b H; cbn [spellings] in H.
    + destruct H as [<- | []]. constructor.
    + cbn [none_of] in He. apply andb_true_iff in He as [Hc He].
      apply negb_true_iff in Hc.
      apply in_flat_map in H as [v [Hv H]].
      apply in_map_iff in H as [t [<- Ht]].
      cbn [lits]. constructor.
      * constructor. apply variants_forms; assumption.
      * apply IH; assumption.
Qed.

Lemma lang_alts md icase (rs : list regex) (a b : string) :
  lang md icase (alts rs) a b <-> exists r, In r rs /\ lang md icase r a b.
Proof.
  induction rs as [|r rs IH].
  - cbn [alts]. split.
    + intros L. inversion L. discriminate.
    + intros [r [[] _]].
  - destruct rs as [|r' rs].
    + cbn [alts]. split.
      * intros L. exists r. split; [left; reflexivity | assumption].
      * intros [r0 [[<- | []] L]]. assumption.
    + change (alts (r :: r' :: rs)) with (Alt r (alts (r' :: rs))). split.
      * intros L. inversion L; subst.
        -- exists r. split; [left; reflexivity | assumption].
        -- apply IH in H3 as [r0 [Hin L0]]. exists r0. split;
             [right; assumption | assumption].
      * intros [r0 [[<- | Hin] L]].
        -- apply L_AltL. assumption.
        -- apply L_AltR. apply IH. exists r0. auto.
Qed.

Lemma extensions_plain (e : string) :
  In e EXTENSIONS -> none_of is_upper e = true.
Proof.
  intros H. unfold EXTENSIONS in H. simpl in H.
  repeat (destruct H as [<- | H]; [reflexivity|]). destruct H.
Qed.

(** What [EXE_REGEX] accepts: an extension in one of its spellings, at
    the end. *)
Lemma lang_exe_regex md (a b : string) :
  lang md true EXE_REGEX a b <->
  (exists e, In e EXTENSIONS /\ In a (spellings md e))
  /\ at_end md b = true.
Proof.
  unfold EXE_REGEX. split.
  - intros L. apply lang_seq_inv in L as [a1 [a2 [-> [L1 L2]]]].
    apply lang_eos_inv in L2 as [-> Hb]. apply lang_cap_inv in L1.
    rewrite append_nil_r. split; [|assumption].
    apply lang_alts in L1 as [r [Hin Lr]].
    apply in_map_iff in Hin as [e [<- Hin]].
    exists e. split; [assumption|].
    apply (@lang_lits md e a1 b (@extensions_plain e Hin)). assumption.
  - intros [[e [Hin He]] Hb].
    rewrite <- (append_nil_r a). constructor; [|constructor; assumption].
    constructor. apply lang_alts. exists (lits e). split.
    + apply in_map. assumption.
    + apply lang_lits; [apply extensions_plain|]; assumption.
Qed.

Lemma at_end_cases md (b : string) :
  at_end md b = true -> b = "" \/ (md = Re /\ b = String LF "").
Proof.
  destruct b as [|c [|d b]]; cbn [at_end]; intros H; try discriminate.
  - left. reflexivity.
  - destruct md; [|discriminate]. apply Ascii.eqb_eq in H. subst. auto.
Qed.

Lemma ends_in_extension_spec md (f : string) :
  ends_in_extension md f = true <->
  exists p e t, f = p +++ t /\ In e EXTENSIONS /\ In t (spellings md e).
Proof.
  unfold ends_in_extension. split.
  - intros H. apply existsb_exists in H as [e [Hin H]].
    apply existsb_exists in H as [t [Ht H]].
    apply endswith_spec in H as [p ->]. eauto 6.
  - intros [p [e [t [-> [Hin Ht]]]]].
    apply existsb_exists. exists e. split; [assumption|].
    apply existsb_exists. exists t. split; [assumption|].
    apply endswith_spec. eauto.
Qed.

(** A match of [EXE_REGEX] somewhere in [f], taken apart. *)
Lemma search_exe_regex_inv md (f : string) :
  search md true EXE_REGEX f <> None ->
  exists p t b, f = p +++ t +++ b
                /\ ends_in_extension md (p +++ t) = true
                /\ at_end md b = true.
Proof.
  intros H. destruct (search md true EXE_REGEX f) as [g|] eqn:E;
    [clear H | congruence].
  apply search_some in E as [p [s' [-> E]]].
  apply run_sound in E as [a [b [_ [-> [L _]]]]].
  apply lang_exe_regex in L as [[e [Hin He]] Hb].
  exists p, a, b. split; [reflexivity|]. split; [|assumption].
  apply ends_in_extension_spec. eauto 6.
Qed.

(** A spelling of an extension at the end, or before what [$] lets
    follow, is found. *)
Lemma search_exe_regex_found md (f b : string) :
  ends_in_extension md f = true -> at_end md b = true ->
  search md true EXE_REGEX (f +++ b) <> None.
Proof.
  intros H Hb. apply ends_in_extension_spec in H as [p [e [t [-> [Hin Ht]]]]].
  rewrite append_assoc. apply search_complete.
  apply run_complete; [|discriminate].
  apply lang_exe_regex. split; [eauto | assumption].
Qed.

(** The test of line 296 against the suffix test. *)
Lemma search_exe_regex md (f : string) :
  md = Re2 \/ ends_with_newline f = false ->
  (search md true EXE_REGEX f <> None <-> ends_in_extension md f = true).
Proof.
  intros Hnl. split.
  - intros H. apply search_exe_regex_inv in H as [p [t [b [-> [H Hb]]]]].
    apply at_end_cases in Hb as [-> | [-> ->]].
    + rewrite append_nil_r. assumption.
    + exfalso. destruct Hnl as [Hmd | Hnl]; [discriminate|].
      unfold ends_with_newline in Hnl.
      enough (endswith (p +++ t +++ String LF "") (String LF "") = true)
        by congruence.
      apply endswith_spec. exists (p +++ t). rewrite append_assoc.
      reflexivity.
  - intros H. rewrite <- (append_nil_r f).
    apply search_exe_regex_found; [assumption | reflexivity].
Qed.

Lemma plain_form md (c : ascii) :
  is_plain (lower_ascii c) = true ->
  In (String c "") (letter_forms md (lower_ascii c)).
Proof.
  intros Hp. unfold letter_forms, lower_ascii, upper_ascii, is_lower in *.
  destruct (is_upper c) eqn:Hu.
  - right. left. f_equal.
    unfold is_upper, code in *.
    apply andb_true_iff in Hu as [H1 H2].
    apply Nat.leb_le in H1. apply Nat.leb_le in H2.
    rewrite nat_ascii_embedding by lia.
    replace ((97 <=? nat_of_ascii c + 32)
             && (nat_of_ascii c + 32 <=? 122)) with true
      by (symmetry; apply andb_true_iff; split; apply Nat.leb_le; lia).
    replace (nat_of_ascii c + 32 - 32) with (nat_of_ascii c) by lia.
    apply ascii_nat_embedding.
  - left. reflexivity.
Qed.

(** A name whose lower-case form is an extension is one of the
    spellings of that extension. *)
Lemma lower_spelled md (q e : string) :
  none_of (fun c => negb (is_plain c)) e = true ->
  lower q = e -> In q (spellings md e).
Proof.
  remember (String.length q) as n eqn:En. revert q e En.
  induction n as [n IH] using lt_wf_ind. intros q e En He H.
  destruct (lower_cases q)
    as [-> | [[s2 [-> Hl]] | [[s3 [-> Hl]] | [c [s1 [-> Hl]]]]]].
  - cbn [lower] in H. subst e. left. reflexivity.
  - rewrite Hl in H. subst e. exfalso. cbn [none_of] in He.
    apply andb_true_iff in He as [_ He].
    apply andb_true_iff in He as [C _]. vm_compute in C. discriminate.
  - rewrite Hl in H. subst e. cbn [none_of] in He.
    apply andb_true_iff in He as [_ He]. cbn [spellings].
    apply in_flat_map. exists KELVIN_SIGN. split.
    + destruct md; cbn; auto.
    + apply (in_map (String.append KELVIN_SIGN) _ s3).
      apply (IH (String.length s3)); try reflexivity; try assumption.
      subst n. cbn [String.length]. lia.
  - rewrite Hl in H. subst e. cbn [none_of] in He.
    apply andb_true_iff in He as [Hc He].
    apply negb_true_iff, negb_false_iff in Hc. cbn [spellings].
    apply in_flat_map. exists (String c ""). split.
    + apply plain_form. assumption.
    + apply (in_map (String.append (String c "")) _ s1).
      apply (IH (String.length s1)); try reflexivity; try assumption.
      subst n. cbn [String.length]. lia.
Qed.

Lemma extensions_ascii (e : string) :
  In e EXTENSIONS -> none_of (fun c => negb (is_plain c)) e = true.
Proof.
  intros H. unfold EXTENSIONS in H. simpl in H.
  repeat (destruct H as [<- | H]; [reflexivity|]). destruct H.
Qed.

Lemma collect_is_filter {A B} (t : A -> option B) (l acc : list A) :
  fold_left (fun acc x => match t x with
                          | Some _ => acc ++ [x]
                          | None => acc
                          end) l acc
  = acc ++ filter (fun x => match t x with
                            | Some _ => true
                            | None => false
                            end) l.
Proof.
  revert acc. induction l as [|x l IH]; intros acc; cbn [fold_left filter].
  - rewrite app_nil_r. reflexivity.
  - rewrite IH. destruct (t x); [|reflexivity].
    rewrite <- app_assoc. reflexivity.
Qed.

Lemma get_interesting_files_filter md (names : list string) :
  get_interesting_files md names
  = filter (fun f => match search md true EXE_REGEX f with
                     | Some _ => true
                     | None => false
                     end) names.
Proof.
  unfold get_interesting_files.
  apply (collect_is_filter (search md true EXE_REGEX) names []).
Qed.

End Classifier.

(* ================================================================= *)
(** ** Listing parser *)

Module Listing.
Import Regex Str StrFacts RegexFacts.

Lemma lang_plain md md' r a b b' :
  plain r = true -> lang md false r a b -> lang md' false r a b'.
Proof.
  intros Hp L. revert b'. remember false as icase eqn:Ei.
  induction L; intros b'; cbn [plain] in Hp;
    try discriminate;
    try (apply andb_true_iff in Hp as [Hp1 Hp2]); subst icase;
    solve [constructor; auto].
Qed.

Lemma starts_name_append (x y : string) :
  starts_name x = true -> starts_name (x +++ y) = true.
Proof. destruct x; simpl; [discriminate | auto]. Qed.

Lemma spaced_append (x y : string) :
  spaced x = true -> spaced y = true -> spaced (x +++ y) = true.
Proof.
  induction x as [|c x IH]; cbn [spaced append]; intros Hx Hy; [assumption|].
  apply andb_true_iff in Hx as [Hc Hx]. rewrite (IH Hx Hy), andb_true_r.
  apply orb_true_iff in Hc as [Hc | Hc]; [rewrite Hc; reflexivity|].
  apply andb_true_iff in Hc as [Hc Hs].
  rewrite Hc, (starts_name_append _ _ Hs). apply orb_true_r.
Qed.

Lemma spaced_suffix (x y : string) :
  spaced (x +++ y) = true -> spaced y = true.
Proof.
  induction x as [|c x IH]; cbn [spaced append]; intros H; [assumption|].
  apply andb_true_iff in H as [_ H]. auto.
Qed.

Lemma spaced_none_of (c0 : ascii) (s : string) :
  name_char c0 = false -> Ascii.eqb c0 " " = false ->
  spaced s = true -> none_of (Ascii.eqb c0) s = true.
Proof.
  intros Hn Hs. induction s as [|c s IH]; cbn [spaced none_of]; intros H;
    [reflexivity|].
  apply andb_true_iff in H as [Hc H]. rewrite (IH H), andb_true_r.
  apply negb_true_iff. destruct (Ascii.eqb c0 c) eqn:E; [|reflexivity].
  apply Ascii.eqb_eq in E. subst c.
  rewrite Hn, Hs in Hc. discriminate.
Qed.

(** What the name sub-pattern accepts has the shape [spaced] after a name
    character. *)
Lemma name_pattern_shape md a b :
  lang md false NAME_PATTERN a b -> starts_name a = true /\ spaced a = true.
Proof.
  set (P := fun s : string => starts_name s = true /\ spaced s = true).
  assert (Hcat : forall x y, P x -> P y -> P (x +++ y)).
  { intros x y [Hx1 Hx2] [_ Hy].
    split; [apply starts_name_append | apply spaced_append]; assumption. }
  assert (Hword : forall a b, lang md false (Plus (Cls name_char)) a b -> P a).
  { refine (@lang_plus_ind md false (Cls name_char) P _ Hcat).
    intros a0 b0 L. apply lang_char_inv in L as [x [-> Hx]].
    unfold P. cbn [starts_name spaced]. rewrite Hx. auto. }
  revert a b. unfold NAME_PATTERN.
  refine (@lang_plus_ind md false _ P _ Hcat).
  intros a0 b0 L. apply lang_seq_inv in L as [a1 [a2 [-> [L1 L2]]]].
  apply Hword in L1 as [H1 H2].
  split; [apply starts_name_append; assumption|].
  apply spaced_append; [assumption|].
  apply lang_opt_inv in L2 as [-> | L2]; [reflexivity|].
  apply lang_seq_inv in L2 as [s1 [w [-> [Ls Lw]]]].
  apply lang_char_inv in Ls. destruct Ls as [<- | []].
  apply Hword in Lw as [Hw1 Hw2].
  cbn [append spaced]. rewrite Hw1, Hw2. reflexivity.
Qed.

Lemma name_ok_lang md (n b : string) :
  name_ok n = true -> lang md false NAME_PATTERN n b.
Proof.
  unfold name_ok. intros H.
  destruct (run Re false NAME_PATTERN n None _) as [u|] eqn:E;
    [clear H | discriminate].
  apply run_sound in E as [a [b0 [_ [-> [L Hk]]]]].
  destruct (String.eqb b0 "") eqn:Eb; [|discriminate].
  apply String.eqb_eq in Eb. subst b0. rewrite append_nil_r.
  eapply lang_plain; [reflexivity | eassumption].
Qed.

(** Names made of name characters only are accepted. *)
Lemma name_ok_word (n : string) : is_word n = true -> name_ok n = true.
Proof.
  unfold is_word. intros H. apply andb_true_iff in H as [Hne Hall].
  assert (Hw : lang Re false (Plus (Cls name_char)) n "").
  { induction n as [|c n IH]; [discriminate|].
    cbn [none_of] in Hall. apply andb_true_iff in Hall as [Hc Hall].
    apply negb_true_iff, negb_false_iff in Hc.
    destruct n as [|c' n].
    - apply L_PlusOne. constructor. assumption.
    - change (String c (String c' n)) with (String c "" +++ String c' n).
      apply L_PlusMore; [constructor; assumption|].
      apply IH; [reflexivity | assumption]. }
  assert (Hn : lang Re false NAME_PATTERN n "").
  { rewrite <- (append_nil_r n). unfold NAME_PATTERN. apply L_PlusOne.
    constructor; [exact Hw | constructor]. }
  assert (Hrun : run Re false NAME_PATTERN (n +++ "") None
                   (fun rest _ => if String.eqb rest "" then Some tt else None)
                 <> None).
  { apply run_complete; [exact Hn|]. intros g'. discriminate. }
  rewrite append_nil_r in Hrun. unfold name_ok.
  destruct (run Re false NAME_PATTERN n None _); [reflexivity | congruence].
Qed.

Lemma name_ok_no_CR (n : string) : name_ok n = true -> no_CR n = true.
Proof.
  intros H. apply name_ok_lang with (md := Re) (b := "") in H.
  apply name_pattern_shape in H as [_ H].
  apply spaced_none_of; [reflexivity | reflexivity | assumption].
Qed.

Lemma name_ok_no_LF (n : string) : name_ok n = true -> no_LF n = true.
Proof.
  intros H. apply name_ok_lang with (md := Re) (b := "") in H.
  apply name_pattern_shape in H as [_ H].
  apply spaced_none_of; [reflexivity | reflexivity | assumption].
Qed.

(** A match of [FILE_NAME_REGEX], taken apart: two white-space
    characters, the name, a carriage return. *)
Lemma file_name_regex_inv md a b :
  lang md false FILE_NAME_REGEX a b ->
  exists s1 s2 g,
    In s1 (white_space md) /\ In s2 (white_space md)
    /\ a = s1 +++ s2 +++ g +++ String CR ""
    /\ lang md false NAME_PATTERN g (String CR b).
Proof.
  unfold FILE_NAME_REGEX. intros L.
  apply lang_seq_inv in L as [s1 [r1 [-> [L1 L]]]].
  apply lang_seq_inv in L as [s2 [r2 [-> [L2 L]]]].
  apply lang_seq_inv in L as [g [r3 [-> [Lg L3]]]].
  apply lang_char_inv in L1. apply lang_char_inv in L2.
  apply lang_char_inv in L3. destruct L3 as [<- | []].
  apply lang_cap_inv in Lg. exists s1, s2, g. auto.
Qed.

(** The one carriage return of a line is its last character. *)
Lemma unique_last (c : ascii) (u x b : string) :
  none_of (Ascii.eqb c) u = true ->
  x +++ String c b = u +++ String c "" -> x = u /\ b = "".
Proof.
  revert x. induction u as [|d u IH]; intros [|y x];
    cbn [none_of append]; intros Hu H.
  - inversion H. auto.
  - inversion H as [[E1 E2]]. destruct x; discriminate.
  - inversion H; subst. rewrite Ascii.eqb_refl in Hu. discriminate.
  - inversion H; subst. apply andb_true_iff in Hu as [_ Hu].
    destruct (IH _ Hu H2); subst; auto.
Qed.

(** Two white-space characters that hold two spaces are two spaces. *)
Lemma two_spaces md (s1 s2 : string) :
  In s1 (white_space md) -> In s2 (white_space md) ->
  contains "  " (s1 +++ s2) = true -> s1 = " " /\ s2 = " ".
Proof.
  intros H1 H2 Hc.
  assert (Hall :
    forallb (fun x =>
      forallb (fun y =>
        implb (contains "  " (x +++ y))
              (String.eqb x " " && String.eqb y " "))
        (white_space md)) (white_space md) = true)
    by (destruct md; vm_compute; reflexivity).
  rewrite forallb_forall in Hall. specialize (Hall _ H1).
  rewrite forallb_forall in Hall. specialize (Hall _ H2).
  rewrite Hc in Hall. cbn [implb] in Hall.
  apply andb_true_iff in Hall as [E1 E2].
  apply String.eqb_eq in E1. apply String.eqb_eq in E2. auto.
Qed.

(** What ends a string that ends in [c]. *)
Lemma ends_cases (x r y : string) (c : ascii) :
  x +++ r = y +++ String c "" ->
  r = "" \/ exists r', r = r' +++ String c "".
Proof.
  intros H. destruct (two_suffixes _ _ _ _ H) as [[t Ht] | [t Ht]].
  - right. exists t. exact Ht.
  - destruct t as [|t0 t]; cbn [append] in Ht.
    + right. exists "". symmetry. exact Ht.
    + left. inversion Ht as [[E1 E2]]. destruct t; [|discriminate].
      cbn [append] in E2. symmetry. exact E2.
Qed.

(** A name found at the end of a member line is the end of its name. *)
Lemma spaced_tail (g x y n : string) :
  starts_name g = true -> spaced g = true ->
  x +++ g = y +++ "  " +++ n -> exists q, n = q +++ g.
Proof.
  intros Hs Hg H.
  replace (y +++ "  " +++ n) with ((y +++ "  ") +++ n) in H
    by (rewrite append_assoc; reflexivity).
  destruct (two_suffixes _ _ _ _ H) as [[r Hr] | [r Hr]]; [|eauto].
  subst g. rewrite <- append_assoc in H. apply append_inv_tail in H.
  replace (y +++ "  ") with ((y +++ " ") +++ " ") in H
    by (rewrite append_assoc; reflexivity).
  destruct (ends_cases _ _ _ _ H) as [-> | [r1 ->]]; [exists ""; reflexivity|].
  exfalso. rewrite <- append_assoc in H. apply append_inv_tail in H.
  destruct (ends_cases _ _ _ _ H) as [-> | [r2 ->]].
  - cbn [append starts_name] in Hs. discriminate.
  - rewrite !append_assoc in Hg. apply spaced_suffix in Hg.
    cbn [append spaced starts_name] in Hg. discriminate.
Qed.

(** No match starts inside the columns. *)
Lemma no_match_in_columns md (c : ascii) (cols n : string) :
  no_CR (String c cols) = true -> name_ok n = true ->
  run md false FILE_NAME_REGEX
      (String c cols +++ "  " +++ n +++ String CR "") None
      (fun _ g => Some g) = None.
Proof.
  intros Hc Hn.
  destruct (run md false FILE_NAME_REGEX _ None _) as [u|] eqn:E;
    [exfalso | reflexivity].
  apply run_sound in E as [a [b [_ [Es [L _]]]]].
  apply file_name_regex_inv in L as [s1 [s2 [g [H1 [H2 [-> L]]]]]].
  apply name_pattern_shape in L as [Hg1 Hg2].
  assert (HnCR := name_ok_no_CR _ Hn).
  assert (Hu : none_of (Ascii.eqb CR) (String c cols +++ "  " +++ n) = true).
  { unfold no_CR in *. rewrite !none_of_append, Hc, HnCR. reflexivity. }
  assert (Es' : (s1 +++ s2 +++ g) +++ String CR b
                = (String c cols +++ "  " +++ n) +++ String CR "").
  { rewrite !append_assoc in Es |- *. symmetry. exact Es. }
  apply (unique_last _ _ _ _ Hu) in Es' as [Es' _].
  assert (Es2 : (s1 +++ s2) +++ g = String c cols +++ "  " +++ n)
    by (rewrite append_assoc; exact Es').
  destruct (spaced_tail _ _ _ _ Hg1 Hg2 Es2) as [q ->].
  rewrite <- !append_assoc in Es2. apply append_inv_tail in Es2.
  assert (Hc2 : contains "  " (s1 +++ s2) = true).
  { apply contains_spec. exists (String c cols), q.
    rewrite Es2, !append_assoc. reflexivity. }
  destruct (two_spaces md _ _ H1 H2 Hc2) as [-> ->].
  assert (L := f_equal String.length Es2).
  cbn [String.length append] in L. rewrite !length_append in L.
  cbn [String.length] in L. lia.
Qed.

(** A space at the head of the subject is the white-space character
    found there. *)
Lemma one_of_space md R (t : string) (k : string -> option R) :
  one_of (white_space md) (String " " t) k = k t.
Proof. destruct md; cbn; destruct (k t); reflexivity. Qed.

(** The match right at the two spaces captures the name. *)
Lemma match_at_name md (n : string) :
  name_ok n = true ->
  run md false FILE_NAME_REGEX ("  " +++ n +++ String CR "") None
      (fun _ g => Some g) = Some (Some n).
Proof.
  intros Hn. unfold FILE_NAME_REGEX. cbn [append run].
  rewrite !one_of_space.
  destruct (run md false NAME_PATTERN _ None _) as [u|] eqn:E.
  - apply run_sound in E as [a [b [_ [Es [L Hk]]]]].
    apply one_of_sound in Hk as [v [b' [Hv [-> Hk]]]].
    destruct Hv as [<- | []]. inversion Hk; subst u.
    rewrite Es, consumed_append.
    apply name_pattern_shape in L as [_ Hg].
    apply cut_unique in Es as [-> _]; [reflexivity | |].
    + apply name_ok_no_CR. assumption.
    + apply spaced_none_of; [reflexivity | reflexivity | assumption].
  - exfalso. revert E. apply run_complete.
    + apply name_ok_lang. assumption.
    + intros g'. cbn. discriminate.
Qed.

(** Line 175 on a member line. *)
Lemma search_member_line md (cols n : string) :
  no_CR cols = true -> name_ok n = true ->
  search md false FILE_NAME_REGEX (member_line cols n) = Some (Some n).
Proof.
  intros Hc Hn. unfold member_line. rewrite search_skip.
  - assert (Hm := match_at_name md n Hn).
    cbn [append] in Hm |- *. cbn [search]. rewrite Hm. reflexivity.
  - intros p1 [|c p2] -> Hne; [congruence|].
    apply no_match_in_columns; [|assumption].
    unfold no_CR in Hc. rewrite none_of_append in Hc.
    apply andb_true_iff in Hc as [_ Hc]. exact Hc.
Qed.

End Listing.

(** The three states the scan goes through. *)
Lemma listing_before_table md (pre : list string) acc :
  forallb (fun l => negb (is_header l)) pre = true ->
  fold_left (listing_step md) pre
    {| in_table := false; items_under_header := false; file_names := acc |}
  = {| in_table := false; items_under_header := false; file_names := acc |}.
Proof.
  induction pre as [|l pre IH]; cbn [forallb fold_left]; intros H;
    [reflexivity|].
  apply andb_true_iff in H as [Hl H]. apply negb_true_iff in Hl.
  unfold listing_step at 2. cbn [in_table]. unfold is_header in Hl.
  rewrite Hl. apply IH. assumption.
Qed.

Lemma listing_after_table md (post : list string) acc :
  forallb (fun l => negb (is_separator l)) post = true ->
  fold_left (listing_step md) post
    {| in_table := true; items_under_header := false; file_names := acc |}
  = {| in_table := true; items_under_header := false; file_names := acc |}.
Proof.
  induction post as [|l post IH]; cbn [forallb fold_left]; intros H;
    [reflexivity|].
  apply andb_true_iff in H as [Hl H]. apply negb_true_iff in Hl.
  unfold listing_step at 2. cbn [in_table items_under_header].
  unfold is_separator in Hl. rewrite Hl. apply IH. assumption.
Qed.

Lemma listing_header md (header : string) acc :
  is_header header = true ->
  listing_step md
    {| in_table := false; items_under_header := false; file_names := acc |}
    header
  = {| in_table := true; items_under_header := false; file_names := acc |}.
Proof.
  intros H. unfold listing_step. cbn [in_table items_under_header file_names].
  unfold is_header in H. rewrite H. reflexivity.
Qed.

Lemma listing_separator md (sep : string) (items : bool) acc :
  is_separator sep = true ->
  listing_step md
    {| in_table := true; items_under_header := items; file_names := acc |}
    sep
  = {| in_table := true; items_under_header := negb items;
       file_names := acc |}.
Proof.
  intros H. unfold listing_step. cbn [in_table items_under_header file_names].
  unfold is_separator in H. rewrite H. reflexivity.
Qed.

Lemma listing_member md (cols n : string) acc :
  member_ok cols n = true ->
  listing_step md
    {| in_table := true; items_under_header := true; file_names := acc |}
    (member_line cols n)
  = {| in_table := true; items_under_header := true;
       file_names := acc ++ [Some n] |}.
Proof.
  unfold member_ok. intros H.
  apply andb_true_iff in H as [H Hs]. apply andb_true_iff in H as [H Hn].
  apply andb_true_iff in H as [Hc _]. apply negb_true_iff in Hs.
  unfold listing_step. cbn [in_table items_under_header file_names].
  unfold is_separator in Hs. rewrite Hs.
  rewrite (Listing.search_member_line md cols n Hc Hn). reflexivity.
Qed.

Lemma member_line_no_LF (cols n : string) :
  member_ok cols n = true -> no_LF (member_line cols n) = true.
Proof.
  unfold member_ok. intros H.
  apply andb_true_iff in H as [H _]. apply andb_true_iff in H as [H Hn].
  apply andb_true_iff in H as [_ Hl]. apply Listing.name_ok_no_LF in Hn.
  unfold no_LF, member_line in *.
  rewrite !StrFacts.none_of_append, Hl, Hn. reflexivity.
Qed.

(** The scan of a report with two readable member lines. *)
Lemma parse_listing_two_members md
      (pre post : list string) (header sep1 sep2 cols1 n1 cols2 n2 : string) :
  forallb (fun l => negb (is_header l)) pre = true ->
  is_header header = true ->
  is_separator sep1 = true ->
  member_ok cols1 n1 = true ->
  member_ok cols2 n2 = true ->
  is_separator sep2 = true ->
  forallb (fun l => negb (is_separator l)) post = true ->
  forallb no_LF (pre ++ [header; sep1; sep2] ++ post) = true ->
  parse_listing md
    (Str.join_lines
       (pre ++ [header; sep1; member_line cols1 n1; member_line cols2 n2; sep2]
            ++ post))
  = [Some n1; Some n2].
Proof.
  intros Hpre Hh Hs1 Hm1 Hm2 Hs2 Hpost HLF.
  unfold parse_listing. rewrite StrFacts.split_join_lines.
  - rewrite fold_left_app, (listing_before_table md pre [] Hpre).
    cbn [app fold_left].
    rewrite (listing_header md header [] Hh).
    rewrite (listing_separator md sep1 false [] Hs1). cbn [negb].
    rewrite (listing_member md cols1 n1 [] Hm1).
    rewrite (listing_member md cols2 n2 _ Hm2).
    rewrite (listing_separator md sep2 true _ Hs2). cbn [negb].
    rewrite (listing_after_table md post _ Hpost). reflexivity.
  - destruct pre; discriminate.
  - change (Str.none_of (Ascii.eqb Str.LF)) with no_LF.
    rewrite forallb_app in HLF |- *. apply andb_true_iff in HLF as [H1 H2].
    rewrite H1. cbn [forallb app andb] in H2 |- *.
    apply andb_true_iff in H2 as [Ha H2]. apply andb_true_iff in H2 as [Hb H2].
    apply andb_true_iff in H2 as [Hc H2].
    rewrite Ha, Hb, Hc, H2.
    rewrite (member_line_no_LF _ _ Hm1), (member_line_no_LF _ _ Hm2).
    reflexivity.
Qed.

(** C9 (as amended).  When the bytes the tool printed decode to a report
    made of lines that are not header lines, a header line with the six column words, a separator
    line, two member lines, a closing separator line and lines without a
    run of dashes, [get_file_names] returns exactly the two member names,
    in order, provided each member line is one the parser can read
    ([member_ok]): its name is accepted by the name sub-pattern of
    [FILE_NAME_REGEX] and is preceded by two spaces, and the line has no
    carriage return before its end and no run of five dashes. *)
Theorem get_file_names_two_members {World Archive Proc}
        (E : Env World Archive Proc) md
        (seven_zip_path archive_path : string) (w w' : World)
        (stdout stderr : string) (pre post : list string)
        (header sep1 sep2 cols1 n1 cols2 n2 : string) :
  subprocess_run E [seven_zip_path; "l"; archive_path] w
  = (w', inr (stdout, stderr)) ->
  bytes_decode E stdout
  = inr (Str.join_lines
           (pre ++ [header; sep1; member_line cols1 n1;
                    member_line cols2 n2; sep2] ++ post)) ->
  forallb (fun l => negb (is_header l)) pre = true ->
  is_header header = true ->
  is_separator sep1 = true ->
  member_ok cols1 n1 = true ->
  member_ok cols2 n2 = true ->
  is_separator sep2 = true ->
  forallb (fun l => negb (is_separator l)) post = true ->
  forallb no_LF (pre ++ [header; sep1; sep2] ++ post) = true ->
  result_of (run_in (get_file_names E md seven_zip_path archive_path) w)
  = Return [Some n1; Some n2].
Proof.
  intros Hrun Hdec Hpre Hh Hs1 Hm1 Hm2 Hs2 Hpost HLF.
  unfold result_of, run_in, get_file_names, run_tool, log, emit, call, bind,
    query, ret.
  cbn [world trace]. rewrite Hrun. cbn [world trace]. rewrite Hdec.
  cbn [snd].
  rewrite (parse_listing_two_members md pre post header sep1 sep2
             cols1 n1 cols2 n2 Hpre Hh Hs1 Hm1 Hm2 Hs2 Hpost HLF).
  reflexivity.
Qed.

Lemma get_file_names_two_members_witness :
  result_of (run_in (get_file_names (Sim.env Sim.no_options "") Regex.Re
                       "7z.exe" "C:\in\sample.7z")
                    ListingExample.plain_world)
  = Return [Some "dropper.exe"; Some "docs\read me.txt"].
Proof.
  apply (get_file_names_two_members (Sim.env Sim.no_options "") Regex.Re
           "7z.exe" "C:\in\sample.7z" ListingExample.plain_world
           (w' := {| Sim.files := []; Sim.tool_script := [] |})
           (stdout := Str.join_lines
                        (["Listing archive: sample.7z"; ""]
                           ++ [ListingExample.header;
                               ListingExample.separator;
                               ListingExample.line_of "dropper.exe";
                               ListingExample.line_of "docs\read me.txt";
                               ListingExample.separator]
                           ++ [ListingExample.summary; ""]))
           (stderr := "")
           ["Listing archive: sample.7z"; ""] [ListingExample.summary; ""]
           ListingExample.header ListingExample.separator
           ListingExample.separator
           ListingExample.columns "dropper.exe"
           ListingExample.columns "docs\read me.txt");
    vm_compute; reflexivity.
Defined.

(** C9 as stated fails: a member line whose name has a parenthesis is
    skipped, so the report yields one name instead of two. *)
Lemma get_file_names_parenthesis_counterexample :
  result_of (run_in (get_file_names (Sim.env Sim.no_options "") Regex.Re
                       "7z.exe" "C:\in\sample.7z")
                    ListingExample.parenthesis_world)
  <> Return [Some "report(1).exe"; Some "lib.dll"].
Proof. vm_compute. discriminate. Qed.

(** C8 (as amended).  On names that do not end in a line feed,
    [get_interesting_files] keeps exactly the names that end in one of the
    nineteen extensions, in the order of the input; the letters of the
    extension may be in either case, and U+212A stands for k, U+017F for
    s and, under [re], U+0130 and U+0131 for i. *)
Theorem get_interesting_files_by_suffix md (names : list string) :
  forallb (fun f => negb (ends_with_newline f)) names = true ->
  get_interesting_files md names = filter (ends_in_extension md) names.
Proof.
  intros H. rewrite Classifier.get_interesting_files_filter.
  apply filter_ext_in. intros f Hin.
  rewrite forallb_forall in H. specialize (H f Hin).
  apply negb_true_iff in H.
  assert (S := @Classifier.search_exe_regex md f (or_intror H)).
  destruct (Regex.search md true EXE_REGEX f) as [g|];
    destruct (ends_in_extension md f); try reflexivity.
  - assert (C : false = true) by (apply S; discriminate). discriminate.
  - exfalso. apply (proj2 S); reflexivity.
Qed.

Lemma get_interesting_files_by_suffix_witness :
  forallb (fun f => negb (ends_with_newline f))
          ["a.txt"; "b.exe"; "c.DLL"; "readme.md"] = true
  /\ get_interesting_files Regex.Re ["a.txt"; "b.exe"; "c.DLL"; "readme.md"]
     = ["b.exe"; "c.DLL"].
Proof.
  split; [reflexivity|].
  exact (get_interesting_files_by_suffix Regex.Re
           ["a.txt"; "b.exe"; "c.DLL"; "readme.md"] eq_refl).
Defined.

(** C8 as stated fails under the standard [re] module: a name that ends
    in a line feed after the extension is kept although no suffix of it is
    one of the extensions, in whatever case. *)
Lemma get_interesting_files_newline_counterexample :
  has_interesting_suffix ("b.exe" +++ String Str.LF "") = false
  /\ ends_in_extension Regex.Re ("b.exe" +++ String Str.LF "") = false
  /\ get_interesting_files Regex.Re ["b.exe" +++ String Str.LF ""]
     = ["b.exe" +++ String Str.LF ""].
Proof. vm_compute. repeat split; reflexivity. Qed.

(** The characters outside ASCII: a shortcut named with the Kelvin sign
    for its last letter, and a script named with the long s, are kept by
    both modules; a name that ends in the dotless i is kept by [re]
    only. *)
Example get_interesting_files_folded_letters :
  get_interesting_files Regex.Re
    ["a.ln" +++ Regex.KELVIN_SIGN; "b.vb" +++ Regex.LONG_S;
     "c.ms" +++ Regex.DOTLESS_I; "d.txt"]
  = ["a.ln" +++ Regex.KELVIN_SIGN; "b.vb" +++ Regex.LONG_S;
     "c.ms" +++ Regex.DOTLESS_I]
  /\ get_interesting_files Regex.Re2
       ["a.ln" +++ Regex.KELVIN_SIGN; "b.vb" +++ Regex.LONG_S;
        "c.ms" +++ Regex.DOTLESS_I; "d.txt"]
     = ["a.ln" +++ Regex.KELVIN_SIGN; "b.vb" +++ Regex.LONG_S].
Proof. vm_compute. split; reflexivity. Qed.

(** With [re2] the restriction on the names is not needed. *)
Lemma get_interesting_files_by_suffix_re2 (names : list string) :
  get_interesting_files Regex.Re2 names
  = filter (ends_in_extension Regex.Re2) names.
Proof.
  rewrite Classifier.get_interesting_files_filter.
  apply filter_ext. intros f.
  assert (S := @Classifier.search_exe_regex Regex.Re2 f (or_introl eq_refl)).
  destruct (Regex.search Regex.Re2 true EXE_REGEX f) as [g|];
    destruct (ends_in_extension Regex.Re2 f); try reflexivity.
  - assert (C : false = true) by (apply S; discriminate). discriminate.
  - exfalso. apply (proj2 S); reflexivity.
Qed.

(* ================================================================= *)
(** ** External-tool extraction *)

(** C5 (as amended).  With [so1], [se1] the output of the first run of the
    tool: if [se1] has the wrong-password text, the destination tree is
    removed unless the path matches the local-temp pattern, the tool is run
    exactly once more with the [password] argument, and a second
    wrong-password report raises [Exception("Wrong password provided")];
    if [se1] does not have the wrong-password text, the tool is run once
    only, and [TypeError] is raised exactly when [so1] has the
    not-an-archive text. *)
Theorem extract_archive_outcomes {World Archive Proc}
        (E : Env World Archive Proc)
        (seven_zip_path archive_path extract_path password : string)
        (w w1 : World) (so1 se1 : string) :
  subprocess_run E (tool_argv seven_zip_path "-p" extract_path archive_path) w
  = (w1, inr (so1, se1)) ->
  let r := run_in (extract_archive E seven_zip_path archive_path extract_path
                                   password) w in
  (Str.contains WRONG_PASSWORD se1 = true ->
   forall w2 so2 se2,
     subprocess_run E
       (tool_argv seven_zip_path ("-p" +++ password) extract_path archive_path)
       (if Path_match E extract_path "local\temp" then w1
        else shutil_rmtree E extract_path w1)
     = (w2, inr (so2, se2)) ->
     runs_of (trace_of r)
     = [tool_argv seven_zip_path "-p" extract_path archive_path;
        tool_argv seven_zip_path ("-p" +++ password) extract_path archive_path]
     /\ rmtrees_of (trace_of r)
        = (if Path_match E extract_path "local\temp" then []
           else [extract_path])
     /\ world_of r = w2
     /\ result_of r
        = (if Str.contains WRONG_PASSWORD se2
           then Raise (mkExn Exception "Wrong password provided")
           else Return tt))
  /\ (Str.contains WRONG_PASSWORD se1 = false ->
      runs_of (trace_of r)
      = [tool_argv seven_zip_path "-p" extract_path archive_path]
      /\ rmtrees_of (trace_of r) = []
      /\ world_of r = w1
      /\ result_of r
         = (if Str.contains NOT_AN_ARCHIVE so1
            then Raise (mkExn TypeError "Unable to open the file as archive")
            else Return tt)).
Proof.
  intros H1 r. subst r.
  unfold tool_argv, WRONG_PASSWORD, NOT_AN_ARCHIVE in *.
  unfold run_in, trace_of, world_of, result_of, extract_archive, run_tool,
    log, emit, call, bind, ret, raise.
  cbn [world trace app]. rewrite H1. cbn [world trace app]. split.
  - intros Hwp w2 so2 se2 H2. rewrite Hwp.
    destruct (Path_match E extract_path "local\temp"); cbn [negb world trace];
      rewrite H2; cbn [world trace fst snd];
      destruct (Str.contains "Wrong password" se2); cbn; auto.
  - intros Hwp. rewrite Hwp.
    destruct (Str.contains "Can not open the file as archive" so1);
      cbn; auto.
Qed.

Lemma extract_archive_outcomes_witness :
  runs_of (trace_of (run_in (extract_archive (Sim.env Sim.no_options "")
                               "7z.exe" "C:\in\a.7z" "C:\out" "infected")
                            ToolExample.retry_world))
  = [["7z.exe"; "x"; "-p"; "-y"; "-oC:\out"; "C:\in\a.7z"];
     ["7z.exe"; "x"; "-pinfected"; "-y"; "-oC:\out"; "C:\in\a.7z"]]
  /\ rmtrees_of (trace_of (run_in (extract_archive
                                     (Sim.env Sim.no_options "") "7z.exe"
                                     "C:\in\a.7z" "C:\out" "infected")
                                  ToolExample.retry_world))
     = ["C:\out"]
  /\ result_of (run_in (extract_archive (Sim.env Sim.no_options "") "7z.exe"
                          "C:\in\a.7z" "C:\out" "infected")
                       ToolExample.retry_world)
     = Return tt.
Proof.
  destruct (extract_archive_outcomes (Sim.env Sim.no_options "") "7z.exe"
              "C:\in\a.7z" "C:\out" "infected" ToolExample.retry_world
              (eq_refl)) as [H _].
  destruct (H eq_refl _ _ _ eq_refl) as [H1 [H2 [_ H4]]].
  exact (conj H1 (conj H2 H4)).
Defined.

(** C5 as stated fails: when the first run reports a wrong password, the
    not-an-archive text on standard output raises nothing, neither after
    the first run nor after the retry. *)
Lemma extract_archive_not_an_archive_counterexample :
  Str.contains NOT_AN_ARCHIVE "Can not open the file as archive" = true
  /\ result_of (run_in (extract_archive (Sim.env Sim.no_options "") "7z.exe"
                          "C:\in\a.7z" "C:\out" "infected")
                       ToolExample.both_world)
     = Return tt.
Proof. vm_compute. split; reflexivity. Qed.

(** C10.  Whatever the [password] argument, the tool is first run with
    the bare flag [-p], in the world the call started in.  With [r1] what
    that run answers and [w1] the world it leaves: if the tool could not
    be started or its error output has no wrong-password report, this is
    the only run and the password has gone nowhere; if the error output
    has a wrong-password report, the tool is run exactly once more, now
    with [-p] followed by the password, in the world [w1] (after the
    removal of the destination tree, when that applies), and the call ends
    in the world this second run leaves. *)
Theorem extract_archive_first_run_without_password {World Archive Proc}
        (E : Env World Archive Proc)
        (seven_zip_path archive_path extract_path password : string)
        (w w1 : World) (r1 : exn + (string * string)) :
  subprocess_run E (tool_argv seven_zip_path "-p" extract_path archive_path) w
  = (w1, r1) ->
  let first := tool_argv seven_zip_path "-p" extract_path archive_path in
  let retry :=
    tool_argv seven_zip_path ("-p" +++ password) extract_path archive_path in
  let r := run_in (extract_archive E seven_zip_path archive_path extract_path
                                   password) w in
  match r1 with
  | inl e =>
      runs_of (trace_of r) = [first] /\ world_of r = w1
      /\ result_of r = Raise e
  | inr (so1, se1) =>
      if Str.contains WRONG_PASSWORD se1 then
        runs_of (trace_of r) = [first; retry]
        /\ world_of r
           = fst (subprocess_run E retry
                    (if Path_match E extract_path "local\temp" then w1
                     else shutil_rmtree E extract_path w1))
        /\ (forall e2,
              snd (subprocess_run E retry
                     (if Path_match E extract_path "local\temp" then w1
                      else shutil_rmtree E extract_path w1))
              = inl e2 ->
              result_of r = Raise e2)
      else
        runs_of (trace_of r) = [first] /\ world_of r = w1
  end.
Proof.
  intros H1 first retry r. subst first retry r.
  unfold tool_argv, WRONG_PASSWORD in *.
  unfold run_in, trace_of, world_of, result_of, extract_archive, run_tool,
    log, emit, call, bind, ret, raise.
  cbn [world trace app]. rewrite H1.
  destruct r1 as [e | [so1 se1]]; cbn [world trace app fst snd].
  - repeat split.
  - destruct (Str.contains "Wrong password" se1) eqn:Hwp.
    + destruct (Path_match E extract_path "local\temp");
        cbn [negb world trace];
        match goal with
        | |- context [subprocess_run E ?argv ?w'] =>
            destruct (subprocess_run E argv w') as [w2 [e | [so2 se2]]]
        end;
        cbn [world trace fst snd];
        try (destruct (Str.contains "Wrong password" se2));
        repeat split; try discriminate;
        intros e2 He2; inversion He2; reflexivity.
    + destruct (Str.contains "Can not open the file as archive" so1);
        split; reflexivity.
Qed.

Lemma extract_archive_first_run_without_password_witness :
  runs_of (trace_of (run_in (extract_archive (Sim.env Sim.no_options "")
                               "7z.exe" "C:\in\a.7z" "C:\out" "s3cret")
                            ToolExample.retry_world))
  = [["7z.exe"; "x"; "-p"; "-y"; "-oC:\out"; "C:\in\a.7z"];
     ["7z.exe"; "x"; "-ps3cret"; "-y"; "-oC:\out"; "C:\in\a.7z"]].
Proof.
  exact (proj1 (@extract_archive_first_run_without_password _ _ _
                  (Sim.env Sim.no_options "")
                  "7z.exe" "C:\in\a.7z" "C:\out" "s3cret"
                  ToolExample.retry_world
                  {| Sim.files := [];
                     Sim.tool_script := [("Everything is Ok", "")] |}
                  (inr ("", "ERROR: Wrong password : a.bin"))
                  eq_refl)).
Defined.

(* ================================================================= *)
(** ** Execution dispatcher *)

Module Dispatch.
Import Str StrFacts.


Lemma disjoint_suffixes_spec (xs ys : list string) (s : string) :
  disjoint_suffixes xs ys = true ->
  endswith_any s xs = true -> endswith_any s ys = false.
Proof.
  unfold disjoint_suffixes, endswith_any. intros D Hx.
  apply existsb_exists in Hx as [x [Hinx Hx]].
  destruct (existsb (endswith s) ys) eqn:Hy; [exfalso | reflexivity].
  apply existsb_exists in Hy as [y [Hiny Hy]].
  rewrite forallb_forall in D. specialize (D x Hinx).
  rewrite forallb_forall in D. specialize (D y Hiny).
  apply andb_true_iff in D as [D1 D2].
  apply negb_true_iff in D1. apply negb_true_iff in D2.
  apply endswith_spec in Hx as [p Hp]. apply endswith_spec in Hy as [q Hq].
  rewrite Hp in Hq. apply two_suffixes in Hq as [[r Hr] | [r Hr]].
  - assert (endswith x y = true) by (apply endswith_spec; eauto). congruence.
  - assert (endswith y x = true) by (apply endswith_spec; eauto). congruence.
Qed.

Lemma endswith_any_one (s x : string) : endswith_any s [x] = endswith s x.
Proof. unfold endswith_any. cbn [existsb]. apply orb_false_r. Qed.

Lemma endswith_any_incl (s : string) (xs ys : list string) :
  incl xs ys -> endswith_any s xs = true -> endswith_any s ys = true.
Proof.
  unfold endswith_any. intros I H. apply existsb_exists in H as [x [Hin H]].
  apply existsb_exists. exists x. auto.
Qed.

(** A name that ends in one of the library extensions reaches the fourth
    branch of the dispatcher. *)
Lemma library_branch (s : string) :
  endswith_any s [".dll"; ".db"; ".dat"; ".tmp"; ".temp"] = true ->
  endswith_any s [".lnk"; ".bat"; ".cmd"] = false
  /\ endswith s ".msi" = false
  /\ endswith_any s [".js"; ".jse"; ".vbs"; ".vbe"; ".wsf"] = false.
Proof.
  intros H. repeat split.
  - revert H. apply disjoint_suffixes_spec. reflexivity.
  - rewrite <- endswith_any_one. revert H.
    apply disjoint_suffixes_spec. reflexivity.
  - revert H. apply disjoint_suffixes_spec. reflexivity.
Qed.

End Dispatch.

(** C7 (as amended).  A file whose name ends in [.db], [.dat], [.tmp] or
    [.temp] and whose content, all of it, has neither the MZ signature nor
    the DOS-mode text makes
    [execute_interesting_file] return [None]: nothing is launched, nothing
    is raised and the world is left as it was. *)
Theorem execute_interesting_file_not_code {World Archive Proc}
        (E : Env World Archive Proc) (root file_name file_path : string)
        (st : state World Archive) (content : string) :
  Str.endswith_any (Str.lower file_name) [".db"; ".dat"; ".tmp"; ".temp"]
  = true ->
  read_file E file_path (world st) = inr content ->
  Str.contains "MZ" content = false ->
  Str.contains "This program cannot be run in DOS mode" content = false ->
  execute_interesting_file E root file_name file_path st
  = (mkState (world st)
       (trace st ++ [EvLog Debug INTERESTING_FORMAT [file_name]]),
     Return None).
Proof.
  intros Hext Hread Hmz Hdos.
  assert (Hlib : Str.endswith_any (Str.lower file_name)
                   [".dll"; ".db"; ".dat"; ".tmp"; ".temp"] = true).
  { revert Hext. apply Dispatch.endswith_any_incl.
    intros x Hx. right. assumption. }
  destruct (Dispatch.library_branch _ Hlib) as [H1 [H2 H3]].
  assert (Hdll : Str.endswith (Str.lower file_name) ".dll" = false).
  { rewrite <- Dispatch.endswith_any_one. revert Hext.
    apply Dispatch.disjoint_suffixes_spec. reflexivity. }
  unfold execute_interesting_file, bind, log, emit, query, ret.
  cbn [world trace]. rewrite H1, H2, H3, Hlib, Hdll. cbn [negb world trace].
  rewrite Hread. unfold PE_INDICATORS. cbn [any_indicator].
  rewrite Hmz. reflexivity.
Qed.

Lemma execute_interesting_file_not_code_witness :
  result_of (run_in (execute_interesting_file (Sim.env Sim.no_options "")
                       "C:\out" "lib.dat" "C:\out\lib.dat")
                    DispatchExample.gif_world)
  = Return None
  /\ launches_of (trace_of (run_in (execute_interesting_file
                                      (Sim.env Sim.no_options "")
                                      "C:\out" "lib.dat" "C:\out\lib.dat")
                                   DispatchExample.gif_world))
     = [].
Proof.
  unfold run_in.
  rewrite (execute_interesting_file_not_code (Sim.env Sim.no_options "")
             "C:\out" "lib.dat" "C:\out\lib.dat"
             (mkState DispatchExample.gif_world [])
             (content := "GIF89a") eq_refl eq_refl eq_refl eq_refl).
  split; reflexivity.
Defined.

(** C7 as stated fails: the code looks for the signature in all of the
    file, not in its first bytes.  A [lib.dat] that starts like an image,
    with neither indicator in its first 128 bytes and the letters MZ
    further on, is handed to the loader. *)
Lemma execute_interesting_file_first_bytes_counterexample :
  Str.startswith DispatchExample.late_mz "GIF89a" = true
  /\ Str.contains "MZ" (substring 0 128 DispatchExample.late_mz) = false
  /\ Str.contains "This program cannot be run in DOS mode"
                  (substring 0 128 DispatchExample.late_mz) = false
  /\ result_of (run_in (execute_interesting_file
                          (Sim.env Sim.no_options "DllMain")
                          "C:\out" "lib.dat" "C:\out\lib.dat")
                       DispatchExample.late_mz_world)
     = Return (Some 1)
  /\ launches_of (trace_of (run_in (execute_interesting_file
                                      (Sim.env Sim.no_options "DllMain")
                                      "C:\out" "lib.dat" "C:\out\lib.dat")
                                   DispatchExample.late_mz_world))
     = [("C:\Windows\System32\rundll32.exe",
         Some (DQ +++ "C:\out\lib.dat" +++ DQ +++ ",#1"),
         "C:\out\lib.dat")].
Proof. vm_compute. repeat split; reflexivity. Qed.

(** C1 (what the code does).  On the self-registration path
    [execute_interesting_file] launches nothing: once [regsvr32.exe] has
    been located, building the argument string reads the local [function],
    which only the other branch binds, and the call ends in
    [UnboundLocalError]. *)
Theorem execute_interesting_file_regsvr32_unbound {World Archive Proc}
        (E : Env World Archive Proc) (root file_name file_path : string)
        (st : state World Archive) (regsvr32 : string) :
  Str.endswith_any (Str.lower file_name)
                   [".dll"; ".db"; ".dat"; ".tmp"; ".temp"] = true ->
  (Str.endswith (Str.lower file_name) ".dll" = true
   \/ exists content, read_file E file_path (world st) = inr content
                      /\ any_indicator PE_INDICATORS content = true) ->
  choose_dll_export E file_path (world st) = inr "DllRegisterServer" ->
  get_path E "regsvr32.exe" (world st) = inr regsvr32 ->
  execute_interesting_file E root file_name file_path st
  = (mkState (world st)
       (trace st ++ [EvLog Debug INTERESTING_FORMAT [file_name]]),
     Raise (mkExn UnboundLocalError "function")).
Proof.
  intros Hlib Hcode Hexp Hreg.
  destruct (Dispatch.library_branch _ Hlib) as [H1 [H2 H3]].
  unfold execute_interesting_file, bind, log, emit, query, ret, read_local,
    raise.
  cbn [world trace]. rewrite H1, H2, H3, Hlib.
  destruct Hcode as [Hdll | [content [Hread Hind]]].
  - rewrite Hdll. cbn [negb world trace]. rewrite Hexp, String.eqb_refl.
    cbn [world trace]. rewrite Hreg. reflexivity.
  - destruct (Str.endswith (Str.lower file_name) ".dll");
      cbn [negb world trace]; [|rewrite Hread, Hind; cbn [negb world trace]];
      rewrite Hexp, String.eqb_refl; cbn [world trace]; rewrite Hreg;
      reflexivity.
Qed.

Lemma execute_interesting_file_regsvr32_unbound_witness :
  result_of (run_in (execute_interesting_file
                       (Sim.env Sim.no_options "DllRegisterServer")
                       "C:\out" "plugin.dll" "C:\out\plugin.dll")
                    DispatchExample.dll_world)
  = Raise (mkExn UnboundLocalError "function")
  /\ launches_of (trace_of (run_in (execute_interesting_file
                                      (Sim.env Sim.no_options
                                               "DllRegisterServer")
                                      "C:\out" "plugin.dll"
                                      "C:\out\plugin.dll")
                                   DispatchExample.dll_world))
     = [].
Proof.
  unfold run_in.
  rewrite (execute_interesting_file_regsvr32_unbound
             (Sim.env Sim.no_options "DllRegisterServer")
             "C:\out" "plugin.dll" "C:\out\plugin.dll"
             (mkState DispatchExample.dll_world [])
             (regsvr32 := "C:\Windows\System32\regsvr32.exe")
             eq_refl (or_introl eq_refl) eq_refl eq_refl).
  split; reflexivity.
Defined.

(** The other branch of the same test does launch: with another export
    the loader is started on the file with the default ordinal. *)
Example execute_interesting_file_rundll32 :
  result_of (run_in (execute_interesting_file
                       (Sim.env Sim.no_options "DllMain")
                       "C:\out" "plugin.dll" "C:\out\plugin.dll")
                    DispatchExample.dll_world)
  = Return (Some 1)
  /\ launches_of (trace_of (run_in (execute_interesting_file
                                      (Sim.env Sim.no_options "DllMain")
                                      "C:\out" "plugin.dll"
                                      "C:\out\plugin.dll")
                                   DispatchExample.dll_world))
     = [("C:\Windows\System32\rundll32.exe",
         Some (DQ +++ "C:\out\plugin.dll" +++ DQ +++ ",#1"),
         "C:\out\plugin.dll")].
Proof. vm_compute. split; reflexivity. Qed.

(* ================================================================= *)
(** ** Rules for [hoare] *)

Module HoareRules.

Section Rules.
Variables World Archive : Type.
Variable P : event Archive -> Prop.

Local Abbreviation M := (M World Archive).

Lemma hoare_ret {T} (v : T) (Q : T -> Prop) :
  Q v -> hoare (ret v : M T) P Q.
Proof.
  intros H st. split; [|exact H].
  exists []. cbn. rewrite app_nil_r. auto.
Qed.

Lemma hoare_raise {T} c msg (Q : T -> Prop) : hoare (raise c msg : M T) P Q.
Proof.
  intros st. split; [|exact I].
  exists []. cbn. rewrite app_nil_r. auto.
Qed.

Lemma hoare_emit (ev : event Archive) (Q : unit -> Prop) :
  P ev -> Q tt -> hoare (emit ev : M unit) P Q.
Proof.
  intros H HQ st. split; [|exact HQ].
  exists [ev]. cbn. auto.
Qed.

Lemma hoare_query {T} (f : World -> exn + T) (Q : T -> Prop) :
  (forall w v, f w = inr v -> Q v) -> hoare (query f : M T) P Q.
Proof.
  intros H st. unfold query.
  destruct (f (world st)) as [e|v] eqn:E; cbn; split;
    try (exists []; rewrite app_nil_r; auto); eauto.
Qed.

Lemma hoare_call {T} (f : World -> World * (exn + T)) (Q : T -> Prop) :
  (forall w w' v, f w = (w', inr v) -> Q v) -> hoare (call f : M T) P Q.
Proof.
  intros H st. unfold call.
  destruct (f (world st)) as [w' [e|v]] eqn:E; cbn; split;
    try (exists []; rewrite app_nil_r; auto); eauto.
Qed.

Lemma hoare_bind {T U} (m : M T) (f : T -> M U) (Q : T -> Prop)
      (Q' : U -> Prop) :
  hoare m P Q -> (forall v, Q v -> hoare (f v) P Q') -> hoare (bind m f) P Q'.
Proof.
  intros Hm Hf st. unfold bind.
  destruct (Hm st) as [[evs [Ht Hp]] Hr].
  destruct (m st) as [st' [v|e|]]; cbn in *.
  - destruct (Hf v Hr st') as [[evs' [Ht' Hp']] Hr']. split; [|exact Hr'].
    exists (evs ++ evs'). rewrite Ht', Ht, app_assoc. split; [reflexivity|].
    apply Forall_app. auto.
  - split; [eauto | exact I].
  - contradiction.
Qed.

Lemma find_handler_in {T} (e : exn)
      (handlers : list (exn_class * (exn -> M T))) (h : M T) :
  find_handler e handlers = Some h ->
  exists cls h0, In (cls, h0) handlers /\ h = h0 e.
Proof.
  induction handlers as [|[cls h0] hs IH]; cbn [find_handler]; intros F;
    [discriminate|].
  destruct (is_instance (exn_cls e) cls).
  - inversion F; subst. exists cls, h0. split; [left|]; reflexivity.
  - destruct (IH F) as [cls' [h' [Hin ->]]].
    exists cls', h'. split; [right; assumption | reflexivity].
Qed.

Lemma hoare_try_except {T} (body : M T)
      (handlers : list (exn_class * (exn -> M T))) (Q : T -> Prop) :
  hoare body P Q ->
  (forall cls h e, In (cls, h) handlers -> hoare (h e) P Q) ->
  hoare (try_except body handlers) P Q.
Proof.
  intros Hb Hh st. unfold try_except.
  destruct (Hb st) as [[evs [Ht Hp]] Hr].
  destruct (body st) as [st' [v|e|]]; cbn in *.
  - split; [eauto | exact Hr].
  - destruct (find_handler e handlers) as [h|] eqn:F.
    + assert (Hok : hoare h P Q).
      { apply find_handler_in in F as [cls [h0 [Hin ->]]]. eauto. }
      destruct (Hok st') as [[evs' [Ht' Hp']] Hr']. split; [|exact Hr'].
      exists (evs ++ evs'). rewrite Ht', Ht, app_assoc.
      split; [reflexivity|]. apply Forall_app. auto.
    + cbn. split; [eauto | exact I].
  - contradiction.
Qed.

Lemma hoare_try_finally {T} (body : M T) (cleanup : M unit) (Q : T -> Prop) :
  hoare body P Q -> hoare cleanup P (fun _ => True) ->
  hoare (try_finally body cleanup) P Q.
Proof.
  intros Hb Hc st. unfold try_finally.
  destruct (Hb st) as [[evs [Ht Hp]] Hr].
  destruct (body st) as [st' [v|e|]]; cbn in *; try contradiction;
    destruct (Hc st') as [[evs' [Ht' Hp']] Hr'];
    destruct (cleanup st') as [st'' [u|e'|]]; cbn in *; try contradiction;
    (split; [|auto]);
    exists (evs ++ evs'); rewrite Ht', Ht, app_assoc;
    (split; [reflexivity|]); apply Forall_app; auto.
Qed.

End Rules.

Lemma hoare_weaken {World Archive T} (m : M World Archive T)
      (P P' : event Archive -> Prop) (Q Q' : T -> Prop) :
  hoare m P Q -> (forall ev, P ev -> P' ev) -> (forall v, Q v -> Q' v) ->
  hoare m P' Q'.
Proof.
  intros H HP HQ st. destruct (H st) as [[evs [Ht Hp]] Hr]. split.
  - exists evs. split; [assumption|]. eapply Forall_impl; eauto.
  - destruct (snd (m st)); auto.
Qed.

End HoareRules.

(* ================================================================= *)
(** ** ZIP extraction *)

Module ZipFacts.
Import HoareRules.

Section Facts.
Variables World Archive Proc : Type.
Variable E : Env World Archive Proc.
Variable P : event Archive -> Prop.
Hypothesis P_log : forall l m a, P (EvLog l m a).

Lemma is_overwritten_hoare zip_path :
  hoare (is_overwritten E zip_path) P any_result.
Proof.
  unfold is_overwritten.
  apply hoare_bind with (Q := any_result).
  - apply hoare_query. intros. exact I.
  - intros a _. apply hoare_try_except.
    + apply hoare_ret. exact I.
    + intros cls h e [H | []]. inversion H; subst. apply hoare_raise.
Qed.

Lemma check_encrypted_hoare infos password :
  hoare (check_encrypted (World:=World) (Archive:=Archive) infos password) P
        (fun v => v = effective_password infos password).
Proof.
  revert password. induction infos as [|i infos IH]; intros password;
    cbn [check_encrypted].
  - apply hoare_ret. reflexivity.
  - unfold effective_password in *. cbn [any_encrypted existsb].
    fold (any_encrypted infos).
    destruct (negb (Z.eqb (Z.land (flag_bits i) 1) 0)) eqn:Henc;
      cbn [andb orb].
    + destruct (String.eqb password "") eqn:He; cbn [orb].
      * apply hoare_bind with (Q := any_result);
          [apply hoare_emit; [apply P_log | exact I]|].
        intros _ _. eapply hoare_weaken; [apply IH | auto |].
        intros v ->. rewrite andb_false_r. reflexivity.
      * destruct (String.eqb password "infected") eqn:Hi.
        -- apply hoare_bind with (Q := any_result);
             [apply hoare_emit; [apply P_log | exact I]|].
           intros _ _. eapply hoare_weaken; [apply IH | auto |].
           intros v ->. rewrite He, andb_false_r. reflexivity.
        -- eapply hoare_weaken; [apply IH | auto |].
           intros v ->. rewrite He, andb_false_r. reflexivity.
    + eapply hoare_weaken; [apply IH | auto |]. intros v ->. reflexivity.
Qed.

Lemma extract_members_hoare d a extract_path password :
  P (EvExtractAll d a extract_path password) ->
  hoare (extract_members E d a extract_path password) P any_result.
Proof.
  intros Hx.
  assert (Hall : hoare (extractall E d a extract_path password) P any_result).
  { unfold extractall. apply hoare_bind with (Q := any_result).
    - apply hoare_emit; [assumption | exact I].
    - intros _ _. apply hoare_call. intros. exact I. }
  unfold extract_members. apply hoare_try_except; [assumption|].
  intros cls h e [H | [H | []]]; inversion H; subst.
  - apply hoare_raise.
  - apply hoare_try_except; [assumption|].
    intros cls' h' e' [H' | []]. inversion H'; subst. apply hoare_raise.
Qed.

Lemma try_nested_hoare (recurse : string -> M World Archive unit) name :
  hoare (recurse name) P any_result ->
  hoare (try_nested recurse name) P any_result.
Proof.
  intros Hr. unfold try_nested. apply hoare_try_except; [assumption|].
  intros cls h e [H | [H | []]]; inversion H; subst;
    (apply hoare_emit; [apply P_log | exact I]).
Qed.

Lemma extract_nested_hoare (recurse : string -> M World Archive unit) names :
  (forall name, hoare (recurse name) P any_result) ->
  hoare (extract_nested recurse names) P any_result.
Proof.
  intros Hr. induction names as [|name names IH]; cbn [extract_nested].
  - apply hoare_ret. exact I.
  - apply hoare_bind with (Q := any_result).
    + destruct (Str.endswith name ".zip").
      * apply try_nested_hoare. apply Hr.
      * apply hoare_ret. exact I.
    + intros _ _. exact IH.
Qed.

(** One unfolding of [extract_zip], with the nested calls taken as
    given. *)
Lemma extract_zip_fuel_step fuel zip_path extract_path password d :
  P (EvEnter zip_path d) ->
  (forall s t, P (EvMove s t)) ->
  (forall a, P (EvExtractAll d a extract_path
                  (effective_password (infolist E a) (to_bytes password)))) ->
  ((d < 4)%Z -> fuel <> 0) ->
  (forall fuel' name pw,
     (d < 4)%Z -> fuel = S fuel' ->
     hoare (extract_zip_fuel E fuel' (path_join E extract_path name)
              extract_path pw (d + 1)) P any_result) ->
  hoare (extract_zip_fuel E fuel zip_path extract_path password d)
        P any_result.
Proof.
  intros Henter Hmove Hextract Hfuel Hnested.
  assert (Hbody :
    forall zp,
      hoare
        (bind (query (ZipFile_open E zp))
           (fun archive =>
              bind (check_encrypted (infolist E archive) (to_bytes password))
                (fun pw =>
                   try_finally
                     (extract_members E d archive extract_path pw)
                     (if (d <? 4)%Z then
                        match fuel with
                        | O => out_of_fuel
                        | S fuel' =>
                            extract_nested
                              (fun name =>
                                 extract_zip_fuel E fuel'
                                   (path_join E extract_path name)
                                   extract_path (PwBytes pw) (d + 1))
                              (namelist E archive)
                        end
                      else ret tt))))
        P any_result).
  { intros zp. apply hoare_bind with (Q := any_result);
      [apply hoare_query; intros; exact I|].
    intros archive _. eapply hoare_bind; [apply check_encrypted_hoare|].
    intros pw ->. apply hoare_try_finally.
    - apply extract_members_hoare. apply Hextract.
    - destruct (d <? 4)%Z eqn:Hd; [|apply hoare_ret; exact I].
      apply Z.ltb_lt in Hd. destruct fuel as [|fuel'].
      + exfalso. apply (Hfuel Hd). reflexivity.
      + apply extract_nested_hoare. intros name.
        apply Hnested; [assumption | reflexivity]. }
  destruct fuel as [|fuel']; cbn [extract_zip_fuel];
    (apply hoare_bind with (Q := any_result);
     [apply hoare_emit; [assumption | exact I]|]);
    intros _ _;
    (apply hoare_bind with (Q := any_result);
     [apply is_overwritten_hoare|]);
    intros overwritten _;
    (apply hoare_bind with (Q := any_result); [|intros zp _; apply Hbody]);
    (destruct overwritten; [|apply hoare_ret; exact I]);
    (apply hoare_bind with (Q := any_result);
     [apply hoare_emit; [apply P_log | exact I]|]);
    intros _ _;
    (apply hoare_bind with (Q := any_result);
     [apply hoare_emit; [apply Hmove | exact I]|]);
    intros _ _;
    (apply hoare_bind with (Q := any_result);
     [apply hoare_call; intros; exact I|]);
    intros _ _; apply hoare_ret; exact I.
Qed.

End Facts.

Section Depth.
Variables World Archive Proc : Type.
Variable E : Env World Archive Proc.

Lemma depth_ok_deeper (d : Z) (ev : event Archive) :
  (d < 4)%Z -> depth_ok (d + 1) ev -> depth_ok d ev.
Proof. destruct ev; cbn; lia. Qed.

(** With enough fuel, a call at depth [d] only makes calls at depths
    between [d] and 4 and does not run out of fuel. *)
Lemma extract_zip_fuel_depth fuel zip_path extract_path password d :
  Z.to_nat (4 - d) <= fuel ->
  hoare (extract_zip_fuel E fuel zip_path extract_path password d)
        (depth_ok d) (@any_result unit).
Proof.
  revert zip_path extract_path password d.
  induction fuel as [|fuel IH]; intros zip_path extract_path password d Hf;
    apply extract_zip_fuel_step; cbn [depth_ok]; try exact I; try lia;
    try (intros; exact I); try (intros; lia).
  intros fuel' name pw Hd Hfuel. inversion Hfuel; subst fuel'.
  eapply hoare_weaken; [apply IH; lia | | auto].
  intros ev. apply depth_ok_deeper. assumption.
Qed.

Lemma entries_depth_ok (d : Z) (evs : list (event Archive)) :
  Forall (depth_ok d) evs ->
  Forall (fun e => (d <= snd e)%Z /\ (snd e = d \/ (snd e <= 4)%Z))
         (entries_of evs).
Proof.
  induction 1 as [|ev evs Hev _ IH]; cbn [entries_of]; [constructor|].
  destruct ev; try exact IH. constructor; [exact Hev | exact IH].
Qed.

End Depth.

End ZipFacts.

(** C4.  Started at depth 1, [extract_zip] is only ever entered at depths
    1 to 4 and its recursion always ends; on a chain of five archives the
    calls are those on the first four, the fifth archive ends up on disk
    as a file, what it holds is not unpacked, and the call returns
    normally. *)
Theorem extract_zip_depth_bound {World Archive Proc}
        (E : Env World Archive Proc) (zip_path extract_path : string)
        (password : password_arg) (w : World) :
  (let r := run_in (extract_zip E zip_path extract_path password 1) w in
   Forall (fun e => (1 <= snd e <= 4)%Z) (entries_of (trace_of r))
   /\ result_of r <> OutOfFuel)
  /\ (let r := run_in (extract_zip (Sim.env Sim.no_options "")
                         "C:\in\l1.zip" "C:\out" (PwBytes "infected") 1)
                      Sim.chain_world in
      result_of r = Return tt
      /\ entries_of (trace_of r)
         = [("C:\in\l1.zip", 1%Z); ("C:\out\l2.zip", 2%Z);
            ("C:\out\l3.zip", 3%Z); ("C:\out\l4.zip", 4%Z)]
      /\ Sim.lookup "C:\out\l5.zip" (Sim.files (world_of r))
         = Some Sim.level5
      /\ Sim.lookup "C:\out\payload.exe" (Sim.files (world_of r)) = None).
Proof.
  split.
  - intros r. subst r. unfold run_in, trace_of, result_of, extract_zip.
    destruct (@ZipFacts.extract_zip_fuel_depth World Archive Proc E
                (Z.to_nat (4 - 1)) zip_path extract_path password 1%Z
                (le_n _) (mkState w [])) as [[evs [Ht Hp]] Hr].
    cbn [trace app] in Ht. rewrite Ht. split.
    + apply ZipFacts.entries_depth_ok in Hp.
      eapply Forall_impl; [|exact Hp]. cbn. intros e. lia.
    + intros C. rewrite C in Hr. exact Hr.
  - vm_compute. repeat split; reflexivity.
Qed.

(** C3 (what the code does).  When the opening of the archive in
    [is_overwritten] fails, [extract_zip] ends with the very exception the
    opening raised; nothing turns it into [CuckooPackageError]. *)
Theorem extract_zip_open_failure {World Archive Proc}
        (E : Env World Archive Proc) (zip_path extract_path : string)
        (password : password_arg) (d : Z) (st : state World Archive)
        (e : exn) :
  ZipFile_open E zip_path (world st) = inl e ->
  extract_zip E zip_path extract_path password d st
  = (mkState (world st) (trace st ++ [EvEnter zip_path d]), Raise e).
Proof.
  intros H. unfold extract_zip.
  destruct (Z.to_nat (4 - d)); cbn [extract_zip_fuel];
    unfold is_overwritten; unfold bind, emit, query; cbn [world trace];
    rewrite H; reflexivity.
Qed.


Lemma extract_zip_open_failure_witness :
  Sim.zip_open "C:\in\notes.zip" OpenFailureExample.w
  = inl (mkExn BadZipfile "File is not a zip file")
  /\ result_of (run_in (extract_zip (Sim.env Sim.no_options "")
                          "C:\in\notes.zip" "C:\out" (PwBytes "infected") 1)
                       OpenFailureExample.w)
     = Raise (mkExn BadZipfile "File is not a zip file").
Proof.
  split; [reflexivity|]. unfold run_in.
  rewrite (extract_zip_open_failure (Sim.env Sim.no_options "")
             "C:\in\notes.zip" "C:\out" (PwBytes "infected") 1
             (mkState OpenFailureExample.w [])
             (e := mkExn BadZipfile "File is not a zip file") eq_refl).
  reflexivity.
Defined.

(** The sibling [get_infos] has the opening inside its [try] and does
    turn the failure into [CuckooPackageError]. *)
Example get_infos_open_failure :
  result_of (run_in (get_infos (Sim.env Sim.no_options "") "C:\in\notes.zip")
                    OpenFailureExample.w)
  = Raise (mkExn CuckooPackageError "Invalid Zip file").
Proof. reflexivity. Qed.

(** On a whole archive: the member that is not an archive is skipped with
    a warning and its sibling is still extracted. *)
Example extract_zip_skips_invalid_nested :
  result_of (NestedExample.mixed_run) = Return tt
  /\ entries_of (trace_of NestedExample.mixed_run)
     = [("C:\in\mixed.zip", 1%Z); ("C:\out\junk.zip", 2%Z);
        ("C:\out\second.zip", 2%Z)]
  /\ Sim.lookup "C:\out\b.exe" (Sim.files (world_of NestedExample.mixed_run))
     = Some (Sim.Blob "MZ").
Proof. vm_compute. repeat split; reflexivity. Qed.

(* ================================================================= *)
(** ** Further properties: listing parser *)

Module MoreListing.
Import Regex Str StrFacts RegexFacts.

(** The member lines of a table are read one after the other. *)
Lemma listing_members md (ms : list (string * string)) acc :
  forallb (fun m => member_ok (fst m) (snd m)) ms = true ->
  fold_left (listing_step md) (member_lines ms)
    {| in_table := true; items_under_header := true; file_names := acc |}
  = {| in_table := true; items_under_header := true;
       file_names := acc ++ map (fun m => Some (snd m)) ms |}.
Proof.
  revert acc. induction ms as [|[cols n] ms IH]; intros acc H;
    cbn [member_lines map fold_left forallb fst snd] in *.
  - rewrite app_nil_r. reflexivity.
  - apply andb_true_iff in H as [Hm H].
    rewrite (listing_member md cols n acc Hm).
    fold (member_lines ms). rewrite (IH _ H), <- app_assoc. reflexivity.
Qed.

Lemma member_lines_no_LF (ms : list (string * string)) :
  forallb (fun m => member_ok (fst m) (snd m)) ms = true ->
  forallb no_LF (member_lines ms) = true.
Proof.
  induction ms as [|[cols n] ms IH]; cbn [member_lines map forallb fst snd];
    intros H; [reflexivity|].
  apply andb_true_iff in H as [Hm H].
  rewrite (member_line_no_LF _ _ Hm). apply IH. assumption.
Qed.

(** What a successful search of [FILE_NAME_REGEX] captured. *)
Lemma search_file_name_shape md (line : string) (g : option string) :
  search md false FILE_NAME_REGEX line = Some g -> well_formed_name g.
Proof.
  intros H. apply search_some in H as [p [s [_ H]]].
  unfold FILE_NAME_REGEX in H. cbn [run] in H.
  apply one_of_sound in H as [s1 [t1 [_ [-> H]]]].
  apply one_of_sound in H as [s2 [t2 [_ [-> H]]]].
  apply run_sound in H as [a [b [_ [-> [L Hk]]]]].
  apply one_of_sound in Hk as [v [b' [_ [-> Hk]]]].
  inversion Hk; subst g. rewrite consumed_append.
  apply Listing.name_pattern_shape in L as [H1 H2].
  exists a. auto.
Qed.

Lemma listing_step_shape md (st : listing_state) (line : string) :
  Forall well_formed_name (file_names st) ->
  Forall well_formed_name (file_names (listing_step md st line)).
Proof.
  intros H. unfold listing_step.
  destruct (in_table st).
  - destruct (Str.contains "-----" line); [exact H|].
    destruct (items_under_header st); [|exact H].
    destruct (search md false FILE_NAME_REGEX line) as [g|] eqn:E;
      [|exact H].
    cbn [file_names]. apply Forall_app. split; [exact H|].
    constructor; [|constructor]. eapply search_file_name_shape. exact E.
  - destruct (forallb _ HEADER_WORDS); exact H.
Qed.

Lemma parse_listing_shape md (stdoutput : string) :
  Forall well_formed_name (parse_listing md stdoutput).
Proof.
  unfold parse_listing.
  assert (G : forall lines st,
             Forall well_formed_name (file_names st) ->
             Forall well_formed_name
               (file_names (fold_left (listing_step md) lines st))).
  { induction lines as [|l lines IH]; intros st H; cbn [fold_left];
      [exact H|]. apply IH. apply listing_step_shape. exact H. }
  apply G. constructor.
Qed.

End MoreListing.

(** X1.  When the bytes the tool printed decode to a report whose table
    has, between its two separator lines, any number of member lines the
    parser can read ([member_ok]: the name is accepted by the name
    sub-pattern of [FILE_NAME_REGEX] and preceded by two spaces, and the
    line has no carriage return before its end and no run of five
    dashes), [get_file_names] returns all the member names, in the order
    of the lines. *)
Theorem get_file_names_all_members {World Archive Proc}
        (E : Env World Archive Proc) md
        (seven_zip_path archive_path : string) (w w' : World)
        (stdout stderr : string) (pre post : list string)
        (header sep1 sep2 : string) (members : list (string * string)) :
  subprocess_run E [seven_zip_path; "l"; archive_path] w
  = (w', inr (stdout, stderr)) ->
  bytes_decode E stdout
  = inr (Str.join_lines
           (pre ++ [header; sep1] ++ member_lines members
                ++ [sep2] ++ post)) ->
  forallb (fun l => negb (is_header l)) pre = true ->
  is_header header = true ->
  is_separator sep1 = true ->
  forallb (fun m => member_ok (fst m) (snd m)) members = true ->
  is_separator sep2 = true ->
  forallb (fun l => negb (is_separator l)) post = true ->
  forallb no_LF (pre ++ [header; sep1; sep2] ++ post) = true ->
  result_of (run_in (get_file_names E md seven_zip_path archive_path) w)
  = Return (map (fun m => Some (snd m)) members).
Proof.
  intros Hrun Hdec Hpre Hh Hs1 Hms Hs2 Hpost HLF.
  unfold result_of, run_in, get_file_names, run_tool, log, emit, call, bind,
    query, ret.
  cbn [world trace]. rewrite Hrun. cbn [world trace]. rewrite Hdec.
  cbn [snd]. f_equal.
  unfold parse_listing. rewrite StrFacts.split_join_lines.
  - rewrite fold_left_app, (listing_before_table md pre [] Hpre).
    cbn [app fold_left].
    rewrite (listing_header md header [] Hh).
    rewrite (listing_separator md sep1 false [] Hs1). cbn [negb].
    rewrite fold_left_app, (MoreListing.listing_members md members [] Hms).
    cbn [app fold_left].
    rewrite (listing_separator md sep2 true _ Hs2). cbn [negb].
    rewrite (listing_after_table md post _ Hpost). reflexivity.
  - destruct pre; discriminate.
  - change (Str.none_of (Ascii.eqb Str.LF)) with no_LF.
    rewrite forallb_app in HLF. apply andb_true_iff in HLF as [H1 H2].
    cbn [forallb app andb] in H2.
    apply andb_true_iff in H2 as [Ha H2]. apply andb_true_iff in H2 as [Hb H2].
    apply andb_true_iff in H2 as [Hc H2].
    rewrite !forallb_app. cbn [forallb].
    rewrite H1, Ha, Hb, Hc, H2, (MoreListing.member_lines_no_LF _ Hms).
    reflexivity.
Qed.

Lemma get_file_names_all_members_witness :
  result_of (run_in (get_file_names (Sim.env Sim.no_options "") Regex.Re2
                       "7z.exe" "C:\in\sample.7z")
                    MoreExamples.three_world)
  = Return [Some "a.exe"; Some "sub\b.dll"; Some "read me.txt"].
Proof.
  apply (get_file_names_all_members (Sim.env Sim.no_options "") Regex.Re2
           "7z.exe" "C:\in\sample.7z" MoreExamples.three_world
           (w' := {| Sim.files := []; Sim.tool_script := [] |})
           (stdout := Str.join_lines
                        ([""] ++ [ListingExample.header;
                                  ListingExample.separator]
                              ++ member_lines MoreExamples.three_members
                              ++ [ListingExample.separator]
                              ++ [ListingExample.summary]))
           (stderr := "")
           [""] [ListingExample.summary]
           ListingExample.header ListingExample.separator
           ListingExample.separator MoreExamples.three_members);
    vm_compute; reflexivity.
Defined.

(** X2.  The bytes the tool printed are decoded before anything else:
    when they are not well-formed UTF-8, the error of the decoding leaves
    [get_file_names] as it is; when they decode to a text of which no
    line has all six column words, in particular to the empty text,
    [get_file_names] returns the empty list. *)
Theorem get_file_names_without_header {World Archive Proc}
        (E : Env World Archive Proc) md
        (seven_zip_path archive_path : string) (w w' : World)
        (stdout stderr : string) :
  subprocess_run E [seven_zip_path; "l"; archive_path] w
  = (w', inr (stdout, stderr)) ->
  match bytes_decode E stdout with
  | inl e =>
      result_of (run_in (get_file_names E md seven_zip_path archive_path) w)
      = Raise e
  | inr stdoutput =>
      forallb (fun l => negb (is_header l)) (Str.split_lines stdoutput)
      = true ->
      result_of (run_in (get_file_names E md seven_zip_path archive_path) w)
      = Return []
  end.
Proof.
  intros Hrun.
  unfold result_of, run_in, get_file_names, run_tool, log, emit, call, bind,
    query, ret.
  cbn [world trace]. rewrite Hrun. cbn [world trace].
  destruct (bytes_decode E stdout) as [e|stdoutput]; cbn [snd];
    [reflexivity|].
  intros Hno. f_equal.
  unfold parse_listing. rewrite (listing_before_table md _ [] Hno).
  reflexivity.
Qed.

Lemma get_file_names_without_header_witness :
  result_of (run_in (get_file_names (Sim.env Sim.no_options "") Regex.Re
                       "7z.exe" "C:\in\a.7z")
                    MoreExamples.no_table_world)
  = Return []
  /\ result_of (run_in (get_file_names (Sim.env Sim.no_options "") Regex.Re
                          "7z.exe" "C:\in\a.7z")
                       MoreExamples.latin1_world)
     = Raise (mkExn UnicodeDecodeError "'utf-8' codec can't decode byte").
Proof.
  split.
  - assert (H := get_file_names_without_header (Sim.env Sim.no_options "")
             Regex.Re "7z.exe" "C:\in\a.7z" MoreExamples.no_table_world
             (w' := {| Sim.files := []; Sim.tool_script := [] |})
             (stdout := "ERROR: C:\in\a.7z" +++ String Str.CR "")
             (stderr := "") eq_refl).
    cbv beta iota delta [bytes_decode Sim.env Sim.decode] in H.
    change (Str.utf8 ("ERROR: C:\in\a.7z" +++ String Str.CR ""))
      with true in H.
    exact (H eq_refl).
  - assert (H := get_file_names_without_header (Sim.env Sim.no_options "")
             Regex.Re "7z.exe" "C:\in\a.7z" MoreExamples.latin1_world
             (w' := {| Sim.files := []; Sim.tool_script := [] |})
             (stdout := MoreExamples.latin1_report)
             (stderr := "") eq_refl).
    cbv beta iota delta [bytes_decode Sim.env Sim.decode] in H.
    change (Str.utf8 MoreExamples.latin1_report) with false in H.
    exact H.
Defined.

(** X3.  Whatever the tool prints, every element [get_file_names] returns
    is a name (never [None]) that starts with a name character and
    consists of name characters and single spaces; it has no carriage
    return, line feed or other character outside the bracket expression
    of [FILE_NAME_REGEX]. *)
Theorem get_file_names_well_formed {World Archive Proc}
        (E : Env World Archive Proc) md
        (seven_zip_path archive_path : string) (w : World)
        (names : list (option string)) :
  result_of (run_in (get_file_names E md seven_zip_path archive_path) w)
  = Return names ->
  Forall well_formed_name names.
Proof.
  unfold result_of, run_in, get_file_names, run_tool, log, emit, call, bind,
    query, ret.
  cbn [world trace].
  destruct (subprocess_run E _ w) as [w' [e | [so se]]]; cbn [snd world];
    intros H; [discriminate|].
  destruct (bytes_decode E so) as [e|text]; cbn [snd] in H; [discriminate|].
  inversion H. apply MoreListing.parse_listing_shape.
Qed.

Lemma get_file_names_well_formed_witness :
  Forall well_formed_name
         [Some "a.exe"; Some "sub\b.dll"; Some "read me.txt"].
Proof.
  exact (get_file_names_well_formed (Sim.env Sim.no_options "") Regex.Re
           "7z.exe" "C:\in\sample.7z" MoreExamples.three_world eq_refl).
Defined.

(* ================================================================= *)
(** ** Further properties: file classifier *)

Module MoreClassifier.
Import Regex Str StrFacts RegexFacts.

(** An extension at the end is found under both modules. *)
Lemma suffix_found md (f : string) :
  has_interesting_suffix f = true -> search md true EXE_REGEX f <> None.
Proof.
  unfold has_interesting_suffix, endswith_any. intros H.
  apply existsb_exists in H as [e [Hin H]].
  apply endswith_spec in H as [x H].
  apply lower_tail in H as [p [q [-> Hq]]];
    [|apply Classifier.extensions_ascii; assumption].
  rewrite <- (append_nil_r (p +++ q)).
  apply Classifier.search_exe_regex_found; [|reflexivity].
  apply Classifier.ends_in_extension_spec. exists p, e, q.
  split; [reflexivity|]. split; [assumption|].
  apply Classifier.lower_spelled; [|assumption].
  apply Classifier.extensions_ascii. assumption.
Qed.

Lemma chop_last_snoc (s : string) (c : ascii) :
  chop_last (s +++ String c "") = s.
Proof.
  induction s as [|x s IH]; [reflexivity|].
  cbn [append chop_last]. rewrite IH.
  destruct s; reflexivity.
Qed.

(** Under [re], what is found is an extension at the end or just before
    a final line feed. *)
Lemma search_exe_regex_re (f : string) :
  search Re true EXE_REGEX f <> None <-> kept_by_re f = true.
Proof.
  unfold kept_by_re. split.
  - intros H.
    apply Classifier.search_exe_regex_inv in H as [p [t [b [-> [H Hb]]]]].
    apply Classifier.at_end_cases in Hb as [-> | [_ ->]].
    + rewrite append_nil_r, H. reflexivity.
    + apply orb_true_iff. right.
      rewrite <- append_assoc, chop_last_snoc, H, andb_true_r.
      apply endswith_spec. exists (p +++ t). reflexivity.
  - intros H. apply orb_true_iff in H as [H | H].
    + rewrite <- (append_nil_r f).
      apply Classifier.search_exe_regex_found; [assumption | reflexivity].
    + apply andb_true_iff in H as [Hnl H].
      apply endswith_spec in Hnl as [q ->].
      rewrite chop_last_snoc in H.
      apply Classifier.search_exe_regex_found; [assumption | reflexivity].
Qed.

Lemma filter_twice {A} (t : A -> bool) (l : list A) :
  filter t (filter t l) = filter t l.
Proof.
  induction l as [|x l IH]; [reflexivity|]. cbn [filter].
  destruct (t x) eqn:E; [|exact IH]. cbn [filter]. rewrite E, IH.
  reflexivity.
Qed.

End MoreClassifier.

(** X4.  Under either regular-expression module and for any names at
    all, a name that ends in one of the extensions, whatever the case of
    its letters, is never dropped by [get_interesting_files]. *)
Theorem get_interesting_files_keeps md (names : list string) (f : string) :
  In f names -> has_interesting_suffix f = true ->
  In f (get_interesting_files md names).
Proof.
  intros Hin Hs. rewrite Classifier.get_interesting_files_filter.
  apply filter_In. split; [assumption|].
  assert (H := MoreClassifier.suffix_found md f Hs).
  destruct (Regex.search md true EXE_REGEX f); [reflexivity | congruence].
Qed.

Lemma get_interesting_files_keeps_witness :
  In "Setup.MSI"
     (get_interesting_files Regex.Re2
        ["notes.txt"; "Setup.MSI"; "x" +++ String Str.LF ""]).
Proof.
  apply (get_interesting_files_keeps Regex.Re2
           ["notes.txt"; "Setup.MSI"; "x" +++ String Str.LF ""] "Setup.MSI");
    [right; left; reflexivity | reflexivity].
Defined.

(** X5.  Under the standard [re] module [get_interesting_files] keeps
    exactly the names that end in one of the extensions or in one of the
    extensions followed by a single line feed, in the order of the
    input.  The extension may be written with letters of either case,
    with U+212A for k, with U+017F for s and with U+0130 or U+0131 for
    i ([spellings]). *)
Theorem get_interesting_files_under_re (names : list string) :
  get_interesting_files Regex.Re names = filter kept_by_re names.
Proof.
  rewrite Classifier.get_interesting_files_filter.
  apply filter_ext. intros f.
  assert (S := MoreClassifier.search_exe_regex_re f).
  destruct (Regex.search Regex.Re true EXE_REGEX f) as [g|];
    destruct (kept_by_re f); try reflexivity.
  - assert (C : false = true) by (apply S; discriminate). discriminate.
  - exfalso. apply (proj2 S); reflexivity.
Qed.

(** X6.  [get_interesting_files] decides name by name: the result for a
    concatenation is the concatenation of the results, and filtering a
    result again changes nothing. *)
Theorem get_interesting_files_elementwise md (l1 l2 : list string) :
  get_interesting_files md (l1 ++ l2)
  = get_interesting_files md l1 ++ get_interesting_files md l2
  /\ get_interesting_files md (get_interesting_files md l1)
     = get_interesting_files md l1.
Proof.
  rewrite !Classifier.get_interesting_files_filter. split.
  - apply filter_app.
  - apply MoreClassifier.filter_twice.
Qed.

(* ================================================================= *)
(** ** Further properties: execution dispatcher *)

Module MoreDispatch.
Import HoareRules.

Lemma launches_of_app {Archive} (a b : list (event Archive)) :
  launches_of (a ++ b) = launches_of a ++ launches_of b.
Proof.
  induction a as [|ev a IH]; [reflexivity|].
  destruct ev; cbn [app launches_of]; rewrite IH; reflexivity.
Qed.

Lemma launches_of_silent {Archive} (evs : list (event Archive)) :
  Forall no_launch evs -> launches_of evs = [].
Proof.
  induction 1 as [|ev evs Hev _ IH]; [reflexivity|].
  destruct ev; cbn [launches_of]; try exact IH. destruct Hev.
Qed.

Section Rules.
Variables World Archive Proc : Type.
Variable E : Env World Archive Proc.

Lemma once_launch path args target :
  launches_once E (launch E path args target).
Proof.
  intros st. exists [EvExecute path args target].
  unfold launch, bind, emit, call, ret. cbn [world trace].
  split.
  - destruct (execute E path args target (world st)) as [w' [e|p]];
      reflexivity.
  - right. exists path, args, target, (world st).
    destruct (execute E path args target (world st)) as [w' [e|p]];
      cbn; repeat split.
Qed.

Lemma once_none :
  launches_once E (ret None : M World Archive (option Proc)).
Proof.
  intros st. exists []. cbn. rewrite app_nil_r. split; [reflexivity|].
  left. split; [reflexivity|]. left. reflexivity.
Qed.

Lemma once_bind {T} (m : M World Archive T)
      (f : T -> M World Archive (option Proc)) :
  hoare m no_launch (@any_result T) ->
  (forall v, launches_once E (f v)) ->
  launches_once E (bind m f).
Proof.
  intros Hm Hf st. unfold bind.
  destruct (Hm st) as [[evs [Ht Hs]] Hr].
  apply launches_of_silent in Hs.
  destruct (m st) as [st' [v|e|]]; cbn [fst snd] in *.
  - destruct (Hf v st') as [evs' [Ht' Ho]].
    exists (evs ++ evs'). rewrite Ht', Ht, app_assoc, launches_of_app, Hs.
    cbn [app]. split; [reflexivity | exact Ho].
  - exists evs. split; [exact Ht|]. left. split; [exact Hs|].
    right. exists e. reflexivity.
  - contradiction.
Qed.

End Rules.

(** The suffix lists of the dispatcher are pairwise disjoint where the
    proofs below need it. *)
Lemma script_branch (s : string) :
  Str.endswith_any s [".js"; ".jse"; ".vbs"; ".vbe"; ".wsf"] = true ->
  Str.endswith_any s [".lnk"; ".bat"; ".cmd"] = false
  /\ Str.endswith s ".msi" = false.
Proof.
  intros H. split.
  - revert H. apply Dispatch.disjoint_suffixes_spec. reflexivity.
  - rewrite <- Dispatch.endswith_any_one. revert H.
    apply Dispatch.disjoint_suffixes_spec. reflexivity.
Qed.

Lemma doc_branch (s : string) :
  Str.endswith s ".doc" = true ->
  Str.endswith_any s [".lnk"; ".bat"; ".cmd"] = false
  /\ Str.endswith s ".msi" = false
  /\ Str.endswith_any s [".js"; ".jse"; ".vbs"; ".vbe"; ".wsf"] = false
  /\ Str.endswith_any s [".dll"; ".db"; ".dat"; ".tmp"; ".temp"] = false
  /\ Str.endswith s ".ps1" = false.
Proof.
  rewrite <- (Dispatch.endswith_any_one s ".doc"). intros H.
  repeat split; try rewrite <- Dispatch.endswith_any_one; revert H;
    apply Dispatch.disjoint_suffixes_spec; reflexivity.
Qed.

End MoreDispatch.

(** X7.  Whatever the file and the environment, [execute_interesting_file]
    calls [execute] at most once.  When it does not call it, it returns
    [None] or raises.  When it calls it, the call is the last thing it
    does: what it returns or raises, and the world it leaves, are what
    [execute] returned, raised and left. *)
Theorem execute_interesting_file_launches_once {World Archive Proc}
        (E : Env World Archive Proc) (root file_name file_path : string) :
  launches_once E (execute_interesting_file E root file_name file_path).
Proof.
  unfold execute_interesting_file, read_local.
  repeat first
    [ apply MoreDispatch.once_launch
    | apply MoreDispatch.once_none
    | match goal with
      | |- launches_once _ (if ?c then _ else _) => destruct c
      | |- launches_once _ (match ?x with _ => _ end) => destruct x
      end
    | apply MoreDispatch.once_bind; [|intros]
    | apply HoareRules.hoare_ret; exact I
    | apply HoareRules.hoare_raise
    | apply HoareRules.hoare_query; intros; exact I
    | apply HoareRules.hoare_call; intros; exact I
    | apply HoareRules.hoare_emit; exact I
    | apply HoareRules.hoare_try_except;
      [|intros ? ? ? [Hh | []]; inversion Hh; subst]
    | (apply HoareRules.hoare_bind with (Q := @any_result _); [|intros])
    | match goal with
      | |- hoare (if ?c then _ else _) _ _ => destruct c
      | |- hoare (match ?x with _ => _ end) _ _ => destruct x
      end ].
Qed.

(** X8.  For a file named [.db], [.dat], [.tmp] or [.temp] the content
    check rests on the MZ signature alone: the second indicator is tested
    against what a second [read()] of the same handle returns, which is
    nothing.  A file without the two bytes MZ is not launched even if it
    holds the DOS-mode text. *)
Theorem execute_interesting_file_needs_mz {World Archive Proc}
        (E : Env World Archive Proc) (root file_name file_path : string)
        (st : state World Archive) (content : string) :
  Str.endswith_any (Str.lower file_name) [".db"; ".dat"; ".tmp"; ".temp"]
  = true ->
  read_file E file_path (world st) = inr content ->
  Str.contains "MZ" content = false ->
  execute_interesting_file E root file_name file_path st
  = (mkState (world st)
       (trace st ++ [EvLog Debug INTERESTING_FORMAT [file_name]]),
     Return None).
Proof.
  intros Hext Hread Hmz.
  assert (Hlib : Str.endswith_any (Str.lower file_name)
                   [".dll"; ".db"; ".dat"; ".tmp"; ".temp"] = true).
  { revert Hext. apply Dispatch.endswith_any_incl.
    intros x Hx. right. assumption. }
  destruct (Dispatch.library_branch _ Hlib) as [H1 [H2 H3]].
  assert (Hdll : Str.endswith (Str.lower file_name) ".dll" = false).
  { rewrite <- Dispatch.endswith_any_one. revert Hext.
    apply Dispatch.disjoint_suffixes_spec. reflexivity. }
  unfold execute_interesting_file, bind, log, emit, query, ret.
  cbn [world trace]. rewrite H1, H2, H3, Hlib, Hdll. cbn [negb world trace].
  rewrite Hread. unfold PE_INDICATORS. cbn [any_indicator].
  rewrite Hmz. reflexivity.
Qed.

Lemma execute_interesting_file_needs_mz_witness :
  Str.contains "This program cannot be run in DOS mode"
               "This program cannot be run in DOS mode" = true
  /\ result_of (run_in (execute_interesting_file (Sim.env Sim.no_options "")
                          "C:\out" "cache.tmp" "C:\out\cache.tmp")
                       MoreExamples.dos_text_world)
     = Return None.
Proof.
  split; [reflexivity|]. unfold run_in.
  rewrite (execute_interesting_file_needs_mz (Sim.env Sim.no_options "")
             "C:\out" "cache.tmp" "C:\out\cache.tmp"
             (mkState MoreExamples.dos_text_world [])
             (content := "This program cannot be run in DOS mode")
             eq_refl eq_refl eq_refl).
  reflexivity.
Defined.

(** X9.  A file whose name ends, in any case, in [.js], [.jse], [.vbs],
    [.vbe] or [.wsf] is started through [cmd.exe], which changes to the
    root directory and runs the script host found on the search path on
    the file; no earlier branch of the dispatcher takes it. *)
Theorem execute_interesting_file_script {World Archive Proc}
        (E : Env World Archive Proc) (root file_name file_path : string)
        (st : state World Archive) (cmd wscript : string)
        (w' : World) (p : option Proc) :
  Str.endswith_any (Str.lower file_name)
                   [".js"; ".jse"; ".vbs"; ".vbe"; ".wsf"] = true ->
  get_path E "cmd.exe" (world st) = inr cmd ->
  get_path_app_in_path E "wscript.exe" (world st) = inr wscript ->
  execute E cmd (Some (script_args root wscript file_path)) file_path
          (world st) = (w', inr p) ->
  execute_interesting_file E root file_name file_path st
  = (mkState w'
       (trace st
        ++ [EvLog Debug INTERESTING_FORMAT [file_name];
            EvExecute cmd (Some (script_args root wscript file_path))
                      file_path]),
     Return p).
Proof.
  intros Hext Hcmd Hws Hexec.
  destruct (MoreDispatch.script_branch _ Hext) as [H1 H2].
  unfold execute_interesting_file, launch. unfold bind, log, emit, query,
    call, ret.
  cbn [world trace]. rewrite H1, H2, Hext. cbn [world trace].
  rewrite Hcmd. cbn [world trace]. rewrite Hws. cbn [world trace].
  fold (script_args root wscript file_path). rewrite Hexec.
  cbn [world trace]. rewrite <- app_assoc. reflexivity.
Qed.

Lemma execute_interesting_file_script_witness :
  launches_of
    (trace_of (run_in (execute_interesting_file (Sim.env Sim.no_options "")
                         "C:\out" "payload.JS" "C:\out\payload.JS")
                      MoreExamples.script_world))
  = [("C:\Windows\System32\cmd.exe",
      Some (script_args "C:\out" "C:\Windows\System32\wscript.exe"
                        "C:\out\payload.JS"),
      "C:\out\payload.JS")].
Proof.
  unfold run_in.
  rewrite (execute_interesting_file_script (Sim.env Sim.no_options "")
             "C:\out" "payload.JS" "C:\out\payload.JS"
             (mkState MoreExamples.script_world [])
             (cmd := "C:\Windows\System32\cmd.exe")
             (wscript := "C:\Windows\System32\wscript.exe")
             (w' := MoreExamples.script_world) (p := Some 1)
             eq_refl eq_refl eq_refl eq_refl).
  reflexivity.
Defined.

(** X10.  For a [.doc] file whose word processor cannot be located: when
    that lookup fails with [CuckooPackageError] the viewer is looked up
    instead, and is launched on the file in quiet mode if found, while
    its own lookup error is raised if not; when the first lookup fails
    with any other class of exception, that exception is raised and the
    viewer is not tried.  Nothing is launched in the two failing cases. *)
Theorem execute_interesting_file_doc_fallback {World Archive Proc}
        (E : Env World Archive Proc) (root file_name file_path : string)
        (st : state World Archive) (e : exn) :
  Str.endswith (Str.lower file_name) ".doc" = true ->
  get_path_glob E "WINWORD.EXE" (world st) = inl e ->
  (is_instance (exn_cls e) CuckooPackageError = false ->
   execute_interesting_file E root file_name file_path st
   = (mkState (world st)
        (trace st ++ [EvLog Debug INTERESTING_FORMAT [file_name]]),
      Raise e))
  /\ (is_instance (exn_cls e) CuckooPackageError = true ->
      (forall e2,
         get_path_glob E "WORDVIEW.EXE" (world st) = inl e2 ->
         execute_interesting_file E root file_name file_path st
         = (mkState (world st)
              (trace st ++ [EvLog Debug INTERESTING_FORMAT [file_name]]),
            Raise e2))
      /\ (forall viewer w' p,
            get_path_glob E "WORDVIEW.EXE" (world st) = inr viewer ->
            execute E viewer (Some (DQ +++ file_path +++ DQ +++ " /q"))
                    file_path (world st) = (w', inr p) ->
            execute_interesting_file E root file_name file_path st
            = (mkState w'
                 (trace st
                  ++ [EvLog Debug INTERESTING_FORMAT [file_name];
                      EvExecute viewer
                                (Some (DQ +++ file_path +++ DQ +++ " /q"))
                                file_path]),
               Return p))).
Proof.
  intros Hext Hword.
  destruct (MoreDispatch.doc_branch _ Hext) as [H1 [H2 [H3 [H4 H5]]]].
  unfold execute_interesting_file, launch.
  unfold bind, log, emit, query, call, ret, try_except.
  cbn [world trace find_handler].
  rewrite H1, H2, H3, H4, H5, Hext. cbn [world trace]. rewrite Hword.
  split.
  - intros Hc. rewrite Hc. reflexivity.
  - intros Hc. rewrite Hc. cbn [world trace]. split.
    + intros e2 Hview. rewrite Hview. reflexivity.
    + intros viewer w' p Hview Hexec. rewrite Hview.
      cbn [world trace]. rewrite Hexec. cbn [world trace].
      rewrite <- app_assoc. reflexivity.
Qed.

Lemma execute_interesting_file_doc_fallback_witness :
  launches_of
    (trace_of (run_in (execute_interesting_file MoreExamples.viewer_env
                         "C:\out" "invoice.doc" "C:\out\invoice.doc")
                      MoreExamples.doc_world))
  = [("C:\Program Files\Office\WORDVIEW.EXE",
      Some (DQ +++ "C:\out\invoice.doc" +++ DQ +++ " /q"),
      "C:\out\invoice.doc")].
Proof.
  unfold run_in.
  rewrite (proj2 (proj2 (execute_interesting_file_doc_fallback
                           MoreExamples.viewer_env
                           "C:\out" "invoice.doc" "C:\out\invoice.doc"
                           (mkState MoreExamples.doc_world [])
                           (e := mkExn CuckooPackageError
                                       "Unable to find any WINWORD.EXE")
                           eq_refl eq_refl) eq_refl)
             "C:\Program Files\Office\WORDVIEW.EXE"
             MoreExamples.doc_world (Some 1) eq_refl eq_refl).
  reflexivity.
Defined.

(** X11.  A library whose chosen export is not [DllRegisterServer], with
    a loader name set in the options: the loader found on the search path
    is copied next to itself under that name, and the copy is what gets
    launched, on the quoted file path, the function (ordinal [#1] unless
    the options say otherwise) and the extra arguments if any. *)
Theorem execute_interesting_file_renamed_loader {World Archive Proc}
        (E : Env World Archive Proc) (root file_name file_path : string)
        (st : state World Archive) (export loader name : string)
        (w1 w2 : World) (p : option Proc) :
  Str.endswith (Str.lower file_name) ".dll" = true ->
  choose_dll_export E file_path (world st) = inr export ->
  String.eqb export "DllRegisterServer" = false ->
  get_path_app_in_path E "rundll32.exe" (world st) = inr loader ->
  options E "dllloader" = Some name ->
  name <> "" ->
  shutil_copy E loader (path_join E (path_dirname E loader) name) (world st)
  = (w1, inr tt) ->
  execute E (path_join E (path_dirname E loader) name)
          (Some (dll_arguments file_path
                   (match options E "function" with
                    | Some f => f
                    | None => "#1"
                    end)
                   (options E "arguments")))
          file_path w1
  = (w2, inr p) ->
  execute_interesting_file E root file_name file_path st
  = (mkState w2
       (trace st
        ++ [EvLog Debug INTERESTING_FORMAT [file_name];
            EvCopy loader (path_join E (path_dirname E loader) name);
            EvExecute (path_join E (path_dirname E loader) name)
              (Some (dll_arguments file_path
                       (match options E "function" with
                        | Some f => f
                        | None => "#1"
                        end)
                       (options E "arguments")))
              file_path]),
     Return p).
Proof.
  intros Hdll Hexp Hne Hload Hopt Hname Hcopy Hexec.
  assert (Hlib : Str.endswith_any (Str.lower file_name)
                   [".dll"; ".db"; ".dat"; ".tmp"; ".temp"] = true).
  { apply Dispatch.endswith_any_incl with (xs := [".dll"]).
    - intros x [<- | []]. left. reflexivity.
    - rewrite Dispatch.endswith_any_one. assumption. }
  destruct (Dispatch.library_branch _ Hlib) as [H1 [H2 H3]].
  apply String.eqb_neq in Hname.
  unfold execute_interesting_file, launch, read_local.
  unfold bind, log, emit, query, call, ret.
  cbn [world trace]. rewrite H1, H2, H3, Hlib, Hdll. cbn [negb world trace].
  rewrite Hexp, Hne. cbn [world trace]. rewrite Hload. cbn [world trace].
  rewrite Hopt. unfold truthy at 1. rewrite Hname. cbn [negb world trace].
  rewrite Hcopy. cbn [world trace].
  assert (Hargs :
    match options E "arguments" with
    | Some a =>
        if truthy (options E "arguments")
        then (DQ +++ file_path +++ DQ +++ "," +++
              match options E "function" with
              | Some f => f
              | None => "#1"
              end) +++ " " +++ a
        else DQ +++ file_path +++ DQ +++ "," +++
             match options E "function" with
             | Some f => f
             | None => "#1"
             end
    | None => DQ +++ file_path +++ DQ +++ "," +++
              match options E "function" with
              | Some f => f
              | None => "#1"
              end
    end
    = dll_arguments file_path
        (match options E "function" with Some f => f | None => "#1" end)
        (options E "arguments")).
  { unfold dll_arguments, truthy.
    destruct (options E "arguments") as [a|]; [|reflexivity].
    destruct (String.eqb a ""); reflexivity. }
  rewrite Hargs, Hexec. cbn [world trace].
  rewrite <- !app_assoc. reflexivity.
Qed.

Lemma execute_interesting_file_renamed_loader_witness :
  launches_of
    (trace_of (run_in (execute_interesting_file
                         (Sim.env MoreExamples.loader_options "DllMain")
                         "C:\out" "plugin.dll" "C:\out\plugin.dll")
                      MoreExamples.loader_world))
  = [("C:\Windows\System32\svchost.exe",
      Some (DQ +++ "C:\out\plugin.dll" +++ DQ +++ ",#1 /s"),
      "C:\out\plugin.dll")].
Proof.
  unfold run_in.
  rewrite (execute_interesting_file_renamed_loader
             (Sim.env MoreExamples.loader_options "DllMain")
             "C:\out" "plugin.dll" "C:\out\plugin.dll"
             (mkState MoreExamples.loader_world [])
             (export := "DllMain")
             (loader := "C:\Windows\System32\rundll32.exe")
             (name := "svchost.exe")
             (w1 := MoreExamples.loader_copied)
             (w2 := MoreExamples.loader_copied) (p := Some 1)
             eq_refl eq_refl eq_refl eq_refl eq_refl
             ltac:(discriminate) eq_refl eq_refl).
  reflexivity.
Defined.

(* ================================================================= *)
(** ** Further properties: ZIP extraction *)

Module MoreZip.
Import HoareRules.

Section Facts.
Variables World Archive Proc : Type.
Variable E : Env World Archive Proc.

(** [extract_zip] is its entry event followed by [extract_zip_rest] with
    [nested_calls] as the [finally] block. *)
Lemma extract_zip_fuel_eq fuel zip_path extract_path password d :
  extract_zip_fuel E fuel zip_path extract_path password d
  = bind (emit (EvEnter zip_path d))
         (fun _ => extract_zip_rest E (nested_calls E fuel extract_path d)
                     zip_path extract_path password d).
Proof. destruct fuel; reflexivity. Qed.

(** The loop over the members' flags ends normally with the effective
    password, leaves the world alone and only logs. *)
Lemma check_encrypted_exact infos password (st : state World Archive) :
  exists logs,
    check_encrypted infos password st
    = (mkState (world st) (trace st ++ logs),
       Return (effective_password infos password))
    /\ Forall is_log logs.
Proof.
  revert password st. induction infos as [|i infos IH]; intros password st;
    cbn [check_encrypted].
  - exists []. rewrite app_nil_r. destruct st. split; [reflexivity|constructor].
  - unfold effective_password in *. cbn [any_encrypted existsb].
    fold (any_encrypted infos).
    destruct (negb (Z.eqb (Z.land (flag_bits i) 1) 0)) eqn:Henc;
      cbn [andb orb].
    + destruct (String.eqb password "") eqn:He; cbn [orb].
      * unfold bind, log, emit.
        destruct (IH "infected"
                    (mkState (world st)
                       (trace st ++
                        [EvLog Debug
                           "Archive is encrypted, using default password value: infected"
                           []]))) as [logs [Hc Hl]].
        rewrite Hc. cbn [world trace]. rewrite andb_false_r.
        eexists. rewrite <- app_assoc. split; [reflexivity|].
        constructor; [exact I | exact Hl].
      * destruct (String.eqb password "infected") eqn:Hi.
        -- unfold bind, log, emit.
           destruct (IH password
                       (mkState (world st)
                          (trace st ++
                           [EvLog Debug
                              "Archive is encrypted, using default password value: infected"
                              []]))) as [logs [Hc Hl]].
           rewrite Hc. cbn [world trace]. rewrite He, andb_false_r.
           eexists. rewrite <- app_assoc. split; [reflexivity|].
           constructor; [exact I | exact Hl].
        -- destruct (IH password st) as [logs [Hc Hl]].
           rewrite Hc, He, andb_false_r. eauto.
    + destruct (IH password st) as [logs [Hc Hl]]. rewrite Hc. eauto.
Qed.

(** The extraction attempt: one call of [extractall], or two with the
    same arguments; never a [RuntimeError] at the end. *)
Lemma extract_members_trace d a extract_path pwd (st : state World Archive) :
  exists more,
    trace (fst (extract_members E d a extract_path pwd st))
    = trace st ++ EvExtractAll d a extract_path pwd :: more
    /\ (more = [] \/ more = [EvExtractAll d a extract_path pwd])
    /\ (forall e,
          snd (extract_members E d a extract_path pwd st) = Raise e ->
          is_instance (exn_cls e) RuntimeError = false)
    /\ snd (extract_members E d a extract_path pwd st) <> OutOfFuel.
Proof.
  unfold extract_members, extractall, try_except, bind, emit, call, raise.
  cbn [world trace find_handler].
  destruct (zip_extractall E a extract_path pwd (world st))
    as [w1 [e1|[]]] eqn:H1; cbn [world trace fst snd find_handler].
  - destruct (is_instance (exn_cls e1) BadZipfile) eqn:Hb.
    + exists []. cbn. repeat split; auto; try discriminate.
      intros e He. inversion He. reflexivity.
    + destruct (is_instance (exn_cls e1) RuntimeError) eqn:Hr.
      * cbn [world trace].
        destruct (zip_extractall E a extract_path pwd w1)
          as [w2 [e2|[]]] eqn:H2; cbn [world trace fst snd find_handler].
        -- destruct (is_instance (exn_cls e2) RuntimeError) eqn:Hr2;
             exists [EvExtractAll d a extract_path pwd]; cbn;
             rewrite <- app_assoc; repeat split; auto; try discriminate;
             intros e He; inversion He; subst; auto.
        -- exists [EvExtractAll d a extract_path pwd]. cbn.
           rewrite <- app_assoc. repeat split; auto; discriminate.
      * exists []. cbn. repeat split; auto; try discriminate.
        intros e He. inversion He; subst. assumption.
  - exists []. cbn. repeat split; auto; discriminate.
Qed.

Lemma extractions_of_app (a b : list (event Archive)) :
  extractions_of (a ++ b) = extractions_of a ++ extractions_of b.
Proof.
  induction a as [|ev a IH]; [reflexivity|].
  destruct ev; cbn [app extractions_of]; rewrite ?IH; reflexivity.
Qed.

Lemma entries_of_app (a b : list (event Archive)) :
  entries_of (a ++ b) = entries_of a ++ entries_of b.
Proof.
  induction a as [|ev a IH]; [reflexivity|].
  destruct ev; cbn [app entries_of]; rewrite ?IH; reflexivity.
Qed.

Lemma entries_of_no_enter (evs : list (event Archive)) :
  Forall no_enter evs -> entries_of evs = [].
Proof.
  induction 1 as [|ev evs Hev _ IH]; [reflexivity|].
  destruct ev; cbn [entries_of]; try exact IH. destruct Hev.
Qed.

Variable P : event Archive -> Prop.
Hypothesis P_log : forall l m a, P (EvLog l m a).

(** [extract_zip_rest] keeps what its [finally] block keeps. *)
Lemma extract_zip_rest_hoare
      (finally_block : Archive -> string -> M World Archive unit)
      zip_path extract_path password d :
  P (EvMove zip_path (zip_path +++ ".old")) ->
  (forall a, P (EvExtractAll d a extract_path
                  (effective_password (infolist E a) (to_bytes password)))) ->
  (forall a,
     hoare (finally_block a
              (effective_password (infolist E a) (to_bytes password)))
           P (@any_result unit)) ->
  hoare (extract_zip_rest E finally_block zip_path extract_path password d)
        P (@any_result unit).
Proof.
  intros Hmove Hextract Hfin. unfold extract_zip_rest.
  apply hoare_bind with (Q := @any_result bool);
    [apply ZipFacts.is_overwritten_hoare|].
  intros overwritten _.
  apply hoare_bind with (Q := @any_result string).
  - destruct overwritten; [|apply hoare_ret; exact I].
    apply hoare_bind with (Q := @any_result unit);
      [apply hoare_emit; [apply P_log | exact I]|].
    intros _ _.
    apply hoare_bind with (Q := @any_result unit);
      [apply hoare_emit; [exact Hmove | exact I]|].
    intros _ _.
    apply hoare_bind with (Q := @any_result unit);
      [apply hoare_call; intros; exact I|].
    intros _ _. apply hoare_ret. exact I.
  - intros zp _.
    apply hoare_bind with (Q := @any_result Archive);
      [apply hoare_query; intros; exact I|].
    intros archive _.
    eapply hoare_bind; [apply ZipFacts.check_encrypted_hoare; exact P_log|].
    intros pw ->. apply hoare_try_finally.
    + apply ZipFacts.extract_members_hoare; try exact P_log. apply Hextract.
    + apply Hfin.
Qed.

(** An invariant of the whole recursion: [P] holds of every event when
    it holds of entries, log records, renamings to [.old] and of the
    extractions with a password in [Qp], a set that the normalisation of
    the password does not leave. *)
Lemma extract_zip_fuel_invariant (Qp : string -> Prop) :
  (forall p d, P (EvEnter p d)) ->
  (forall s, P (EvMove s (s +++ ".old"))) ->
  (forall d a path pwd, Qp pwd -> P (EvExtractAll d a path pwd)) ->
  (forall infos pwd, Qp pwd -> Qp (effective_password infos pwd)) ->
  forall fuel zip_path extract_path password d,
    Qp (to_bytes password) ->
    Z.to_nat (4 - d) <= fuel ->
    hoare (extract_zip_fuel E fuel zip_path extract_path password d)
          P (@any_result unit).
Proof.
  intros Henter Hmove Hextract Hclosed fuel.
  induction fuel as [|fuel IH]; intros zip_path extract_path password d Hq Hf;
    rewrite extract_zip_fuel_eq;
    (apply hoare_bind with (Q := @any_result unit);
     [apply hoare_emit; [apply Henter | exact I]|]);
    intros _ _; apply extract_zip_rest_hoare; auto;
    intros a; unfold nested_calls;
    (destruct (d <? 4)%Z eqn:Hd; [|apply hoare_ret; exact I]);
    apply Z.ltb_lt in Hd; [lia|].
  apply ZipFacts.extract_nested_hoare; [exact P_log|].
  intros name. apply IH; [|lia]. cbn [to_bytes]. auto.
Qed.

End Facts.

End MoreZip.

Module MoreZipTrace.
Import HoareRules.

Section Facts.
Variables World Archive Proc : Type.
Variable E : Env World Archive Proc.

Lemma extract_zip_fuel_total fuel zip_path extract_path password d :
  Z.to_nat (4 - d) <= fuel ->
  hoare (extract_zip_fuel E fuel zip_path extract_path password d)
        (fun _ => True) (@any_result unit).
Proof.
  intros Hf.
  eapply MoreZip.extract_zip_fuel_invariant with (Qp := fun _ => True);
    cbn; auto.
Qed.

Lemma nested_calls_total extract_path d a pwd :
  hoare (nested_calls E (Z.to_nat (4 - d)) extract_path d a pwd)
        (fun _ => True) (@any_result unit).
Proof.
  unfold nested_calls. destruct (d <? 4)%Z eqn:Hd;
    [|apply hoare_ret; exact I].
  apply Z.ltb_lt in Hd.
  destruct (Z.to_nat (4 - d)) as [|fuel] eqn:Hf; [lia|].
  apply ZipFacts.extract_nested_hoare; [intros; exact I|].
  intros name. apply extract_zip_fuel_total. lia.
Qed.

(** A [finally] block only adds to the trace its body left. *)
Lemma try_finally_trace {T} (body : M World Archive T)
      (cleanup : M World Archive unit) (st : state World Archive) evs1 :
  trace (fst (body st)) = trace st ++ evs1 ->
  snd (body st) <> OutOfFuel ->
  hoare cleanup (fun _ => True) (@any_result unit) ->
  exists evs2,
    trace (fst (try_finally body cleanup st)) = trace st ++ evs1 ++ evs2.
Proof.
  intros Hb Hnf Hc. unfold try_finally.
  destruct (body st) as [st' [v|e|]]; cbn [fst snd] in *;
    try congruence;
    destruct (Hc st') as [[evs2 [Ht _]] _];
    exists evs2; destruct (cleanup st') as [st'' [u|e'|]];
    cbn [fst] in *; rewrite Ht, Hb, app_assoc; reflexivity.
Qed.

End Facts.

End MoreZipTrace.

(** X12.  Called at depth 4 or more, [extract_zip] makes no recursive
    call at all: the only invocation is the call itself, whatever the
    archive holds. *)
Theorem extract_zip_no_recursion_at_bound {World Archive Proc}
        (E : Env World Archive Proc) (zip_path extract_path : string)
        (password : password_arg) (d : Z) (w : World) :
  (4 <= d)%Z ->
  entries_of (trace_of (run_in (extract_zip E zip_path extract_path
                                            password d) w))
  = [(zip_path, d)].
Proof.
  intros Hd. unfold trace_of, run_in, extract_zip.
  rewrite MoreZip.extract_zip_fuel_eq.
  unfold bind at 1. unfold emit at 1. cbn [world trace app].
  destruct (@MoreZip.extract_zip_rest_hoare World Archive Proc E no_enter
              (fun _ _ _ => I)
              (nested_calls E (Z.to_nat (4 - d)) extract_path d)
              zip_path extract_path password d I (fun _ => I)
              (fun a => ltac:(unfold nested_calls;
                              replace (d <? 4)%Z with false
                                by (symmetry; apply Z.ltb_ge; exact Hd);
                              apply HoareRules.hoare_ret; exact I))
              (mkState w [EvEnter zip_path d]))
    as [[evs [Ht Hs]] _].
  rewrite Ht, MoreZip.entries_of_app, (MoreZip.entries_of_no_enter Hs).
  reflexivity.
Qed.

Lemma extract_zip_no_recursion_at_bound_witness :
  entries_of (trace_of (run_in (extract_zip (Sim.env Sim.no_options "")
                                  "C:\in\l1.zip" "C:\out"
                                  (PwBytes "infected") 4)
                               Sim.chain_world))
  = [("C:\in\l1.zip", 4%Z)].
Proof.
  apply (@extract_zip_no_recursion_at_bound _ _ _
           (Sim.env Sim.no_options "")
           "C:\in\l1.zip" "C:\out" (PwBytes "infected") 4%Z Sim.chain_world).
  lia.
Defined.

(** X13.  At every depth of the recursion, each extraction uses either
    the password the first call was given (encoded) or the default
    [infected]; no other password is ever tried. *)
Theorem extract_zip_given_or_default {World Archive Proc}
        (E : Env World Archive Proc) (zip_path extract_path : string)
        (password : password_arg) (d : Z) (w : World) :
  Forall (fun ev => uses_password (to_bytes password) ev
                    \/ uses_password "infected" ev)
         (trace_of (run_in (extract_zip E zip_path extract_path password d)
                           w)).
Proof.
  unfold trace_of, run_in, extract_zip.
  assert (Hclosed : forall (infos : list ZipInfo) pwd,
             pwd = to_bytes password \/ pwd = "infected" ->
             effective_password infos pwd = to_bytes password
             \/ effective_password infos pwd = "infected").
  { intros infos pwd H. unfold effective_password.
    destruct (any_encrypted infos && String.eqb pwd "");
      [right; reflexivity | exact H]. }
  destruct (@MoreZip.extract_zip_fuel_invariant World Archive Proc E
              (fun ev => uses_password (to_bytes password) ev
                         \/ uses_password "infected" ev)
              (fun _ _ _ => or_introl I)
              (fun p => p = to_bytes password \/ p = "infected")
              (fun _ _ => or_introl I) (fun _ => or_introl I)
              (fun _ _ _ _ H => H)
              Hclosed
              (Z.to_nat (4 - d)) zip_path extract_path password d
              (or_introl eq_refl) (le_n _) (mkState w []))
    as [[evs [Ht Hp]] _].
  cbn [trace app] in Ht. rewrite Ht. exact Hp.
Qed.

(** X14.  A password that is not empty is never replaced: every
    extraction, at every depth of the recursion, uses exactly the password
    the first call was given. *)
Theorem extract_zip_keeps_password {World Archive Proc}
        (E : Env World Archive Proc) (zip_path extract_path : string)
        (password : password_arg) (d : Z) (w : World) :
  to_bytes password <> "" ->
  Forall (uses_password (to_bytes password))
         (trace_of (run_in (extract_zip E zip_path extract_path password d)
                           w)).
Proof.
  intros Hne. unfold trace_of, run_in, extract_zip.
  assert (Hclosed : forall (infos : list ZipInfo) pwd,
             pwd = to_bytes password ->
             effective_password infos pwd = to_bytes password).
  { intros infos pwd ->. unfold effective_password.
    apply String.eqb_neq in Hne. rewrite Hne, andb_false_r. reflexivity. }
  destruct (@MoreZip.extract_zip_fuel_invariant World Archive Proc E
              (uses_password (to_bytes password))
              (fun _ _ _ => I)
              (fun p => p = to_bytes password)
              (fun _ _ => I) (fun _ => I)
              (fun _ _ _ _ H => H)
              Hclosed
              (Z.to_nat (4 - d)) zip_path extract_path password d
              eq_refl (le_n _) (mkState w []))
    as [[evs [Ht Hp]] _].
  cbn [trace app] in Ht. rewrite Ht. exact Hp.
Qed.

Lemma extract_zip_keeps_password_witness :
  extractions_of
    (trace_of (run_in (extract_zip (Sim.env Sim.no_options "")
                         "C:\in\outer.zip" "C:\out" (PwStr "s3cret") 1)
                      Sim.outer_world))
  = ["s3cret"; "s3cret"; "s3cret"]
  /\ Forall (uses_password "s3cret")
            (trace_of (run_in (extract_zip (Sim.env Sim.no_options "")
                                 "C:\in\outer.zip" "C:\out" (PwStr "s3cret") 1)
                              Sim.outer_world)).
Proof.
  split; [reflexivity|].
  apply (@extract_zip_keeps_password _ _ _ (Sim.env Sim.no_options "")
           "C:\in\outer.zip" "C:\out" (PwStr "s3cret") 1%Z Sim.outer_world).
  discriminate.
Defined.

(** X15.  When the archive holds a member named like the archive itself,
    [extract_zip] renames the archive to its name followed by [.old]
    before anything is extracted: if the renaming fails, the call ends
    with that error and nothing has been extracted; if it succeeds, the
    first extraction comes after the renaming and reads the archive
    opened under the new name. *)
Theorem extract_zip_renames_first {World Archive Proc}
        (E : Env World Archive Proc) (zip_path extract_path : string)
        (password : password_arg) (d : Z) (w w1 : World) (a : Archive)
        (moved : exn + unit) :
  ZipFile_open E zip_path w = inr a ->
  existsb (fun name => String.eqb name (path_basename E zip_path))
          (namelist E a) = true ->
  shutil_move E zip_path (zip_path +++ ".old") w = (w1, moved) ->
  (forall e,
     moved = inl e ->
     result_of (run_in (extract_zip E zip_path extract_path password d) w)
     = Raise e
     /\ extractions_of
          (trace_of (run_in (extract_zip E zip_path extract_path password d)
                            w))
        = [])
  /\ (forall a1,
        moved = inr tt ->
        ZipFile_open E (zip_path +++ ".old") w1 = inr a1 ->
        exists logs rest,
          trace_of (run_in (extract_zip E zip_path extract_path password d) w)
          = [EvEnter zip_path d;
             EvLog Debug
               "ZIP file contains a file with the same name, original will be overwritten"
               [];
             EvMove zip_path (zip_path +++ ".old")]
            ++ logs
            ++ EvExtractAll d a1 extract_path
                 (effective_password (infolist E a1) (to_bytes password))
               :: rest
          /\ Forall is_log logs).
Proof.
  intros Hopen Hself Hmove.
  unfold result_of, trace_of, run_in, extract_zip.
  rewrite MoreZip.extract_zip_fuel_eq.
  unfold extract_zip_rest, is_overwritten.
  unfold bind, log, query, call, ret, try_except. unfold emit.
  cbn [world trace app find_handler]. rewrite Hopen. cbn [world trace app].
  rewrite Hself. cbn [world trace app]. rewrite Hmove. split.
  - intros e ->. cbn. auto.
  - intros a1 -> Hopen1. cbn [world trace app]. rewrite Hopen1.
    cbn [world trace app].
    destruct (@MoreZip.check_encrypted_exact World Archive (infolist E a1)
                (to_bytes password)
                (mkState w1
                   [EvEnter zip_path d;
                    EvLog Debug
                      "ZIP file contains a file with the same name, original will be overwritten"
                      [];
                    EvMove zip_path (zip_path +++ ".old")]))
      as [logs [Hc Hl]].
    rewrite Hc. cbn [world trace].
    destruct (MoreZip.extract_members_trace E d a1 extract_path
                (effective_password (infolist E a1) (to_bytes password))
                (mkState w1
                   ([EvEnter zip_path d;
                     EvLog Debug
                       "ZIP file contains a file with the same name, original will be overwritten"
                       [];
                     EvMove zip_path (zip_path +++ ".old")] ++ logs)))
      as [more [Ht [_ [_ Hnf]]]].
    assert (Hfin := @MoreZipTrace.nested_calls_total World Archive Proc E
                      extract_path d a1
                      (effective_password (infolist E a1)
                                          (to_bytes password))).
    destruct (@MoreZipTrace.try_finally_trace World Archive unit
                _ _ _ _ Ht Hnf Hfin) as [evs2 Hall].
    exists logs, (more ++ evs2). split; [|exact Hl].
    rewrite Hall. cbn [trace]. rewrite <- !app_assoc. reflexivity.
Qed.

Lemma extract_zip_renames_first_witness :
  exists logs rest,
    trace_of (run_in (extract_zip (Sim.env Sim.no_options "")
                        "C:\in\selfish.zip" "C:\in" (PwBytes "infected") 1)
                     MoreExamples.selfish_world)
    = [EvEnter "C:\in\selfish.zip" 1%Z;
       EvLog Debug
         "ZIP file contains a file with the same name, original will be overwritten"
         [];
       EvMove "C:\in\selfish.zip" "C:\in\selfish.zip.old"]
      ++ logs
      ++ EvExtractAll 1%Z
           [Sim.Member (Sim.plain "selfish.zip") "" (Sim.Blob "payload")]
           "C:\in" "infected"
         :: rest
    /\ Forall is_log logs.
Proof.
  exact (proj2 (extract_zip_renames_first (Sim.env Sim.no_options "")
                  "C:\in\selfish.zip" "C:\in" (PwBytes "infected") 1
                  MoreExamples.selfish_world
                  (w1 := fst (Sim.move "C:\in\selfish.zip"
                                       "C:\in\selfish.zip.old"
                                       MoreExamples.selfish_world))
                  (a := [Sim.Member (Sim.plain "selfish.zip") ""
                                    (Sim.Blob "payload")])
                  (moved := inr tt)
                  eq_refl eq_refl eq_refl)
               [Sim.Member (Sim.plain "selfish.zip") "" (Sim.Blob "payload")]
               eq_refl eq_refl).
Defined.

(** The bytes of the original survive under the new name while the member
    takes the old one. *)
Example extract_zip_keeps_original :
  Sim.lookup "C:\in\selfish.zip.old"
    (Sim.files (world_of (run_in (extract_zip (Sim.env Sim.no_options "")
                                    "C:\in\selfish.zip" "C:\in"
                                    (PwBytes "infected") 1)
                                 MoreExamples.selfish_world)))
  = Some MoreExamples.selfish
  /\ Sim.lookup "C:\in\selfish.zip"
       (Sim.files (world_of (run_in (extract_zip (Sim.env Sim.no_options "")
                                       "C:\in\selfish.zip" "C:\in"
                                       (PwBytes "infected") 1)
                                    MoreExamples.selfish_world)))
     = Some (Sim.Blob "payload").
Proof. vm_compute. split; reflexivity. Qed.

(** X16.  The extraction attempt of lines 221-230 hands the archive's
    [extractall] the destination and the password it was given.  With
    [r1] what that call answers and [w1] the world it leaves: success ends
    the attempt; [BadZipfile] is replaced by
    [CuckooPackageError("Invalid Zip file")]; a [RuntimeError] leads to
    exactly one more call, with the same archive, destination and
    password, in the world [w1], whose own [RuntimeError] is replaced by
    [CuckooPackageError] carrying its message and whose other outcomes
    are passed on; any other exception is passed on without a second
    call. *)
Theorem extract_members_at_most_twice {World Archive Proc}
        (E : Env World Archive Proc) (d : Z) (a : Archive)
        (extract_path pwd : string) (st : state World Archive)
        (w1 : World) (r1 : exn + unit) :
  zip_extractall E a extract_path pwd (world st) = (w1, r1) ->
  extract_members E d a extract_path pwd st
  = match r1 with
    | inr _ =>
        (mkState w1 (trace st ++ [EvExtractAll d a extract_path pwd]),
         Return tt)
    | inl e1 =>
        if is_instance (exn_cls e1) BadZipfile then
          (mkState w1 (trace st ++ [EvExtractAll d a extract_path pwd]),
           Raise (mkExn CuckooPackageError "Invalid Zip file"))
        else if is_instance (exn_cls e1) RuntimeError then
          (mkState (fst (zip_extractall E a extract_path pwd w1))
             (trace st ++ [EvExtractAll d a extract_path pwd;
                           EvExtractAll d a extract_path pwd]),
           match snd (zip_extractall E a extract_path pwd w1) with
           | inr _ => Return tt
           | inl e2 =>
               if is_instance (exn_cls e2) RuntimeError
               then Raise (mkExn CuckooPackageError
                             ("Unable to extract Zip file: " +++ exn_msg e2))
               else Raise e2
           end)
        else
          (mkState w1 (trace st ++ [EvExtractAll d a extract_path pwd]),
           Raise e1)
    end.
Proof.
  intros H1.
  unfold extract_members, extractall, try_except, bind, emit, call, raise.
  cbn [world trace find_handler]. rewrite H1.
  destruct r1 as [e1|[]]; cbn [world trace fst snd find_handler];
    [|reflexivity].
  destruct (is_instance (exn_cls e1) BadZipfile); [reflexivity|].
  destruct (is_instance (exn_cls e1) RuntimeError); [|reflexivity].
  cbn [world trace].
  destruct (zip_extractall E a extract_path pwd w1) as [w2 [e2|[]]];
    cbn [world trace fst snd find_handler]; rewrite <- app_assoc;
    cbn [app]; [|reflexivity].
  destruct (is_instance (exn_cls e2) RuntimeError); reflexivity.
Qed.

Lemma extract_members_at_most_twice_witness :
  extract_members (Sim.env Sim.no_options "") 1 PasswordExample.members
                  "C:\out" "guess" (mkState PasswordExample.w [])
  = (mkState PasswordExample.w
       [EvExtractAll 1 PasswordExample.members "C:\out" "guess";
        EvExtractAll 1 PasswordExample.members "C:\out" "guess"],
     Raise (mkExn CuckooPackageError
              "Unable to extract Zip file: Bad password for file")).
Proof.
  rewrite (@extract_members_at_most_twice _ _ _ (Sim.env Sim.no_options "")
             1%Z PasswordExample.members "C:\out" "guess"
             (mkState PasswordExample.w []) PasswordExample.w
             (inl (mkExn RuntimeError "Bad password for file")) eq_refl).
  reflexivity.
Defined.

(** X17.  [get_infos] leaves the world and the trace as they are.  It
    returns the member list of the archive when the opening succeeds; a
    [BadZipfile] from the opening is replaced by
    [CuckooPackageError("Invalid Zip file")]; any other exception of the
    opening is passed on. *)
Theorem get_infos_wraps_bad_zip {World Archive Proc}
        (E : Env World Archive Proc) (zip_path : string)
        (st : state World Archive) :
  get_infos E zip_path st
  = (st,
     match ZipFile_open E zip_path (world st) with
     | inr a => Return (infolist E a)
     | inl e =>
         if is_instance (exn_cls e) BadZipfile
         then Raise (mkExn CuckooPackageError "Invalid Zip file")
         else Raise e
     end).
Proof.
  unfold get_infos, try_except, bind, query, ret, raise.
  destruct (ZipFile_open E zip_path (world st)) as [e|a];
    cbn [fst snd find_handler]; [|reflexivity].
  destruct (is_instance (exn_cls e) BadZipfile); reflexivity.
Qed.

Module MoreUpload.

Lemma all_exceptions (c : exn_class) : is_instance c Exception = true.
Proof. destruct c; reflexivity. Qed.

Lemma info_logs_of_app {Archive} (a b : list (event Archive)) :
  info_logs_of (a ++ b) = info_logs_of a ++ info_logs_of b.
Proof.
  induction a as [|ev a IH]; [reflexivity|].
  destruct ev as [[] | | | | | | | ]; cbn [app info_logs_of]; rewrite ?IH;
    reflexivity.
Qed.

Lemma warnings_of_app {Archive} (a b : list (event Archive)) :
  warnings_of (a ++ b) = warnings_of a + warnings_of b.
Proof.
  induction a as [|ev a IH]; [reflexivity|].
  destruct ev as [[] | | | | | | | ]; cbn [app warnings_of]; rewrite ?IH;
    reflexivity.
Qed.

(** One entry: its path is announced, and whatever goes wrong ends in
    one warning. *)
Lemma upload_entry_spec {World Archive Proc} (E : Env World Archive Proc)
      (U : Uplink World) (root entry : string) (st : state World Archive) :
  exists evs,
    trace (fst (upload_entry E U root entry st)) = trace st ++ evs
    /\ snd (upload_entry E U root entry st) = Return tt
    /\ info_logs_of evs = [[path_join E root entry]]
    /\ warnings_of evs <= 1.
Proof.
  unfold upload_entry, try_except, bind, log, query, call. unfold emit.
  cbn [world trace].
  destruct (hash_file U (path_join E root entry) (world st)) as [e|digest];
    cbn [world trace fst snd find_handler].
  - rewrite all_exceptions. cbn [world trace fst snd].
    eexists. rewrite <- app_assoc. split; [reflexivity|].
    cbn. auto.
  - destruct (upload_to_host U (path_join E root entry) ("files/" +++ digest)
                (Path_name U entry) (world st)) as [w' [e|[]]];
      cbn [world trace fst snd find_handler].
    + rewrite all_exceptions. cbn [world trace fst snd].
      eexists. rewrite <- app_assoc. split; [reflexivity|].
      cbn. auto.
    + eexists. split; [reflexivity|]. cbn. auto.
Qed.

End MoreUpload.

(** X18.  [upload_extracted_files] never raises: every entry is announced,
    in order, by one record at level [Info] with the entry's path under
    the root, a failure to hash or to upload an entry costs one warning
    and the loop goes on with the next entry. *)
Theorem upload_extracted_files_never_raises {World Archive Proc}
        (E : Env World Archive Proc) (U : Uplink World)
        (root : string) (files_at_root : list string) (w : World) :
  result_of (run_in (upload_extracted_files E U root files_at_root) w)
  = Return tt
  /\ info_logs_of
       (trace_of (run_in (upload_extracted_files E U root files_at_root) w))
     = map (fun entry => [path_join E root entry]) files_at_root
  /\ warnings_of
       (trace_of (run_in (upload_extracted_files E U root files_at_root) w))
     <= length files_at_root.
Proof.
  unfold result_of, trace_of, run_in.
  assert (G : forall files (st : state World Archive),
             exists evs,
               trace (fst (upload_extracted_files E U root files st))
               = trace st ++ evs
               /\ snd (upload_extracted_files E U root files st) = Return tt
               /\ info_logs_of evs
                  = map (fun entry => [path_join E root entry]) files
               /\ warnings_of evs <= length files).
  { induction files as [|entry files IH]; intros st;
      cbn [upload_extracted_files].
    - exists []. cbn. rewrite app_nil_r. auto.
    - unfold bind.
      destruct (MoreUpload.upload_entry_spec E U root entry st)
        as [evs1 [Ht1 [Hr1 [Hi1 Hw1]]]].
      destruct (upload_entry E U root entry st) as [st1 o1].
      cbn [fst snd] in *. subst o1.
      destruct (IH st1) as [evs2 [Ht2 [Hr2 [Hi2 Hw2]]]].
      exists (evs1 ++ evs2). rewrite Ht2, Ht1, app_assoc.
      rewrite MoreUpload.info_logs_of_app, MoreUpload.warnings_of_app,
        Hi1, Hi2.
      cbn [map app length]. repeat split; auto. lia. }
  destruct (G files_at_root (mkState w [])) as [evs [Ht [Hr [Hi Hw]]]].
  cbn [trace app] in Ht. rewrite Ht. auto.
Qed.

Module MoreFinally.
Import HoareRules.

Section Facts.
Variables World Archive Proc : Type.
Variable E : Env World Archive Proc.

(** A computation that only adds to the trace keeps what is in it. *)
Lemma hoare_keeps {T} (m : M World Archive T) P Q (st : state World Archive)
      (ev : event Archive) :
  hoare m P Q -> In ev (trace st) -> In ev (trace (fst (m st))).
Proof.
  intros H Hin. destruct (H st) as [[evs [Ht _]] _].
  rewrite Ht. apply in_or_app. left. assumption.
Qed.

(** Members that are not [.zip] files are passed over. *)
Lemma extract_nested_skip (recurse : string -> M World Archive unit)
      (pre rest : list string) (st : state World Archive) :
  forallb (fun name => negb (Str.endswith name ".zip")) pre = true ->
  extract_nested recurse (pre ++ rest) st = extract_nested recurse rest st.
Proof.
  induction pre as [|name pre IH]; cbn [forallb app extract_nested];
    intros H; [reflexivity|].
  apply andb_true_iff in H as [Hn H]. apply negb_true_iff in Hn.
  rewrite Hn. unfold bind at 1. cbn. apply IH. assumption.
Qed.

(** A recursive call records its entry first and keeps it. *)
Lemma extract_zip_fuel_enters fuel zip_path extract_path password d
      (st : state World Archive) :
  Z.to_nat (4 - d) <= fuel ->
  In (EvEnter zip_path d)
     (trace (fst (extract_zip_fuel E fuel zip_path extract_path password d
                    st))).
Proof.
  intros Hf. rewrite MoreZip.extract_zip_fuel_eq.
  unfold bind at 1. unfold emit at 1. cbn [world trace].
  eapply hoare_keeps.
  - apply MoreZip.extract_zip_rest_hoare with (P := fun _ => True); auto.
    intros a. unfold nested_calls.
    destruct (d <? 4)%Z eqn:Hd; [|apply hoare_ret; exact I].
    apply Z.ltb_lt in Hd. destruct fuel as [|fuel']; [lia|].
    apply ZipFacts.extract_nested_hoare; [intros; exact I|].
    intros name. apply MoreZipTrace.extract_zip_fuel_total. lia.
  - cbn [trace]. apply in_or_app. right. left. reflexivity.
Qed.

(** The loop reaches its first [.zip] member and enters it. *)
Lemma extract_nested_first_zip fuel extract_path pwd d
      (pre post : list string) (name : string) (st : state World Archive) :
  Z.to_nat (4 - (d + 1)) <= fuel ->
  forallb (fun n => negb (Str.endswith n ".zip")) pre = true ->
  Str.endswith name ".zip" = true ->
  In (EvEnter (path_join E extract_path name) (d + 1))
     (trace (fst (extract_nested
                    (fun n =>
                       extract_zip_fuel E fuel (path_join E extract_path n)
                         extract_path (PwBytes pwd) (d + 1))
                    (pre ++ name :: post) st))).
Proof.
  intros Hf Hpre Hzip. rewrite (extract_nested_skip _ _ _ _ Hpre).
  cbn [extract_nested]. rewrite Hzip.
  assert (Hin := @extract_zip_fuel_enters fuel
                   (path_join E extract_path name)
                   extract_path (PwBytes pwd) (d + 1)%Z st Hf).
  assert (Htry :
    In (EvEnter (path_join E extract_path name) (d + 1))
       (trace (fst (try_nested
                      (fun n =>
                         extract_zip_fuel E fuel (path_join E extract_path n)
                           extract_path (PwBytes pwd) (d + 1))
                      name st)))).
  { unfold try_nested, try_except.
    destruct (extract_zip_fuel E fuel (path_join E extract_path name)
                extract_path (PwBytes pwd) (d + 1) st) as [st1 [u|e|]];
      cbn [fst] in *; try assumption.
    cbn [find_handler].
    destruct (is_instance (exn_cls e) BadZipfile);
      [|destruct (is_instance (exn_cls e) RuntimeError)];
      cbn [fst]; try assumption;
      unfold log, emit; cbn [fst trace]; apply in_or_app; left; assumption. }
  unfold bind.
  destruct (try_nested _ name st) as [st2 [u|e|]]; cbn [fst] in *;
    try assumption.
  eapply hoare_keeps; [|exact Htry].
  apply ZipFacts.extract_nested_hoare with (P := fun _ => True);
    [intros; exact I|].
  intros n. apply MoreZipTrace.extract_zip_fuel_total. assumption.
Qed.

End Facts.

End MoreFinally.

Lemma entries_of_enter {Archive} (tr : list (event Archive)) p d :
  In (EvEnter p d) tr -> In (p, d) (entries_of tr).
Proof.
  induction tr as [|ev tr IH]; intros H; [destruct H|].
  destruct H as [-> | H].
  - left. reflexivity.
  - destruct ev; cbn [entries_of]; try (apply IH; assumption).
    right. apply IH. assumption.
Qed.

(** X19.  Below the depth bound, the first member whose name ends in
    [.zip] is visited whether or not the extraction of the archive itself
    succeeded: the nested loop sits in the [finally] block, so a wrong
    password or a damaged member of the parent does not keep
    [extract_zip] from entering the nested archive. *)
Theorem extract_zip_visits_nested_in_finally {World Archive Proc}
        (E : Env World Archive Proc) (zip_path extract_path : string)
        (password : password_arg) (d : Z) (w : World) (a : Archive)
        (pre post : list string) (name : string) :
  (d < 4)%Z ->
  ZipFile_open E zip_path w = inr a ->
  existsb (fun n => String.eqb n (path_basename E zip_path)) (namelist E a)
  = false ->
  namelist E a = pre ++ name :: post ->
  forallb (fun n => negb (Str.endswith n ".zip")) pre = true ->
  Str.endswith name ".zip" = true ->
  In (path_join E extract_path name, (d + 1)%Z)
     (entries_of (trace_of (run_in (extract_zip E zip_path extract_path
                                                password d) w))).
Proof.
  intros Hd Hopen Hself Hnames Hpre Hzip.
  apply entries_of_enter.
  unfold trace_of, run_in, extract_zip.
  rewrite MoreZip.extract_zip_fuel_eq.
  unfold extract_zip_rest, is_overwritten.
  unfold bind, log, query, call, ret, try_except. unfold emit.
  cbn [world trace app find_handler]. rewrite Hopen. cbn [world trace app].
  rewrite Hself. cbn [world trace app]. rewrite Hopen. cbn [world trace app].
  destruct (@MoreZip.check_encrypted_exact World Archive (infolist E a)
              (to_bytes password) (mkState w [EvEnter zip_path d]))
    as [logs [Hc _]].
  rewrite Hc. cbn [world trace]. unfold try_finally.
  destruct (MoreZip.extract_members_trace E d a extract_path
              (effective_password (infolist E a) (to_bytes password))
              (mkState w ([EvEnter zip_path d] ++ logs)))
    as [more [_ [_ [_ Hnf]]]].
  assert (Hloop : forall st3 : state World Archive,
             In (EvEnter (path_join E extract_path name) (d + 1))
                (trace (fst (nested_calls E (Z.to_nat (4 - d)) extract_path d
                               a (effective_password (infolist E a)
                                    (to_bytes password)) st3)))).
  { intros st3. unfold nested_calls.
    replace (d <? 4)%Z with true by (symmetry; apply Z.ltb_lt; exact Hd).
    destruct (Z.to_nat (4 - d)) as [|fuel] eqn:Hf; [lia|].
    rewrite Hnames.
    apply MoreFinally.extract_nested_first_zip; try assumption. lia. }
  destruct (extract_members E d a extract_path _ _) as [st3 [u|e|]];
    cbn [snd] in Hnf; try congruence;
    specialize (Hloop st3);
    destruct (nested_calls E (Z.to_nat (4 - d)) extract_path d a _ st3)
      as [st4 [u'|e'|]]; cbn [fst] in *; exact Hloop.
Qed.

Lemma extract_zip_visits_nested_in_finally_witness :
  result_of (run_in (extract_zip (Sim.env Sim.no_options "")
                       "C:\in\mixed.zip" "C:\out" (PwBytes "infected") 1)
                    MoreExamples.locked_parent_world)
  = Raise (mkExn CuckooPackageError
             "Unable to extract Zip file: Bad password for file")
  /\ In ("C:\out\inner.zip", 2%Z)
        (entries_of
           (trace_of (run_in (extract_zip (Sim.env Sim.no_options "")
                                "C:\in\mixed.zip" "C:\out"
                                (PwBytes "infected") 1)
                             MoreExamples.locked_parent_world))).
Proof.
  split; [reflexivity|].
  apply (@extract_zip_visits_nested_in_finally _ _ _
           (Sim.env Sim.no_options "")
           "C:\in\mixed.zip" "C:\out" (PwBytes "infected") 1%Z
           MoreExamples.locked_parent_world
           MoreExamples.locked_parent_members
           ["readme.txt"] ["secret.bin"] "inner.zip");
    reflexivity.
Defined.

(** X20.  [extract_archive] deletes nothing but the destination tree, and
    at most once: a deletion happens only when the tool is run a second
    time and the destination does not match the local-temp pattern.  When
    the tool cannot be started, its error leaves the function unchanged
    and nothing has been deleted. *)
Theorem extract_archive_removes_only_destination {World Archive Proc}
        (E : Env World Archive Proc)
        (seven_zip_path archive_path extract_path password : string)
        (w : World) :
  (rmtrees_of (trace_of (run_in (extract_archive E seven_zip_path archive_path
                                                 extract_path password) w))
   = []
   \/ (rmtrees_of (trace_of (run_in (extract_archive E seven_zip_path
                                       archive_path extract_path password) w))
       = [extract_path]
       /\ length (runs_of (trace_of (run_in (extract_archive E seven_zip_path
                                               archive_path extract_path
                                               password) w)))
          = 2
       /\ Path_match E extract_path "local\temp" = false))
  /\ (forall w1 e,
        subprocess_run E
          (tool_argv seven_zip_path "-p" extract_path archive_path) w
        = (w1, inl e) ->
        result_of (run_in (extract_archive E seven_zip_path archive_path
                                           extract_path password) w)
        = Raise e
        /\ world_of (run_in (extract_archive E seven_zip_path archive_path
                                             extract_path password) w)
           = w1
        /\ rmtrees_of (trace_of (run_in (extract_archive E seven_zip_path
                                           archive_path extract_path
                                           password) w))
           = []).
Proof.
  unfold tool_argv.
  unfold run_in, trace_of, result_of, world_of, extract_archive, run_tool,
    log, emit, call, bind, ret, raise.
  cbn [world trace app].
  destruct (subprocess_run E
              [seven_zip_path; "x"; "-p"; "-y"; "-o" +++ extract_path;
               archive_path] w) as [w1 [e | [so1 se1]]] eqn:H1;
    cbn [world trace app fst snd].
  - split; [left; reflexivity|].
    intros w1' e' H. inversion H; subst. repeat split.
  - split; [|intros w1' e' H; discriminate H].
    destruct (Str.contains "Wrong password" se1) eqn:Hwp.
    + destruct (Path_match E extract_path "local\temp") eqn:Hm;
        cbn [negb world trace];
        match goal with
        | |- context [subprocess_run E ?argv ?w'] =>
            destruct (subprocess_run E argv w') as [w2 [e | [so2 se2]]]
        end;
        cbn [world trace fst];
        try (destruct (Str.contains "Wrong password" se2));
        cbn; auto.
    + left.
      destruct (Str.contains "Can not open the file as archive" so1);
        reflexivity.
Qed.

(* ================================================================= *)
(** ** The steps of one [extract_zip] call *)

Module ZipSteps.

Lemma runtime_not_bad_zip (c : exn_class) :
  is_instance c RuntimeError = true -> is_instance c BadZipfile = false.
Proof. destruct c; cbn; congruence. Qed.

Lemma extractions_of_logs {Archive} (logs : list (event Archive)) :
  Forall is_log logs -> extractions_of logs = [].
Proof.
  induction 1 as [|ev logs Hev _ IH]; [reflexivity|].
  destruct ev; cbn [extractions_of]; try exact IH. destruct Hev.
Qed.

Lemma entries_of_logs {Archive} (logs : list (event Archive)) :
  Forall is_log logs -> entries_of logs = [].
Proof.
  induction 1 as [|ev logs Hev _ IH]; [reflexivity|].
  destruct ev; cbn [entries_of]; try exact IH. destruct Hev.
Qed.

Section Facts.
Variables World Archive Proc : Type.
Variable E : Env World Archive Proc.

(** A [finally] block after a body that returned ... *)
Lemma try_finally_return (body cleanup : M World Archive unit)
      (st st' : state World Archive) :
  body st = (st', Return tt) -> try_finally body cleanup st = cleanup st'.
Proof.
  intros H. unfold try_finally. rewrite H.
  destruct (cleanup st') as [st'' [[]|e|]]; reflexivity.
Qed.

(** ... and after a body that raised. *)
Lemma try_finally_raise (body cleanup : M World Archive unit)
      (st st' : state World Archive) (e : exn) :
  body st = (st', Raise e) ->
  try_finally body cleanup st
  = (fst (cleanup st'),
     match snd (cleanup st') with
     | Return _ => Raise e
     | r => r
     end).
Proof.
  intros H. unfold try_finally. rewrite H.
  destruct (cleanup st') as [st'' [[]|e'|]]; reflexivity.
Qed.

(** The extraction attempt of lines 221-230, case by case. *)
Lemma extract_members_eq (d : Z) (a : Archive) (extract_path pwd : string)
      (st : state World Archive) (w1 : World) (r1 : exn + unit) :
  zip_extractall E a extract_path pwd (world st) = (w1, r1) ->
  extract_members E d a extract_path pwd st
  = match r1 with
    | inr _ =>
        (mkState w1 (trace st ++ [EvExtractAll d a extract_path pwd]),
         Return tt)
    | inl e1 =>
        if is_instance (exn_cls e1) BadZipfile then
          (mkState w1 (trace st ++ [EvExtractAll d a extract_path pwd]),
           Raise (mkExn CuckooPackageError "Invalid Zip file"))
        else if is_instance (exn_cls e1) RuntimeError then
          (mkState (fst (zip_extractall E a extract_path pwd w1))
             (trace st ++ [EvExtractAll d a extract_path pwd;
                           EvExtractAll d a extract_path pwd]),
           match snd (zip_extractall E a extract_path pwd w1) with
           | inr _ => Return tt
           | inl e2 =>
               if is_instance (exn_cls e2) RuntimeError
               then Raise (mkExn CuckooPackageError
                             ("Unable to extract Zip file: " +++ exn_msg e2))
               else Raise e2
           end)
        else
          (mkState w1 (trace st ++ [EvExtractAll d a extract_path pwd]),
           Raise e1)
    end.
Proof.
  intros H1.
  unfold extract_members, extractall, try_except, bind, emit, call, raise.
  cbn [world trace find_handler]. rewrite H1.
  destruct r1 as [e1|[]]; cbn [world trace fst snd find_handler];
    [|reflexivity].
  destruct (is_instance (exn_cls e1) BadZipfile); [reflexivity|].
  destruct (is_instance (exn_cls e1) RuntimeError); [|reflexivity].
  cbn [world trace].
  destruct (zip_extractall E a extract_path pwd w1) as [w2 [e2|[]]];
    cbn [world trace fst snd find_handler]; rewrite <- app_assoc;
    cbn [app]; [|reflexivity].
  destruct (is_instance (exn_cls e2) RuntimeError); reflexivity.
Qed.

(** Lines 196-219: up to the extraction.  With [a0] the archive as
    [is_overwritten] opens it, the call goes on with the archive [a]
    opened in the world [w0]: the same archive in the same world, or,
    when a member has the archive's own name, the archive found under
    the [.old] name once it has been moved there. *)
Lemma extract_zip_fuel_start fuel zip_path extract_path password d
      (st : state World Archive) (a0 a : Archive) (w0 : World) :
  ZipFile_open E zip_path (world st) = inr a0 ->
  (if existsb (fun n => String.eqb n (path_basename E zip_path))
              (namelist E a0)
   then shutil_move E zip_path (zip_path +++ ".old") (world st)
        = (w0, inr tt)
        /\ ZipFile_open E (zip_path +++ ".old") w0 = inr a
   else w0 = world st /\ a = a0) ->
  exists before,
    extractions_of before = []
    /\ entries_of before = [(zip_path, d)]
    /\ extract_zip_fuel E fuel zip_path extract_path password d st
       = try_finally
           (extract_members E d a extract_path
              (effective_password (infolist E a) (to_bytes password)))
           (nested_calls E fuel extract_path d a
              (effective_password (infolist E a) (to_bytes password)))
           (mkState w0 (trace st ++ before)).
Proof.
  intros Hopen Hcase. rewrite MoreZip.extract_zip_fuel_eq.
  unfold extract_zip_rest, is_overwritten.
  unfold bind, log, query, call, ret, try_except. unfold emit.
  cbn [world trace find_handler]. rewrite Hopen. cbn [world trace].
  destruct (existsb (fun n => String.eqb n (path_basename E zip_path))
                    (namelist E a0)).
  - destruct Hcase as [Hmove Hopen2]. cbn [world trace].
    rewrite Hmove. cbn [world trace]. rewrite Hopen2. cbn [world trace].
    match goal with
    | |- context [check_encrypted ?i ?p ?s] =>
        destruct (@MoreZip.check_encrypted_exact World Archive i p s)
          as [logs [Hc Hl]]
    end.
    rewrite Hc. cbn [world trace].
    exists ([EvEnter zip_path d;
             EvLog Debug
               "ZIP file contains a file with the same name, original will be overwritten"
               [];
             EvMove zip_path (zip_path +++ ".old")] ++ logs).
    cbn [app extractions_of entries_of].
    rewrite (extractions_of_logs Hl), (entries_of_logs Hl).
    repeat split. rewrite <- !app_assoc. reflexivity.
  - destruct Hcase as [-> ->]. cbn [world trace].
    rewrite Hopen. cbn [world trace].
    match goal with
    | |- context [check_encrypted ?i ?p ?s] =>
        destruct (@MoreZip.check_encrypted_exact World Archive i p s)
          as [logs [Hc Hl]]
    end.
    rewrite Hc. cbn [world trace].
    exists ([EvEnter zip_path d] ++ logs).
    cbn [app extractions_of entries_of].
    rewrite (extractions_of_logs Hl), (entries_of_logs Hl).
    repeat split. rewrite <- !app_assoc. reflexivity.
Qed.

(** A nested archive whose own members hold no further archive, or that
    sits at the depth bound, has nothing to recurse into. *)
Lemma nested_calls_nothing fuel extract_path d (a : Archive) pwd
      (st : state World Archive) :
  Z.to_nat (4 - d) <= fuel ->
  (4 <= d)%Z
  \/ forallb (fun n => negb (Str.endswith n ".zip")) (namelist E a) = true ->
  nested_calls E fuel extract_path d a pwd st = (st, Return tt).
Proof.
  intros Hf H. unfold nested_calls.
  destruct (d <? 4)%Z eqn:Hd; [|reflexivity].
  apply Z.ltb_lt in Hd. destruct H as [H | H]; [lia|].
  destruct fuel as [|fuel']; [lia|].
  rewrite <- (app_nil_r (namelist E a)).
  rewrite (MoreFinally.extract_nested_skip _ _ _ _ H). reflexivity.
Qed.

End Facts.

End ZipSteps.



(** C2 (what the code does).  When the parent archive extracts and a
    nested member [name] opens as an archive but cannot be extracted,
    [extractall] raising [RuntimeError] on both attempts, the recursive
    call turns the failure into [CuckooPackageError].  Neither [except]
    clause of the loop over the nested members catches that class: the
    error leaves the parent call, and none of the members after [name] is
    attempted.  ([pre] are the members before [name], none of them a
    nested archive; the nested archive has nothing to recurse into
    itself.) *)
Theorem extract_zip_nested_failure_escapes {World Archive Proc}
        (E : Env World Archive Proc) (zip_path extract_path : string)
        (password : password_arg) (d : Z) (w w1 w2 w3 : World)
        (a a2 : Archive) (e1 e2 : exn)
        (pre post : list string) (name : string) :
  (d < 4)%Z ->
  ZipFile_open E zip_path w = inr a ->
  existsb (fun n => String.eqb n (path_basename E zip_path)) (namelist E a)
  = false ->
  zip_extractall E a extract_path
    (effective_password (infolist E a) (to_bytes password)) w
  = (w1, inr tt) ->
  namelist E a = pre ++ name :: post ->
  forallb (fun n => negb (Str.endswith n ".zip")) pre = true ->
  Str.endswith name ".zip" = true ->
  ZipFile_open E (path_join E extract_path name) w1 = inr a2 ->
  existsb (fun n => String.eqb n
                      (path_basename E (path_join E extract_path name)))
          (namelist E a2)
  = false ->
  ((4 <= d + 1)%Z
   \/ forallb (fun n => negb (Str.endswith n ".zip")) (namelist E a2) = true) ->
  zip_extractall E a2 extract_path
    (effective_password (infolist E a2)
       (effective_password (infolist E a) (to_bytes password))) w1
  = (w2, inl e1) ->
  is_instance (exn_cls e1) RuntimeError = true ->
  zip_extractall E a2 extract_path
    (effective_password (infolist E a2)
       (effective_password (infolist E a) (to_bytes password))) w2
  = (w3, inl e2) ->
  is_instance (exn_cls e2) RuntimeError = true ->
  result_of (run_in (extract_zip E zip_path extract_path password d) w)
  = Raise (mkExn CuckooPackageError
             ("Unable to extract Zip file: " +++ exn_msg e2))
  /\ entries_of (trace_of (run_in (extract_zip E zip_path extract_path
                                               password d) w))
     = [(zip_path, d); (path_join E extract_path name, (d + 1)%Z)]
  /\ world_of (run_in (extract_zip E zip_path extract_path password d) w)
     = w3.
Proof.
  intros Hd Hopen Hself Hx Hnames Hpre Hzip Hopen2 Hself2 Hleaf Hx1 Hr1
         Hx2 Hr2.
  assert (Hrun :
    exists tr,
      entries_of tr
      = [(zip_path, d); (path_join E extract_path name, (d + 1)%Z)]
      /\ extract_zip E zip_path extract_path password d (mkState w [])
         = (mkState w3 tr,
            Raise (mkExn CuckooPackageError
                     ("Unable to extract Zip file: " +++ exn_msg e2)))).
  { unfold extract_zip.
    (* the parent, up to its extraction *)
    destruct (@ZipSteps.extract_zip_fuel_start World Archive Proc E
                (Z.to_nat (4 - d)) zip_path extract_path password d
                (mkState w []) a a w Hopen) as [before [_ [Hent Heq]]].
    { cbn [world]. rewrite Hself. split; reflexivity. }
    rewrite Heq. cbn [trace app].
    assert (Hm := @ZipSteps.extract_members_eq World Archive Proc E d a
                    extract_path
                    (effective_password (infolist E a) (to_bytes password))
                    (mkState w before) w1 (inr tt) Hx).
    cbn [trace] in Hm.
    erewrite ZipSteps.try_finally_return by exact Hm.
    (* the loop reaches [name] *)
    unfold nested_calls.
    replace (d <? 4)%Z with true by (symmetry; apply Z.ltb_lt; exact Hd).
    destruct (Z.to_nat (4 - d)) as [|fuel] eqn:Hfuel; [lia|].
    rewrite Hnames, (MoreFinally.extract_nested_skip _ _ _ _ Hpre).
    cbn [extract_nested]. rewrite Hzip.
    (* the recursive call on [name] *)
    set (pw := effective_password (infolist E a) (to_bytes password)) in *.
    destruct (@ZipSteps.extract_zip_fuel_start World Archive Proc E
                fuel (path_join E extract_path name) extract_path
                (PwBytes pw) (d + 1)%Z
                (mkState w1 (before ++ [EvExtractAll d a extract_path pw]))
                a2 a2 w1 Hopen2)
      as [before2 [_ [Hent2 Heq2]]].
    { cbn [world]. rewrite Hself2. split; reflexivity. }
    cbn [to_bytes trace] in Heq2.
    assert (Hm2 := @ZipSteps.extract_members_eq World Archive Proc E
                     (d + 1)%Z a2 extract_path
                     (effective_password (infolist E a2) pw)
                     (mkState w1
                        ((before ++ [EvExtractAll d a extract_path pw])
                         ++ before2))
                     w2 (inl e1) Hx1).
    cbn [world trace] in Hm2.
    rewrite (ZipSteps.runtime_not_bad_zip _ Hr1), Hr1, Hx2 in Hm2.
    cbn [fst snd] in Hm2. rewrite Hr2 in Hm2.
    eexists. split; [|].
    2:{ unfold bind. unfold try_nested, try_except. rewrite Heq2.
        erewrite ZipSteps.try_finally_raise by exact Hm2.
        rewrite ZipSteps.nested_calls_nothing;
          [ | lia | destruct Hleaf as [H | H]; [left; lia | right; exact H]].
        cbn [fst snd exn_cls find_handler is_instance exn_class_eqb
             base_class orb].
        reflexivity. }
    rewrite !MoreZip.entries_of_app, Hent, Hent2. reflexivity. }
  destruct Hrun as [tr [Hent Hrun]].
  unfold result_of, trace_of, world_of, run_in. rewrite Hrun.
  cbn [fst snd world trace]. repeat split. exact Hent.
Qed.

Lemma extract_zip_nested_failure_escapes_witness :
  result_of NestedExample.outer_run
  = Raise (mkExn CuckooPackageError
             "Unable to extract Zip file: Bad password for file")
  /\ entries_of (trace_of NestedExample.outer_run)
     = [("C:\in\outer.zip", 1%Z); ("C:\out\first.zip", 2%Z)]
  /\ world_of NestedExample.outer_run = NestedExample.outer_unpacked.
Proof.
  exact (@extract_zip_nested_failure_escapes _ _ _
           (Sim.env Sim.no_options "")
           "C:\in\outer.zip" "C:\out" (PwBytes "infected") 1%Z
           Sim.outer_world NestedExample.outer_unpacked
           NestedExample.outer_unpacked NestedExample.outer_unpacked
           NestedExample.outer_members NestedExample.locked_members
           (mkExn RuntimeError "Bad password for file")
           (mkExn RuntimeError "Bad password for file")
           [] ["second.zip"] "first.zip"
           eq_refl eq_refl eq_refl eq_refl eq_refl eq_refl eq_refl eq_refl
           eq_refl (or_intror eq_refl) eq_refl eq_refl eq_refl eq_refl).
Defined.

(** The test double of [Path.match]: whole components, from the right. *)
Example path_match_components :
  map snd ToolExample.temp_paths
  = [true; true; true; true; false; false; false].
Proof. vm_compute. reflexivity. Qed.
